(** * Newmar lighting scheduler: the device protocol core

    A shallow embedding of the browser-side controller
    ([RVLightingController], the main controller class) and of the
    [parserUtils] command codec shipped with the UI script, together with
    the properties the specification states about them.

    Conventions of the embedding.
    - A JavaScript number is [NaN], an infinity, or a finite value held as
      the rational it denotes ([number]); every binary64 value is such a
      rational, and minus zero is identified with zero, which no modelled
      operation tells apart.  [Math.round], the comparisons and the 32-bit
      conversions are exact on binary64 values and are computed on the
      rationals; the operators [/], [*] and [-] round their result to the
      nearest binary64 value, ties to even, as the standard library's
      [SpecFloat] specifies it.  The results of the 32-bit operators are
      integers ([Z]).
    - [Map] objects keyed by name, whose iteration order no modelled method
      depends on, are [gmap]s; the light registry, which is iterated in
      insertion order, is an association list.
    - The collaborators the class calls ([sendWSData], [setInterval],
      [clearInterval], [JSON.parse], the wall clock) are modelled by the
      trace or table they act on, or taken as arguments. *)

From Stdlib Require Import ZArith QArith Qround Qminmax Lia Lqa List Ascii String.
From Stdlib Require Import DecimalString HexadecimalString Permutation.
From Stdlib Require SpecFloat.
From stdpp Require Import base gmap strings list.

Local Open Scope Z_scope.

(** ** JavaScript primitives *)

Module JS.

(** What a call that may throw evaluates to. *)
Inductive result (A : Type) : Type :=
| Ok (a : A)
| Throw (message : string).
Arguments Ok {A} a.
Arguments Throw {A} message.

(** [ToInt32]: the operand conversion of the bitwise operators. *)
Definition ToInt32 (n : Z) : Z := (n + 2 ^ 31) mod 2 ^ 32 - 2 ^ 31.

Definition int32 (n : Z) : Prop := - 2 ^ 31 <= n < 2 ^ 31.

(** [a | b], [a & b] and [a << k] on integer-valued numbers. *)
Definition bit_or (a b : Z) : Z := Z.lor (ToInt32 a) (ToInt32 b).
Definition bit_and (a b : Z) : Z := Z.land (ToInt32 a) (ToInt32 b).
Definition shl (a k : Z) : Z := ToInt32 (Z.shiftl (ToInt32 a) (k mod 32)).

(** [Math.round] of a finite number: the nearest integer, ties towards
    plus infinity. *)
Definition Math_round (x : Q) : Z := Qfloor (x + (1 # 2)).

(** A number: [NaN], plus or minus [Infinity], or a finite value. *)
Inductive number : Type :=
| NaN
| Infinity (negative : bool)
| Num (q : Q).

Coercion Num : Q >-> number.
Bind Scope Q_scope with number.

(** The binary64 format. *)
Definition prec : Z := 53.
Definition emax : Z := 1024.

(** The binary64 value nearest to a rational, ties to even.  A rational
    whose reduced denominator is a power of two is rounded as it stands,
    which leaves a binary64 value as it is; any other rational, which is
    no binary64 value, is rounded as the quotient of its numerator by its
    denominator. *)
Definition nearest (q : Q) : SpecFloat.spec_float :=
  let q := Qred q in
  let k := Z.log2 (Zpos (Qden q)) in
  if Zpos (Qden q) =? 2 ^ k
  then SpecFloat.binary_normalize prec emax (Qnum q) (- k) false
  else SpecFloat.SFdiv prec emax
         (SpecFloat.binary_normalize prec emax (Qnum q) 0 false)
         (SpecFloat.binary_normalize prec emax (Zpos (Qden q)) 0 false).

Definition to_binary64 (x : number) : SpecFloat.spec_float :=
  match x with
  | NaN => SpecFloat.S754_nan
  | Infinity negative => SpecFloat.S754_infinity negative
  | Num q => nearest q
  end.

(** The number a binary64 value denotes, in lowest terms. *)
Definition of_binary64 (f : SpecFloat.spec_float) : number :=
  match f with
  | SpecFloat.S754_nan => NaN
  | SpecFloat.S754_infinity negative => Infinity negative
  | SpecFloat.S754_zero _ => Num 0
  | SpecFloat.S754_finite negative m e =>
      Num (Qred (inject_Z (if negative then Zneg m else Zpos m)
                 * Qpower 2 e))
  end.

(** [x / y], [x * y] and [x - y]. *)
Definition div (x y : number) : number :=
  of_binary64 (SpecFloat.SFdiv prec emax (to_binary64 x) (to_binary64 y)).

Definition mul (x y : number) : number :=
  of_binary64 (SpecFloat.SFmul prec emax (to_binary64 x) (to_binary64 y)).


(** The number an integer literal or a parsed integer denotes. *)
Definition of_integer (z : Z) : number :=
  of_binary64 (SpecFloat.binary_normalize prec emax z 0 false).

(** [x < y]; false when either side is [NaN]. *)
Definition lt (x y : number) : bool :=
  match x, y with
  | NaN, _ | _, NaN => false
  | Infinity negative, Infinity negative' => negative && negb negative'
  | Infinity negative, Num _ => negative
  | Num _, Infinity negative => negb negative
  | Num a, Num b => if Qlt_le_dec a b then true else false
  end.

(** [x === 0] *)
Definition is_zero (x : number) : bool :=
  match x with
  | Num q => Qeq_bool q 0
  | _ => false
  end.

(** [Math.min(a, b)] and [Math.max(a, b)]: [NaN] when either argument is. *)
Definition Math_min (a b : number) : number :=
  match a, b with
  | NaN, _ | _, NaN => NaN
  | _, _ => if lt b a then b else a
  end.

Definition Math_max (a b : number) : number :=
  match a, b with
  | NaN, _ | _, NaN => NaN
  | _, _ => if lt a b then b else a
  end.

(** [Math.round(x)] on any number: [NaN] and the infinities are returned
    as they are. *)
Definition round (x : number) : number :=
  match x with
  | Num q => Num (inject_Z (Math_round q))
  | _ => x
  end.

(** The integer the 32-bit operators read in an operand before wrapping it:
    the number without its fraction, and 0 for [NaN] and the infinities. *)
Definition truncate (q : Q) : Z :=
  if Qlt_le_dec q 0 then Qceiling q else Qfloor q.

Definition integer_part (x : number) : Z :=
  match x with
  | Num q => truncate q
  | _ => 0
  end.

(** [String.prototype.toUpperCase], on the ASCII range. *)
Definition upper_ascii (c : ascii) : ascii :=
  let n := nat_of_ascii c in
  if ((97 <=? n) && (n <=? 122))%nat then ascii_of_nat (n - 32) else c.

Fixpoint toUpperCase (s : string) : string :=
  match s with
  | EmptyString => EmptyString
  | String c rest => String (upper_ascii c) (toUpperCase rest)
  end.

(** [n.toString(16)] for an integer [n]: a sign and lower-case digits. *)
Definition toString16 (n : Z) : string :=
  HexadecimalString.NilZero.string_of_int (Z.to_hex_int n).

(** [n.toString()] for a natural number. *)
Definition toString10 (n : nat) : string :=
  DecimalString.NilEmpty.string_of_uint (Nat.to_uint n).

(** ["0".repeat(k)] *)
Fixpoint zeros (k : nat) : string :=
  match k with
  | O => EmptyString
  | S k' => String "0" (zeros k')
  end.

End JS.

Import JS.

(** ** The command codec ([parserUtils]) *)

Module parserUtils.

(** [upad(n, targetLength)]: left-pads with zeros, and throws when [n] is
    already longer than the target. *)
Definition upad (n : string) (targetLength : nat) : result string :=
  if (targetLength <? String.length n)%nat
  then Throw "target length smaller than length of n!"
  else Ok (zeros (targetLength - String.length n) +:+ n).

(** [args.reduce((previous, current) => previous | current)]: no initial
    value, so an empty argument list throws and a single argument is
    returned as it is. *)
Definition reduce_or (args : list Z) : result Z :=
  match args with
  | [] => Throw "Reduce of empty array with no initial value"
  | first :: rest => Ok (fold_left bit_or rest first)
  end.

(** The value [reduce_or] yields for two arguments or more, as one
    disjunction of the converted arguments. *)
Definition lor32 (args : list Z) : Z := fold_right Z.lor 0 (map ToInt32 args).

Definition packEvent (args : list Z) : result string :=
  match reduce_or args with
  | Throw e => Throw e
  | Ok val =>
      let hex := toUpperCase (toString16 val) in
      match upad hex 4 with
      | Throw e => Throw e
      | Ok phex => Ok ("0x" +:+ phex)
      end
  end.

Definition ESET_INSTANCE (instance : number) : Z :=
  shl (bit_and (integer_part (round instance)) 255) 8.


Definition ESET_BRIGHTNESS (brightness : number) : Z :=
  bit_and (integer_part (round brightness)) 255.

Definition ESET_LEVEL (level : number) : Z :=
  bit_and (integer_part (round level)) 15.

End parserUtils.

(** ** More JavaScript library functions used by the controller *)

Module JSLib.

Definition is_space (c : ascii) : bool :=
  match nat_of_ascii c with
  | 9%nat | 10%nat | 11%nat | 12%nat | 13%nat | 32%nat => true
  | _ => false
  end.

Fixpoint skip_spaces (s : string) : string :=
  match s with
  | String c rest => if is_space c then skip_spaces rest else s
  | EmptyString => s
  end.

Definition digit_value (radix : Z) (c : ascii) : option Z :=
  let n := Z.of_nat (nat_of_ascii c) in
  let d :=
    if (48 <=? n) && (n <=? 57) then Some (n - 48)
    else if (97 <=? n) && (n <=? 122) then Some (n - 87)
    else if (65 <=? n) && (n <=? 90) then Some (n - 55)
    else None in
  match d with
  | Some v => if v <? radix then Some v else None
  | None => None
  end.

(** The longest prefix of digits, [None] when there is no digit at all. *)
Fixpoint digits (radix : Z) (s : string) (acc : option Z) : option Z :=
  match s with
  | EmptyString => acc
  | String c rest =>
      match digit_value radix c with
      | Some v =>
          digits radix rest
            (Some (match acc with Some a => a * radix + v | None => v end))
      | None => acc
      end
  end.

(** [parseInt(s)]; [None] is [NaN]. *)
Definition parseInt (s : string) : option Z :=
  let s := skip_spaces s in
  let '(sign, s) :=
    match s with
    | String "-" r => (-1, r)
    | String "+" r => (1, r)
    | _ => (1, s)
    end in
  let '(radix, s) :=
    match s with
    | String "0" (String "x" r) => (16, r)
    | String "0" (String "X" r) => (16, r)
    | _ => (10, s)
    end in
  match digits radix s None with
  | Some v => Some (sign * v)
  | None => None
  end.

(** [s.padStart(2, '0')] *)
Definition padStart2 (s : string) : string :=
  zeros (2 - String.length s) +:+ s.

(** [s.replace(/\|/g, " ")] *)
Fixpoint replace_bars (s : string) : string :=
  match s with
  | EmptyString => EmptyString
  | String c rest =>
      String (if Ascii.eqb c "|" then " "%char else c) (replace_bars rest)
  end.

(** [s] between double quotes. *)
Definition quoted (s : string) : string :=
  let q := String (ascii_of_nat 34) EmptyString in q +:+ s +:+ q.

(** [`${n}`] for an integer. *)
Definition show_int (n : Z) : string :=
  DecimalString.NilZero.string_of_int (Z.to_int n).

End JSLib.

Import JSLib.

(** ** Data model of the controller *)

(** A discovered light, as stored in [this.lights]. *)
Record Light := mkLight {
  l_name : string;
  l_index : Z;
  l_instance : Z;
  l_command : Z;
  l_room : Z;
  l_roomName : string;
  l_isDimmer : bool;
  l_currentBrightness : number;
}.

(** The object a [GET_LIGHT_OBJECT\[i\]] response decodes to. *)
Record LightObject := mkLightObject {
  lo_name : string;
  lo_index : Z;
  lo_instance : Z;
  lo_command : Z;
  lo_room_loc : Z;
}.

(** One entry of a scene's [lights] array. *)
Record LightState := mkLightState {
  ls_index : Z;
  ls_name : string;
  ls_brightness : number;
  ls_room : Z;
}.

Record Scene := mkScene {
  sc_name : string;
  sc_created : string;
  sc_room : option Z;
  sc_lights : list LightState;
}.

(** A schedule event; [ev_scene] is [None] when the property is absent. *)
Record Event := mkEvent {
  ev_time : string;
  ev_days : list string;
  ev_scene : option string;
  ev_action : string;
}.

(** A schedule event as handed to [createSchedule]; a field is [None]
    when the property is absent. *)
Record EventInput := mkEventInput {
  ei_time : string;
  ei_days : option (list string);
  ei_scene : option string;
  ei_action : option string;
}.

Record Schedule := mkSchedule {
  sd_name : string;
  sd_enabled : bool;
  sd_created : string;
  sd_events : list Event;
}.

(** The controller's fields, followed by what it drives in its environment:
    the arguments of the [sendWSData] calls and the [this.error] lines, both
    oldest first, and the table of live [setInterval] timers with the
    schedule name each one checks. [this.log] lines are debug output and
    are left out. *)
Record State := mkState {
  lights : list (Z * Light);
  scenes : gmap string Scene;
  schedules : gmap string Schedule;
  activeSchedules : gset string;
  scheduleIntervals : gmap string nat;
  isInitialized : bool;
  sent : list string;
  errors : list string;
  timers : gmap nat string;
  nextTimerId : nat;
}.

Definition with_lights (v : list (Z * Light)) (s : State) : State :=
  mkState v (scenes s) (schedules s) (activeSchedules s) (scheduleIntervals s)
    (isInitialized s) (sent s) (errors s) (timers s) (nextTimerId s).

Definition with_scenes (v : gmap string Scene) (s : State) : State :=
  mkState (lights s) v (schedules s) (activeSchedules s) (scheduleIntervals s)
    (isInitialized s) (sent s) (errors s) (timers s) (nextTimerId s).

Definition with_isInitialized (v : bool) (s : State) : State :=
  mkState (lights s) (scenes s) (schedules s) (activeSchedules s)
    (scheduleIntervals s) v (sent s) (errors s) (timers s) (nextTimerId s).

Definition with_schedule_tables (active : gset string)
    (intervals : gmap string nat) (live : gmap nat string) (next : nat)
    (s : State) : State :=
  mkState (lights s) (scenes s) (schedules s) active intervals
    (isInitialized s) (sent s) (errors s) live next.

(** [sendWSData(data)] *)
Definition sendWSData (data : string) (s : State) : State :=
  mkState (lights s) (scenes s) (schedules s) (activeSchedules s)
    (scheduleIntervals s) (isInitialized s) (sent s ++ [data]) (errors s)
    (timers s) (nextTimerId s).

(** [this.error(message, ...)] *)
Definition error (message : string) (s : State) : State :=
  mkState (lights s) (scenes s) (schedules s) (activeSchedules s)
    (scheduleIntervals s) (isInitialized s) (sent s) (errors s ++ [message])
    (timers s) (nextTimerId s).

(** The state a constructor call leaves, given the schedules and scenes
    [loadSavedData] found in storage. *)
Definition fresh (saved_scenes : gmap string Scene)
    (saved_schedules : gmap string Schedule) : State :=
  mkState [] saved_scenes saved_schedules ∅ ∅ false [] [] ∅ 1.

(** ** The light registry: a [Map] in insertion order *)

Fixpoint lights_get (k : Z) (m : list (Z * Light)) : option Light :=
  match m with
  | [] => None
  | (k', v) :: rest => if k' =? k then Some v else lights_get k rest
  end.

(** [m.set(k, v)]: an existing key keeps its position. *)
Fixpoint lights_set (k : Z) (v : Light) (m : list (Z * Light))
    : list (Z * Light) :=
  match m with
  | [] => [(k, v)]
  | (k', v') :: rest =>
      if k' =? k then (k, v) :: rest else (k', v') :: lights_set k v rest
  end.

Definition set_currentBrightness (b : number) (l : Light) : Light :=
  mkLight (l_name l) (l_index l) (l_instance l) (l_command l) (l_room l)
    (l_roomName l) (l_isDimmer l) b.

(** [light.currentBrightness = b] for the object stored under key [k]: the
    registry holds the object itself, so the entry changes in place. *)
Fixpoint lights_assign_brightness (k : Z) (b : number)
    (m : list (Z * Light))
    : list (Z * Light) :=
  match m with
  | [] => []
  | (k', v) :: rest =>
      if k' =? k then (k', set_currentBrightness b v) :: rest
      else (k', v) :: lights_assign_brightness k b rest
  end.

(** ** The wire format of a packed event *)

Import parserUtils.

(** Two upper-case hexadecimal digits for a byte, and the token of a 16-bit
    value: what the receiving parser reads back. *)
Definition hexDigit (d : Z) : ascii :=
  nth (Z.to_nat d) (list_ascii_of_string "0123456789ABCDEF") "0"%char.

Definition hexByte (b : Z) : string :=
  String (hexDigit (b / 16)) (String (hexDigit (b mod 16)) EmptyString).

Definition token (highByte lowByte : Z) : string :=
  "0x" +:+ hexByte highByte +:+ hexByte lowByte.

(** [packEvent] agrees with [token] on the 16-bit value [v]. *)
Definition token_ok (v : Z) : bool :=
  match packEvent [v] with
  | Ok s => String.eqb s (token (v / 256) (v mod 256))
  | Throw _ => false
  end.

(** [start; start + 1; ...], [n] values. *)
Fixpoint upto (n : nat) (start : Z) : list Z :=
  match n with
  | O => []
  | S n' => start :: upto n' (start + 1)
  end.

(** ** Manual control *)

(** [Math.max(0, Math.min(100, brightness))] *)
Definition clamp_brightness (brightness : number) : number :=
  Math_max 0 (Math_min 100 brightness).

(** A number that is a percentage: finite and within [0,100]. *)
Definition percentage (x : number) : Prop :=
  match x with
  | Num q => (0 <= q)%Q /\ (q <= 100)%Q
  | _ => False
  end.

(** [Math.round((brightness / 100) * 200)] *)
Definition scaled (brightness : number) : number :=
  round (mul (div brightness 100) 200).

(** Whether the scaling of the whole percentage [k] is exactly [2 * k]. *)
Definition scaled_doubles (k : Z) : bool :=
  match scaled (inject_Z k) with
  | Num (Qmake n 1) => n =? 2 * k
  | _ => false
  end.

(** [brightness > 0 ? 0x01 : 0x00] *)
Definition on_off (brightness : number) : Z :=
  if lt 0 brightness then 1 else 0.

(** The [try] block of [setLightBrightness]: builds the command for the
    already clamped [brightness] and hands it to [sendWSData]. *)
Definition send_brightness_command (light : Light) (lightIndex : Z)
    (brightness : number) (s : State) : result State :=
  if l_isDimmer light then
    let scaledBrightness := scaled brightness in
    match packEvent [ESET_INSTANCE (inject_Z lightIndex);
                     ESET_BRIGHTNESS scaledBrightness] with
    | Throw e => Throw e
    | Ok packed =>
        Ok (sendWSData
              ("HMSEVENT=ENEWMARDIMMERPARSER_SET_BRIGHTNESS_NONSCALED|"
               +:+ packed) s)
    end
  else
    let level := on_off brightness in
    match packEvent [ESET_INSTANCE (inject_Z lightIndex);
                     ESET_LEVEL (inject_Z level)] with
    | Throw e => Throw e
    | Ok packed =>
        Ok (sendWSData
              ("HMSEVENT=ENEWMARDIMMERPARSER_TURN_ON_OFF|" +:+ packed) s)
    end.

Definition setLightBrightness (lightIndex : Z) (brightness : number)
    (s : State) : State * bool :=
  match lights_get lightIndex (lights s) with
  | None =>
      (error ("Light " +:+ show_int lightIndex +:+ " not found") s, false)
  | Some light =>
      let brightness := clamp_brightness brightness in
      match send_brightness_command light lightIndex brightness s with
      | Ok s' =>
          (with_lights
             (lights_assign_brightness lightIndex brightness (lights s')) s',
           true)
      | Throw _ =>
          (error ("Failed to set brightness for light "
                  +:+ show_int lightIndex +:+ ":") s, false)
      end
  end.

(** The text [setLightBrightness] is expected to put on the wire for a
    light and a brightness that is already clamped: the command name and
    the token of the instance byte and of the low byte of the scaled
    brightness, respectively of the on/off level. *)
Definition command_text (light : Light) (lightIndex : Z) (percent : number)
    : string :=
  if l_isDimmer light then
    "HMSEVENT=ENEWMARDIMMERPARSER_SET_BRIGHTNESS_NONSCALED|"
    +:+ token (lightIndex mod 256) (integer_part (scaled percent) mod 256)
  else
    "HMSEVENT=ENEWMARDIMMERPARSER_TURN_ON_OFF|"
    +:+ token (lightIndex mod 256) (on_off percent).

(** The loop shared by [allLightsOff] and [allLightsOn]: one
    [setLightBrightness] call per registry entry, in registry order, on the
    entry's own [index] field. *)
Definition set_all (brightness : number) (s : State) : State :=
  fold_left (fun acc entry => fst (setLightBrightness (l_index (snd entry))
                                     brightness acc))
    (lights s) s.

Definition allLightsOff (s : State) : State := set_all 0 s.
Definition allLightsOn (s : State) : State := set_all 100 s.

(** ** Scenes *)

(** The [for] loop of [loadScene]: the state and [successCount] after it. *)
Fixpoint apply_members (members : list LightState) (s : State)
    (successCount : nat) : State * nat :=
  match members with
  | [] => (s, successCount)
  | lightState :: rest =>
      let '(s', ok) :=
        setLightBrightness (ls_index lightState) (ls_brightness lightState) s in
      apply_members rest s' (if ok then S successCount else successCount)
  end.

Definition loadScene (sceneName : string) (s : State) : State * bool :=
  match scenes s !! sceneName with
  | None => (error ("Scene " +:+ quoted sceneName +:+ " not found") s, false)
  | Some scene =>
      let '(s', successCount) := apply_members (sc_lights scene) s 0 in
      (s', (0 <? successCount)%nat)
  end.

(** [brightness.replace("%", "")]: the first percent sign is removed. *)
Fixpoint drop_percent (brightness : string) : string :=
  match brightness with
  | EmptyString => EmptyString
  | String c rest =>
      if Ascii.eqb c "%" then rest else String c (drop_percent rest)
  end.

(** [parseInt(brightness.toString().replace("%", ""))]: the integer read,
    as the number it is rounded to, and [NaN] when no digit is read. *)
Definition parse_level (brightness : string) : number :=
  match parseInt (drop_percent brightness) with
  | Some z => of_integer z
  | None => NaN
  end.

(** The handler of [getCurrentBrightness(lightIndex)] when the response
    arrives with the text [brightness]. *)
Definition brightness_response (lightIndex : Z) (brightness : string)
    (s : State) : State :=
  let level := parse_level brightness in
  with_lights (lights_assign_brightness lightIndex level (lights s)) s.

(** [await this.getCurrentBrightness(index).catch(...)]: sends the status
    request; [reply] is the text of the response, [None] when the
    five-second timer rejects first (the rejection is swallowed). *)
Definition getCurrentBrightness (lightIndex : Z) (reply : option string)
    (s : State) : State :=
  let s := sendWSData ("NEWMAR_DIMMER_BRIGHTNESS[" +:+ show_int lightIndex
                       +:+ "]") s in
  match reply with
  | Some brightness => brightness_response lightIndex brightness s
  | None => s
  end.

(** [light.room !== roomFilter] does not hold *)
Definition passes_filter (roomFilter : option Z) (light : Light) : bool :=
  match roomFilter with
  | None => true
  | Some r => l_room light =? r
  end.

(** The [for] loop of [saveScene] over the registry keys still to visit;
    [replies] gives the outcome of each brightness query by light index. *)
Fixpoint collect_states (keys : list Z) (roomFilter : option Z)
    (replies : Z -> option string) (s : State)
    (lightStates : list LightState)
    : State * list LightState :=
  match keys with
  | [] => (s, lightStates)
  | k :: rest =>
      match lights_get k (lights s) with
      | None => collect_states rest roomFilter replies s lightStates
      | Some light =>
          if passes_filter roomFilter light then
            let s' :=
              getCurrentBrightness (l_index light)
                (replies (l_index light)) s in
            let brightness :=
              match lights_get k (lights s') with
              | Some light' => l_currentBrightness light'
              | None => l_currentBrightness light
              end in
            collect_states rest roomFilter replies s'
              (lightStates ++ [mkLightState (l_index light) (l_name light)
                                 brightness (l_room light)])
          else collect_states rest roomFilter replies s lightStates
      end
  end.

(** [saveScene(sceneName, roomFilter)], run to completion; [now] is the
    result of [new Date().toISOString()]. *)
Definition saveScene (sceneName : string) (roomFilter : option Z)
    (replies : Z -> option string) (now : string) (s : State)
    : State * bool :=
  if negb (isInitialized s) then
    (error "Lighting controller not initialized" s, false)
  else if String.eqb sceneName EmptyString then
    (error "Invalid scene name provided" s, false)
  else
    let '(s', lightStates) :=
      collect_states (map fst (lights s)) roomFilter replies s [] in
    let scene := mkScene sceneName now roomFilter lightStates in
    (with_scenes (<[sceneName := scene]> (scenes s')) s', true).

Definition deleteScene (sceneName : string) (s : State) : State * bool :=
  match scenes s !! sceneName with
  | Some _ => (with_scenes (delete sceneName (scenes s)) s, true)
  | None =>
      (error ("Scene " +:+ quoted sceneName +:+ " not found for deletion") s,
       false)
  end.

(** ** Schedules *)

(** The default of [event.days]. *)
Definition every_day : list string :=
  ["mon"; "tue"; "wed"; "thu"; "fri"; "sat"; "sun"]%string.

(** The callback of [events.map]: the event that is stored.  [days]
    defaults to every day when absent; [action] defaults to [load_scene]
    when absent and also when it is the empty string, which is falsy. *)
Definition stored_event (event : EventInput) : Event :=
  mkEvent (ei_time event)
    (match ei_days event with
     | Some days => days
     | None => every_day
     end)
    (ei_scene event)
    (match ei_action event with
     | Some (String _ _ as action) => action
     | _ => "load_scene"%string
     end).

(** [createSchedule(scheduleName, events)]: a copy of each event is stored,
    with [enabled] true. *)
Definition createSchedule (scheduleName : string) (events : list EventInput)
    (now : string) (s : State) : State * bool :=
  if String.eqb scheduleName EmptyString then
    (error "Invalid schedule parameters" s, false)
  else
    let schedule :=
      mkSchedule scheduleName true now (map stored_event events) in
    (mkState (lights s) (scenes s) (<[scheduleName := schedule]> (schedules s))
       (activeSchedules s) (scheduleIntervals s) (isInitialized s) (sent s)
       (errors s) (timers s) (nextTimerId s), true).

(** [setInterval] hands out the next identifier and records the timer. *)
Definition activateSchedule (scheduleName : string) (s : State)
    : State * bool :=
  match schedules s !! scheduleName with
  | None =>
      (error ("Schedule " +:+ quoted scheduleName +:+ " not found") s, false)
  | Some _ =>
      if decide (scheduleName ∈ activeSchedules s) then (s, true)
      else
        let intervalId := nextTimerId s in
        (with_schedule_tables
           ({[scheduleName]} ∪ activeSchedules s)
           (<[scheduleName := intervalId]> (scheduleIntervals s))
           (<[intervalId := scheduleName]> (timers s))
           (S intervalId) s, true)
  end.

Definition deactivateSchedule (scheduleName : string) (s : State)
    : State * bool :=
  if decide (scheduleName ∈ activeSchedules s) then
    let '(intervals, live) :=
      match scheduleIntervals s !! scheduleName with
      | Some (S _ as intervalId) =>
          (delete scheduleName (scheduleIntervals s),
           delete intervalId (timers s))
      | _ => (scheduleIntervals s, timers s)
      end in
    (with_schedule_tables (activeSchedules s ∖ {[scheduleName]})
       intervals live (nextTimerId s) s, true)
  else (s, false).

(** What [new Date()] reads: [getHours()], [getMinutes()], [getDay()]. *)
Record Clock := mkClock {
  hours : nat;
  minutes : nat;
  day : nat;
}.

Definition weekdays : list string :=
  ["sun"; "mon"; "tue"; "wed"; "thu"; "fri"; "sat"]%string.

Definition currentTime (now : Clock) : string :=
  padStart2 (toString10 (hours now)) +:+ ":"
  +:+ padStart2 (toString10 (minutes now)).

(** [None] is [undefined], for a day outside 0..6. *)
Definition currentDay (now : Clock) : option string :=
  nth_error weekdays (day now).

(** [days.includes(d)] *)
Definition includes (days : list string) (d : option string) : bool :=
  match d with
  | Some d => existsb (String.eqb d) days
  | None => false
  end.

(** The condition of the [if] in the evaluator's loop. *)
Definition due (now : Clock) (event : Event) : bool :=
  String.eqb (ev_time event) (currentTime now)
  && includes (ev_days event) (currentDay now).

(** The [switch (event.action)]. *)
Definition dispatch (event : Event) (s : State) : State :=
  if String.eqb (ev_action event) "load_scene" then
    match ev_scene event with
    | Some (String _ _ as scene) => fst (loadScene scene s)
    | _ => s
    end
  else if String.eqb (ev_action event) "lights_off" then allLightsOff s
  else if String.eqb (ev_action event) "lights_on" then allLightsOn s
  else error ("Unknown schedule action: " +:+ ev_action event) s.

Definition checkScheduleEvents (scheduleName : string) (now : Clock)
    (s : State) : State :=
  match schedules s !! scheduleName with
  | None => s
  | Some schedule =>
      if sd_enabled schedule then
        fold_left
          (fun acc event => if due now event then dispatch event acc else acc)
          (sd_events schedule) s
      else s
  end.

(** The callback of the interval [intervalId] runs, if that timer is live. *)
Definition interval_fires (intervalId : nat) (now : Clock) (s : State)
    : State :=
  match timers s !! intervalId with
  | Some scheduleName => checkScheduleEvents scheduleName now s
  | None => s
  end.

(** ** Discovery ([initialize]) *)

Inductive Promise : Type :=
| Pending
| Resolved
| Rejected (reason : string).

(** What [initialize] looks for in the global scope. *)
Record Globals := mkGlobals {
  has_sendWSData : bool;
  has_parserUtils : bool;
}.

(** The two handlers [initialize] registers, as data. *)
Inductive Listener : Type :=
| lightCountHandler
| lightObjectHandler (i : nat).

(** Inputs of a discovery pass: an inbound [KEY=VALUE] message, triggered
    as event [KEY] with data [VALUE], and the ten-second timer. *)
Inductive Input : Type :=
| Message (tag value : string)
| TimeoutElapsed.

(** One [initialize()] call in flight: the controller, the promise it
    returned (a resolved promise carries the registry [lights] itself), the
    one-shot listeners on [body], the variables [receivedCount] and
    [totalLights] of the closure ([None] is [NaN], also before the count
    arrived), and whether the timer is still to fire. *)
Record Discovery := mkDiscovery {
  controller : State;
  promise : Promise;
  listeners : list (string * Listener);
  receivedCount : nat;
  totalLights : option Z;
  timeoutArmed : bool;
}.

Definition on_controller (f : State -> State) (d : Discovery) : Discovery :=
  mkDiscovery (f (controller d)) (promise d) (listeners d) (receivedCount d)
    (totalLights d) (timeoutArmed d).

(** Settling a promise that is already settled does nothing. *)
Definition settle (outcome : Promise) (d : Discovery) : Discovery :=
  match promise d with
  | Pending =>
      mkDiscovery (controller d) outcome (listeners d) (receivedCount d)
        (totalLights d) (timeoutArmed d)
  | _ => d
  end.

Definition resolve : Discovery -> Discovery := settle Resolved.
Definition reject (reason : string) : Discovery -> Discovery :=
  settle (Rejected reason).

(** [this.addEventHandler(eventName, handler, true)] *)
Definition addEventHandler (eventName : string) (handler : Listener)
    (d : Discovery) : Discovery :=
  mkDiscovery (controller d) (promise d) (listeners d ++ [(eventName, handler)])
    (receivedCount d) (totalLights d) (timeoutArmed d).

Definition object_tag (i : nat) : string :=
  "GET_LIGHT_OBJECT[" +:+ toString10 i +:+ "]".

(** [this.roomNames\[room_loc\] || "Unknown"] *)
Definition roomName (room_loc : Z) : string :=
  match room_loc with
  | 0 => "Living Room"
  | 1 => "Kitchen"
  | 2 => "Bedroom"
  | 3 => "Bath"
  | 4 => "Half Bath"
  | 5 => "Exterior"
  | _ => "Unknown"
  end.

Definition lightData (lightObject : LightObject) : Light :=
  mkLight (replace_bars (lo_name lightObject)) (lo_index lightObject)
    (lo_instance lightObject) (lo_command lightObject)
    (lo_room_loc lightObject) (roomName (lo_room_loc lightObject))
    (lo_command lightObject =? 0) 0.

Section DiscoveryWorkflow.

(** [decode objectString] is the light object the [try] block of
    [lightObjectHandler] reads: [JSON.parse] followed by the field accesses;
    [None] when any of them throws. *)
Variable decode : string -> option LightObject.

(** The [for] loop of [lightCountHandler], from index [i] for [n] rounds. *)
Fixpoint request_objects (n : nat) (i : nat) (d : Discovery) : Discovery :=
  match n with
  | O => d
  | S n' =>
      let d := addEventHandler (object_tag i) (lightObjectHandler i) d in
      let d := on_controller (sendWSData (object_tag i)) d in
      request_objects n' (S i) d
  end.

Definition run_lightCountHandler (count : string) (d : Discovery)
    : Discovery :=
  let d := mkDiscovery (controller d) (promise d) (listeners d) 0
             (parseInt count) (timeoutArmed d) in
  match totalLights d with
  | Some 0 => resolve (on_controller (with_isInitialized true) d)
  | Some (Zpos n) => request_objects (Pos.to_nat n) 0 d
  | _ => d
  end.

Definition run_lightObjectHandler (i : nat) (objectString : string)
    (d : Discovery) : Discovery :=
  match decode objectString with
  | Some lightObject =>
      let d :=
        on_controller
          (fun s => with_lights
                      (lights_set (lo_index lightObject) (lightData lightObject)
                         (lights s)) s) d in
      let d := mkDiscovery (controller d) (promise d) (listeners d)
                 (S (receivedCount d)) (totalLights d) (timeoutArmed d) in
      if decide (Some (Z.of_nat (receivedCount d)) = totalLights d)
      then resolve (on_controller (with_isInitialized true) d)
      else d
  | None =>
      on_controller
        (error ("Error parsing light object " +:+ toString10 i +:+ ":")) d
  end.

Definition run_listener (handler : Listener) (data : string) (d : Discovery)
    : Discovery :=
  match handler with
  | lightCountHandler => run_lightCountHandler data d
  | lightObjectHandler i => run_lightObjectHandler i data d
  end.

Definition bound_to (tag : string) (entry : string * Listener) : bool :=
  String.eqb (fst entry) tag.

(** Triggering event [tag]: the one-shot listeners bound to it are unbound
    and run in registration order; a message nobody waits for is dropped. *)
Definition trigger (tag data : string) (d : Discovery) : Discovery :=
  let firing := List.filter (bound_to tag) (listeners d) in
  let d := mkDiscovery (controller d) (promise d)
             (List.filter (fun e => negb (bound_to tag e)) (listeners d))
             (receivedCount d) (totalLights d) (timeoutArmed d) in
  fold_left (fun acc e => run_listener (snd e) data acc) firing d.

(** The callback of [setTimeout(..., 10000)]. *)
Definition timeout_fires (d : Discovery) : Discovery :=
  if timeoutArmed d then
    let d := mkDiscovery (controller d) (promise d) (listeners d)
               (receivedCount d) (totalLights d) false in
    if isInitialized (controller d) then d
    else reject "INIT_TIMEOUT"
           (on_controller (error "Lighting system initialization timeout") d)
  else d.

(** [initialize()] past its two dependency checks, that is on a page
    where [sendWSData] and [parserUtils] are defined, up to the point where
    it returns the promise. *)
Definition initialize (s : State) : Discovery :=
  let d := mkDiscovery s Pending [] 0 None true in
  let d := addEventHandler "GET_LIGHT_COUNT" lightCountHandler d in
  on_controller (sendWSData "GET_LIGHT_COUNT") d.

(** [initialize()] on any page: each of the two dependency checks rejects
    at once, before a handler is bound, a request sent or the timer
    started. *)
Definition initialize_on (page : Globals) (s : State) : Discovery :=
  if negb (has_sendWSData page) then
    mkDiscovery s (Rejected "sendWSData function not available") [] 0 None
      false
  else if negb (has_parserUtils page) then
    mkDiscovery s (Rejected "parserUtils object not available") [] 0 None
      false
  else initialize s.

Definition step (d : Discovery) (input : Input) : Discovery :=
  match input with
  | Message tag value => trigger tag value d
  | TimeoutElapsed => timeout_fires d
  end.

Definition run (inputs : list Input) (d : Discovery) : Discovery :=
  fold_left step inputs d.

End DiscoveryWorkflow.

(** ** Sample data

    A two-light coach: a dimmer in the living room and a switch outside,
    as discovery leaves them. *)

Definition sample_decode (objectString : string) : option LightObject :=
  if String.eqb objectString "{main}"
  then Some (mkLightObject "Main|Light" 1 1 0 0)
  else if String.eqb objectString "{porch}"
  then Some (mkLightObject "Porch" 2 2 1 5)
  else None.

Definition sample_discovery : Discovery :=
  run sample_decode
    [Message "GET_LIGHT_COUNT" "2";
     Message "GET_LIGHT_OBJECT[0]" "{main}";
     Message "GET_LIGHT_OBJECT[1]" "{porch}"]
    (initialize (fresh ∅ ∅)).

Definition sample_ready : State := controller sample_discovery.

Definition main_light : Light :=
  mkLight "Main Light" 1 1 0 0 "Living Room" true 0.

Definition porch_light : Light :=
  mkLight "Porch" 2 2 1 5 "Exterior" false 0.

(** ** Notions used to state the scene properties *)

(** Whether a scene member's device is in the registry. *)
Definition in_registry (s : State) (member : LightState) : bool :=
  match lights_get (ls_index member) (lights s) with
  | Some _ => true
  | None => false
  end.

(** The number of members of a scene a load can apply. *)
Definition applicable (s : State) (members : list LightState) : nat :=
  length (List.filter (in_registry s) members).

(** A registry entry without its cached brightness, the only field control
    operations and brightness queries change. *)
Definition static_part (entry : Z * Light) : Z * Light :=
  (fst entry, set_currentBrightness 0 (snd entry)).

(** The registry lights a room filter lets through, in registry order. *)
Definition filtered_lights (roomFilter : option Z) (s : State) : list Light :=
  List.filter (passes_filter roomFilter) (map snd (lights s)).

(** The fields a scene member copies from its light. *)
Definition member_static (member : LightState) : Z * string * Z :=
  (ls_index member, ls_name member, ls_room member).

Definition light_static (light : Light) : Z * string * Z :=
  (l_index light, l_name light, l_room light).

(** The registry values found under a list of keys. *)
Definition values_at (m : list (Z * Light)) (keys : list Z) : list Light :=
  flat_map (fun k => match lights_get k m with
                     | Some light => [light]
                     | None => []
                     end) keys.

(** Two saved scenes over [sample_ready]: one whose members are both in the
    registry, one that refers to a device 9 that is not. *)
Definition sample_scenes : gmap string Scene :=
  <["Evening" := mkScene "Evening" "2024-05-22T20:00:00Z" None
       [mkLightState 1 "Main Light" 50 0; mkLightState 2 "Porch" 100 5]]>
  (<["Stale" := mkScene "Stale" "2024-05-22T20:00:00Z" None
       [mkLightState 1 "Main Light" 50 0; mkLightState 9 "Awning" 100 5]]> ∅).

Definition sample_with_scenes : State := with_scenes sample_scenes sample_ready.

(** ** Notions used to state the schedule properties *)

(** The schedule methods a caller can invoke, and a sequence of such calls
    made on a controller. *)
Inductive Call : Type :=
| Create (scheduleName : string) (events : list EventInput) (now : string)
| Activate (scheduleName : string)
| Deactivate (scheduleName : string).

Definition perform (s : State) (call : Call) : State :=
  match call with
  | Create scheduleName events now =>
      fst (createSchedule scheduleName events now s)
  | Activate scheduleName => fst (activateSchedule scheduleName s)
  | Deactivate scheduleName => fst (deactivateSchedule scheduleName s)
  end.

Definition perform_all (calls : list Call) (s : State) : State :=
  fold_left perform calls s.

(** No schedule is active and no evaluator timer is live, as after the
    constructor; timer identifiers are positive. *)
Definition idle (s : State) : Prop :=
  activeSchedules s = ∅ /\ scheduleIntervals s = ∅ /\ timers s = ∅
  /\ (1 <= nextTimerId s)%nat.

(** Exactly one live interval timer checks [scheduleName]. *)
Definition one_evaluator (s : State) (scheduleName : string) : Prop :=
  exists intervalId,
    timers s !! intervalId = Some scheduleName
    /\ forall other, timers s !! other = Some scheduleName ->
                     other = intervalId.

Definition no_evaluator (s : State) (scheduleName : string) : Prop :=
  forall intervalId, timers s !! intervalId <> Some scheduleName.

(** The tables of the schedule engine agree: every active name has its
    interval identifier recorded and live, every live timer belongs to the
    active name it is recorded for, and active names are stored schedules. *)
Definition tables_agree (s : State) : Prop :=
  (1 <= nextTimerId s)%nat
  /\ (forall name, name ∈ activeSchedules s ->
        is_Some (schedules s !! name)
        /\ exists intervalId,
             scheduleIntervals s !! name = Some intervalId
             /\ timers s !! intervalId = Some name)
  /\ (forall intervalId name, timers s !! intervalId = Some name ->
        name ∈ activeSchedules s
        /\ scheduleIntervals s !! name = Some intervalId
        /\ (1 <= intervalId < nextTimerId s)%nat).

(** A weekday-morning schedule: all lights off at 07:00 on Mondays. *)
Definition monday_off : Schedule :=
  mkSchedule "Morning" true "2024-05-22T20:00:00Z"
    [mkEvent "07:00" ["mon"%string] None "lights_off"].

Definition sample_scheduled : State :=
  fst (createSchedule "Morning"
         [mkEventInput "07:00" (Some ["mon"%string]) None (Some "lights_off")]
         "2024-05-22T20:00:00Z"
         sample_with_scenes).

(** ** Notions used to state the discovery properties *)


Definition is_object_handler (entry : string * Listener) : Prop :=
  match snd entry with
  | lightObjectHandler _ => True
  | lightCountHandler => False
  end.

(** Discovery is over and succeeded: nothing is listening any more. *)
Definition settled (d : Discovery) : Prop :=
  promise d = Resolved /\ listeners d = []
  /\ isInitialized (controller d) = true.







(** What running handlers may change of the timer, the promise and the
    error log: the timer is left alone, a pending promise may get resolved,
    and error lines are only added. *)
Definition frame (d d' : Discovery) : Prop :=
  timeoutArmed d' = timeoutArmed d
  /\ (promise d' = promise d
      \/ (promise d = Pending /\ promise d' = Resolved))
  /\ (forall line, In line (errors (controller d)) ->
                   In line (errors (controller d'))).

(** * The rest of the controller and of the codec *)

From Stdlib Require DecimalNat.

(** ** Sixteen-bit hexadecimal helpers of [parserUtils] *)

(** [parseInt(s, 16)]; [None] is [NaN]. *)
Definition parseInt16 (s : string) : option Z :=
  let s := skip_spaces s in
  let '(sign, s) :=
    match s with
    | String "-" r => (-1, r)
    | String "+" r => (1, r)
    | _ => (1, s)
    end in
  let s :=
    match s with
    | String "0" (String "x" r) => r
    | String "0" (String "X" r) => r
    | _ => s
    end in
  match digits 16 s None with
  | Some v => Some (sign * v)
  | None => None
  end.

(** [u16toHex(value)] for an integer [value]: the low byte first.  [%] is
    the remainder with the sign of the dividend. *)
Definition u16toHex (value : Z) : result string :=
  match upad (toUpperCase (toString16 (Z.rem value 256))) 2 with
  | Throw e => Throw e
  | Ok temp1 =>
      match upad (toUpperCase (toString16 (value / 256))) 2 with
      | Throw e => Throw e
      | Ok temp2 => Ok (temp1 +:+ temp2)
      end
  end.

(** [hexToU16(hex)] *)
Definition hexToU16 (hex : string) : option Z :=
  match parseInt16 (substring 0 2 hex), parseInt16 (substring 2 2 hex) with
  | Some byte1, Some byte2 => Some (byte1 + 256 * byte2)
  | _, _ => None
  end.

(** [u16toHex] and [hexToU16] are inverse on the 16-bit value [v]. *)
Definition u16_round_trip_ok (v : Z) : bool :=
  match u16toHex v with
  | Ok s =>
      String.eqb s (hexByte (v mod 256) +:+ hexByte (v / 256))
      && match hexToU16 s with
         | Some v' => v' =? v
         | None => false
         end
  | Throw _ => false
  end.



(** ** Registry queries and the remaining control operations *)

Definition getAllLights (s : State) : list Light := map snd (lights s).

Definition getLightsByRoom (roomId : Z) (s : State) : list Light :=
  List.filter (fun light => l_room light =? roomId) (getAllLights s).

(** [toggleLight(lightIndex, state)]; [state] is [None] for [null]. *)
Definition toggleLight (lightIndex : Z) (state : option bool) (s : State)
    : State * bool :=
  match lights_get lightIndex (lights s) with
  | None => (s, false)
  | Some light =>
      let state :=
        match state with
        | Some b => b
        | None => is_zero (l_currentBrightness light)
        end in
      let brightness := (if state then 100 else 0)%Q in
      setLightBrightness lightIndex brightness s
  end.

(** A registry as a [Map] filled by discovery is: one entry per key, each
    light stored under its own [index]. *)
Definition registry_ok (m : list (Z * Light)) : Prop :=
  List.NoDup (map fst m)
  /\ Forall (fun entry => l_index (snd entry) = fst entry) m.

(** The scenes map as [saveScene] fills it: every scene is stored under its
    own, non-empty name. *)
Definition scenes_keyed (m : gmap string Scene) : Prop :=
  forall key scene, m !! key = Some scene ->
                    sc_name scene = key /\ key <> EmptyString.

Definition schedules_keyed (m : gmap string Schedule) : Prop :=
  forall key schedule, m !! key = Some schedule ->
                       sd_name schedule = key /\ key <> EmptyString.

(** Both stores hold every entry under its own name. *)
Definition stores_keyed (s : State) : Prop :=
  scenes_keyed (scenes s) /\ schedules_keyed (schedules s).

(** ** Configuration import *)

(** The parts of a configuration object [importConfig] reads; a field is
    [None] when it is absent or not an array. *)
Record Config := mkConfig {
  cfg_scenes : option (list Scene);
  cfg_schedules : option (list Schedule);
}.

(** The two [for] loops of [importConfig]: entries without a name are
    passed over, later entries replace earlier ones of the same name. *)
Definition import_scenes (imported : list Scene) (m : gmap string Scene)
    : gmap string Scene :=
  fold_left (fun acc scene =>
               if String.eqb (sc_name scene) EmptyString then acc
               else <[sc_name scene := scene]> acc) imported m.

Definition import_schedules (imported : list Schedule)
    (m : gmap string Schedule) : gmap string Schedule :=
  fold_left (fun acc schedule =>
               if String.eqb (sd_name schedule) EmptyString then acc
               else <[sd_name schedule := schedule]> acc) imported m.

(** The shape the two loops share, by the name an entry carries. *)
Definition import_by {A : Type} (name_of : A -> string) (imported : list A)
    (m : gmap string A) : gmap string A :=
  fold_left (fun acc x =>
               if String.eqb (name_of x) EmptyString then acc
               else <[name_of x := x]> acc) imported m.

(** [importConfig(config)]; [None] is a [config] that is not an object. *)
Definition importConfig (config : option Config) (s : State) : State * bool :=
  match config with
  | None => (error "Error importing configuration:" s, false)
  | Some config =>
      let scenes' :=
        match cfg_scenes config with
        | Some imported => import_scenes imported (scenes s)
        | None => scenes s
        end in
      let schedules' :=
        match cfg_schedules config with
        | Some imported => import_schedules imported (schedules s)
        | None => schedules s
        end in
      (mkState (lights s) scenes' schedules' (activeSchedules s)
         (scheduleIntervals s) (isInitialized s) (sent s) (errors s)
         (timers s) (nextTimerId s), true)
  end.

(** ** Teardown and schedule removal *)

(** [cleanup()]: no persistent event handler is ever registered by the
    class, so what it does is clear every recorded interval and empty both
    schedule tables. *)
Definition cleanup (s : State) : State :=
  with_schedule_tables ∅ ∅
    (map_fold (fun _ intervalId live => delete intervalId live)
       (timers s) (scheduleIntervals s))
    (nextTimerId s) s.

(** [deleteSchedule(scheduleName)] of the UI script, once confirmed:
    [schedules.delete] followed by [deactivateSchedule]. *)
Definition deleteSchedule (scheduleName : string) (s : State) : State :=
  let s := mkState (lights s) (scenes s) (delete scheduleName (schedules s))
             (activeSchedules s) (scheduleIntervals s) (isInitialized s)
             (sent s) (errors s) (timers s) (nextTimerId s) in
  fst (deactivateSchedule scheduleName s).

(** Recorded interval identifiers belong to active schedules. *)
Definition no_stale_interval (s : State) : Prop :=
  forall name intervalId,
    scheduleIntervals s !! name = Some intervalId -> name ∈ activeSchedules s.

(** A registry entry with its cached brightness replaced. *)
Definition with_level (b : number) (entry : Z * Light) : Z * Light :=
  (fst entry, set_currentBrightness b (snd entry)).

(** What [loadScene] puts on the wire, and what it logs, for one member. *)
Definition member_command (s : State) (member : LightState) : list string :=
  match lights_get (ls_index member) (lights s) with
  | Some light =>
      [command_text light (ls_index member)
         (clamp_brightness (ls_brightness member))]
  | None => []
  end.

Definition member_error (s : State) (member : LightState) : list string :=
  match lights_get (ls_index member) (lights s) with
  | Some _ => []
  | None => ["Light " +:+ show_int (ls_index member) +:+ " not found"]
  end.

(** ** Notions used to state what a save records *)

(** A registry entry after [saveScene] queried it: the cached brightness is
    what the reply reads as when one came ([NaN] for a reply without a
    digit), and is left alone on a timeout or when the room filter passes
    the light over. *)
Definition refreshed (roomFilter : option Z) (replies : Z -> option string)
    (entry : Z * Light) : Z * Light :=
  if passes_filter roomFilter (snd entry) then
    match replies (l_index (snd entry)) with
    | Some brightness => with_level (parse_level brightness) entry
    | None => entry
    end
  else entry.

(** The scene member recorded for a light. *)
Definition snapshot (replies : Z -> option string) (light : Light) : LightState :=
  mkLightState (l_index light) (l_name light)
    (match replies (l_index light) with
     | Some brightness => parse_level brightness
     | None => l_currentBrightness light
     end)
    (l_room light).

(** The status request [getCurrentBrightness] sends for a light. *)
Definition brightness_query (light : Light) : string :=
  "NEWMAR_DIMMER_BRIGHTNESS[" +:+ show_int (l_index light) +:+ "]".

(** What control operations leave alone: the stores, the schedule tables,
    the initialization flag and, in the registry, everything but cached
    brightness. *)
Definition same_setup (s s' : State) : Prop :=
  scenes s' = scenes s
  /\ schedules s' = schedules s
  /\ activeSchedules s' = activeSchedules s
  /\ scheduleIntervals s' = scheduleIntervals s
  /\ timers s' = timers s
  /\ nextTimerId s' = nextTimerId s
  /\ isInitialized s' = isInitialized s
  /\ map static_part (lights s') = map static_part (lights s).

(** ** Notions used to state further discovery properties *)

(** Discovery only adds or replaces registry entries. *)
Definition registry_grows (m m' : list (Z * Light)) : Prop :=
  (registry_ok m -> registry_ok m')
  /\ (forall k, is_Some (lights_get k m) -> is_Some (lights_get k m')).

(** What no discovery step touches, and how the registry may change. *)
Definition discovery_keeps (s s' : State) : Prop :=
  registry_grows (lights s) (lights s')
  /\ scenes s' = scenes s /\ schedules s' = schedules s
  /\ activeSchedules s' = activeSchedules s
  /\ scheduleIntervals s' = scheduleIntervals s
  /\ timers s' = timers s
  /\ (isInitialized s = true -> isInitialized s' = true).

(** The listener [lightCountHandler] binds for object [i]. *)
Definition object_entry (i : nat) : string * Listener :=
  (object_tag i, lightObjectHandler i).

(** The accounting of a discovery pass once the count arrived, with
    [pending] handlers about to run: a resolved promise means every
    announced object was received, and while handlers remain the promise
    is not resolved. *)
Definition progress_with (pending : nat) (d : Discovery) : Prop :=
  Forall is_object_handler (listeners d)
  /\ (promise d = Resolved ->
      totalLights d = Some (Z.of_nat (receivedCount d))
      /\ isInitialized (controller d) = true
      /\ (length (listeners d) + pending = 0)%nat)
  /\ ((length (listeners d) + pending <> 0)%nat ->
      exists total, totalLights d = Some total
        /\ Z.of_nat (receivedCount d + length (listeners d) + pending)
           <= total).

(** Only the count response is awaited and nothing is resolved yet. *)
Definition awaiting_count (d : Discovery) : Prop :=
  listeners d = [("GET_LIGHT_COUNT"%string, lightCountHandler)]
  /\ promise d <> Resolved.


(** The objects with indices [indices] are still awaited, out of [total]
    announced, and all the others were received. *)
Definition awaiting (indices : list nat) (total : nat) (d : Discovery)
    : Prop :=
  listeners d = map object_entry indices
  /\ List.NoDup indices
  /\ indices <> []
  /\ totalLights d = Some (Z.of_nat total)
  /\ (receivedCount d + length indices = total)%nat
  /\ promise d = Pending.

(** An input that is a message and, if it answers an object request,
    carries an object that decodes. *)
Definition well_formed_response (decode : string -> option LightObject)
    (input : Input) : Prop :=
  match input with
  | Message tag value =>
      forall i, tag = object_tag i -> is_Some (decode value)
  | TimeoutElapsed => False
  end.


(** ** Inbound messages (UI script) *)

(** [message.split("=")\[0\]]: the text before the first [=]. *)
Fixpoint before_eq (message : string) : string :=
  match message with
  | EmptyString => EmptyString
  | String c rest =>
      if Ascii.eqb c "=" then EmptyString else String c (before_eq rest)
  end.

(** The text after the first [=]; [None] when there is none, which is when
    [message.split("=")] has a single part. *)
Fixpoint after_eq (message : string) : option string :=
  match message with
  | EmptyString => None
  | String c rest => if Ascii.eqb c "=" then Some rest else after_eq rest
  end.

Definition pin_messages : list string :=
  ["SHOWPIN"; "SHOWPINPAIR"; "CORRECTPIN"; "INCORRECTPIN"; "LOCKEDPIN"]%string.

(** The events [handleMessage(message)] dispatches on [body], in order, each
    with its [detail]; [is_json message] tells whether [JSON.parse(message)]
    returns.  The PIN dialogue and the log lines are not represented. *)
Definition handleMessage (is_json : string -> bool) (message : string)
    : list (string * string) :=
  if existsb (String.eqb message) pin_messages then []
  else if is_json message then []
  else
    match after_eq message with
    | None => []
    | Some rest =>
        let event := (before_eq message, before_eq rest) in
        event :: (if String.prefix "GET_LIGHT_OBJECT[" (before_eq message)
                  then [event] else [])
    end.

(** The listeners of a discovery pass receiving dispatched events. *)
Definition deliver (decode : string -> option LightObject)
    (events : list (string * string)) (d : Discovery) : Discovery :=
  fold_left (fun acc event => trigger decode (fst event) (snd event) acc)
    events d.

(** ** Status report *)

Record RoomStatus := mkRoomStatus {
  rs_id : Z;
  rs_name : string;
  rs_lightCount : nat;
}.

Record Status := mkStatus {
  st_initialized : bool;
  st_lightsCount : nat;
  st_scenesCount : nat;
  st_schedulesCount : nat;
  st_activeSchedulesCount : nat;
  st_rooms : list RoomStatus;
}.

(** [Object.keys(this.roomNames)], parsed. *)
Definition room_ids : list Z := [0; 1; 2; 3; 4; 5].

Definition getStatus (s : State) : Status :=
  mkStatus (isInitialized s) (length (lights s)) (size (scenes s))
    (size (schedules s)) (size (activeSchedules s))
    (map (fun id => mkRoomStatus id (roomName id)
                      (length (getLightsByRoom id s))) room_ids).

(** A light whose room is none of the six the controller names. *)
Definition in_unnamed_room (light : Light) : bool :=
  negb ((0 <=? l_room light) && (l_room light <=? 5)).

(** * Properties *)

(** ** Integer conversions and the bitwise operators *)

Lemma ToInt32_small n : int32 n -> ToInt32 n = n.
Proof. unfold int32, ToInt32. intros H. rewrite Z.mod_small; lia. Qed.

Lemma ToInt32_int32 n : int32 (ToInt32 n).
Proof.
  unfold int32, ToInt32.
  pose proof (Z.mod_pos_bound (n + 2 ^ 31) (2 ^ 32)). lia.
Qed.

Lemma ToInt32_mod_256 n : ToInt32 n mod 256 = n mod 256.
Proof.
  unfold ToInt32.
  change (2 ^ 31) with 2147483648. change (2 ^ 32) with 4294967296.
  Z.to_euclidean_division_equations. lia.
Qed.

Lemma ToInt32_mod_16 n : ToInt32 n mod 16 = n mod 16.
Proof.
  unfold ToInt32.
  change (2 ^ 31) with 2147483648. change (2 ^ 32) with 4294967296.
  Z.to_euclidean_division_equations. lia.
Qed.

(** A number is an int32 exactly when everything above bit 30 is sign. *)
Lemma int32_shiftr n : int32 n <-> (Z.shiftr n 31 = 0 \/ Z.shiftr n 31 = -1).
Proof.
  unfold int32. rewrite Z.shiftr_div_pow2 by lia.
  change (2 ^ 31) with 2147483648.
  Z.to_euclidean_division_equations. lia.
Qed.

Lemma lor_int32 a b : int32 a -> int32 b -> int32 (Z.lor a b).
Proof.
  rewrite !int32_shiftr, Z.shiftr_lor.
  intros [-> | ->] [-> | ->]; simpl; auto.
Qed.

Lemma bit_or_int32 a b : int32 (bit_or a b).
Proof. apply lor_int32; apply ToInt32_int32. Qed.

Lemma bit_or_comm a b : bit_or a b = bit_or b a.
Proof. apply Z.lor_comm. Qed.

Lemma bit_and_255 n : bit_and n 255 = n mod 256.
Proof.
  unfold bit_and. rewrite (ToInt32_small 255) by (unfold int32; lia).
  change 255 with (Z.ones 8). rewrite Z.land_ones by lia.
  apply ToInt32_mod_256.
Qed.

Lemma bit_and_15 n : bit_and n 15 = n mod 16.
Proof.
  unfold bit_and. rewrite (ToInt32_small 15) by (unfold int32; lia).
  change 15 with (Z.ones 4). rewrite Z.land_ones by lia.
  apply ToInt32_mod_16.
Qed.

Lemma shl_byte v : 0 <= v < 256 -> shl v 8 = v * 256.
Proof.
  intros H. unfold shl.
  rewrite (ToInt32_small v) by (unfold int32; lia).
  change (8 mod 32) with 8. rewrite Z.shiftl_mul_pow2 by lia.
  apply ToInt32_small. unfold int32. lia.
Qed.

(** ** Rounding and clamping *)

Lemma Math_round_integer z : Math_round (inject_Z z) = z.
Proof.
  unfold Math_round, Qfloor, Qplus, inject_Z. simpl.
  Z.to_euclidean_division_equations. lia.
Qed.

Lemma Math_round_mono x y : (x <= y)%Q -> Math_round x <= Math_round y.
Proof.
  intros H. unfold Math_round. apply Qfloor_resp_le.
  apply Qplus_le_l. exact H.
Qed.

Lemma Math_round_Qeq x y : (x == y)%Q -> Math_round x = Math_round y.
Proof. intros H. unfold Math_round. apply Qfloor_comp. rewrite H. reflexivity. Qed.

Lemma truncate_integer z : truncate (inject_Z z) = z.
Proof.
  unfold truncate. destruct (Qlt_le_dec (inject_Z z) 0).
  - apply Qceiling_Z.
  - apply Qfloor_Z.
Qed.

(** On a finite number, rounding and reading the integer is [Math_round]. *)
Lemma integer_part_round (b : Q) : integer_part (round b) = Math_round b.
Proof. apply truncate_integer. Qed.

Lemma integer_part_integer z : integer_part (inject_Z z) = z.
Proof. apply truncate_integer. Qed.

(** How [Math.max(0, Math.min(100, b))] reads each kind of number. *)
Lemma clamp_brightness_finite (q : Q) :
  clamp_brightness q
  = if Qlt_le_dec q 100 then (if Qlt_le_dec 0 q then Num q else Num 0)
    else Num 100.
Proof.
  unfold clamp_brightness, Math_min, Math_max, lt.
  destruct (Qlt_le_dec q 100);
    [destruct (Qlt_le_dec 0 q); reflexivity|].
  destruct (Qlt_le_dec 0 100) as [_ | Hcontra]; [reflexivity|].
  exfalso. revert Hcontra. unfold Qle. simpl. lia.
Qed.

Lemma clamp_brightness_NaN b : clamp_brightness b = NaN <-> b = NaN.
Proof.
  split; [|intros ->; reflexivity].
  destruct b as [|[|]|q]; try reflexivity; try discriminate.
  rewrite clamp_brightness_finite.
  destruct (Qlt_le_dec q 100); [destruct (Qlt_le_dec 0 q)|]; discriminate.
Qed.

(** Every number but [NaN] is clamped to a percentage. *)
Lemma clamp_brightness_range b : b <> NaN -> percentage (clamp_brightness b).
Proof.
  intros Hb. destruct b as [|[|]|q]; [contradiction | | |].
  - simpl. split; unfold Qle; simpl; lia.
  - simpl. split; unfold Qle; simpl; lia.
  - rewrite clamp_brightness_finite.
    destruct (Qlt_le_dec q 100) as [Hlt | Hge].
    + destruct (Qlt_le_dec 0 q) as [Hpos | Hneg]; simpl.
      * split; lra.
      * split; unfold Qle; simpl; lia.
    + simpl. split; unfold Qle; simpl; lia.
Qed.

Lemma clamp_brightness_id (b : Q) :
  (0 < b)%Q -> (b < 100)%Q -> clamp_brightness b = Num b.
Proof.
  intros H0 H100. rewrite clamp_brightness_finite.
  destruct (Qlt_le_dec b 100); [|lra].
  destruct (Qlt_le_dec 0 b); [reflexivity | lra].
Qed.

(** Inside [0,100] clamping keeps the value (at the two ends it returns
    the literal bound). *)
Lemma clamp_brightness_value (b : Q) :
  (0 <= b)%Q -> (b <= 100)%Q ->
  exists c : Q, clamp_brightness b = Num c /\ (c == b)%Q.
Proof.
  intros H0 H100. rewrite clamp_brightness_finite.
  destruct (Qlt_le_dec b 100).
  - destruct (Qlt_le_dec 0 b).
    + exists b. split; reflexivity.
    + exists 0%Q. split; [reflexivity | lra].
  - exists 100%Q. split; [reflexivity | lra].
Qed.

Lemma Math_round_percent b :
  (0 <= b)%Q -> (b <= 100)%Q -> 0 <= Math_round b <= 100.
Proof.
  intros H0 H100. split.
  - change 0 with (Math_round 0). apply Math_round_mono. exact H0.
  - change 100 with (Math_round 100). apply Math_round_mono. exact H100.
Qed.

(** ** The command codec *)

Lemma ESET_BRIGHTNESS_value (b : Q) : ESET_BRIGHTNESS b = Math_round b mod 256.
Proof. unfold ESET_BRIGHTNESS. rewrite integer_part_round. apply bit_and_255. Qed.

Lemma ESET_LEVEL_value (l : Q) : ESET_LEVEL l = Math_round l mod 16.
Proof. unfold ESET_LEVEL. rewrite integer_part_round. apply bit_and_15. Qed.

Lemma ESET_INSTANCE_value (i : Q) :
  ESET_INSTANCE i = Math_round i mod 256 * 256.
Proof.
  unfold ESET_INSTANCE. rewrite integer_part_round, bit_and_255.
  apply shl_byte. apply Z.mod_pos_bound. lia.
Qed.

(** What is not a finite number encodes to 0. *)
Lemma ESET_BRIGHTNESS_not_finite (b : number) :
  (forall q, b <> Num q) -> ESET_BRIGHTNESS b = 0.
Proof.
  intros Hb. destruct b as [| |q]; [reflexivity | reflexivity|].
  exfalso. apply (Hb q). reflexivity.
Qed.

(** C4, as amended: the brightness encoder masks the rounded input to its
    low byte and never clamps, so every input has an encoding in 0..255
    ([NaN] and the infinities encode to 0); on an input that is already a
    percentage in [0,100] the encoding is the rounded percentage itself,
    which is also what encoding the clamped input gives. *)
Theorem ESET_BRIGHTNESS_masks_without_clamping (b : Q) :
  ESET_BRIGHTNESS b = Math_round b mod 256
  /\ 0 <= ESET_BRIGHTNESS b < 256
  /\ ESET_BRIGHTNESS NaN = 0
  /\ (forall negative, ESET_BRIGHTNESS (Infinity negative) = 0)
  /\ ((0 <= b)%Q -> (b <= 100)%Q ->
      ESET_BRIGHTNESS b = Math_round b
      /\ ESET_BRIGHTNESS b = ESET_BRIGHTNESS (clamp_brightness b)).
Proof.
  rewrite ESET_BRIGHTNESS_value. split; [reflexivity|]. split.
  { apply Z.mod_pos_bound. lia. }
  split; [reflexivity|]. split; [reflexivity|].
  intros H0 H100.
  pose proof (Math_round_percent b H0 H100) as Hr.
  split.
  - apply Z.mod_small. lia.
  - destruct (clamp_brightness_value b H0 H100) as (c & -> & Hc).
    rewrite ESET_BRIGHTNESS_value, (Math_round_Qeq _ _ Hc). reflexivity.
Qed.

Lemma ESET_BRIGHTNESS_masks_without_clamping_witness :
  ESET_BRIGHTNESS 75 = Math_round 75
  /\ ESET_BRIGHTNESS 75 = ESET_BRIGHTNESS (clamp_brightness 75).
Proof.
  apply (ESET_BRIGHTNESS_masks_without_clamping 75);
    unfold Qle; simpl; lia.
Defined.

(** C4, as stated, fails: 300 encodes to 44, not to the low byte of the
    clamped and rounded input, which is 100. *)
Lemma ESET_BRIGHTNESS_does_not_clamp :
  ESET_BRIGHTNESS 300 = 44
  /\ clamp_brightness 300 = Num 100
  /\ ESET_BRIGHTNESS (clamp_brightness 300) = 100
  /\ ESET_BRIGHTNESS 300 <> ESET_BRIGHTNESS (clamp_brightness 300).
Proof.
  split; [reflexivity|]. split; [reflexivity|]. split; [reflexivity|].
  discriminate.
Qed.

Lemma fold_bit_or rest : forall acc,
  int32 acc -> fold_left bit_or rest acc = Z.lor acc (lor32 rest).
Proof.
  induction rest as [|c rest IH]; intros acc Hacc; simpl.
  - symmetry. apply Z.lor_0_r.
  - rewrite IH by apply bit_or_int32.
    unfold bit_or at 1. rewrite (ToInt32_small acc Hacc).
    unfold lor32. simpl. symmetry. apply Z.lor_assoc.
Qed.

Lemma reduce_or_lor32 a b rest :
  reduce_or (a :: b :: rest) = Ok (lor32 (a :: b :: rest)).
Proof.
  simpl. f_equal. rewrite fold_bit_or by apply bit_or_int32.
  unfold bit_or, lor32. simpl. symmetry. apply Z.lor_assoc.
Qed.

Lemma lor32_app l1 l2 : lor32 (l1 ++ l2) = Z.lor (lor32 l1) (lor32 l2).
Proof.
  unfold lor32. induction l1 as [|a l1 IH]; simpl.
  - reflexivity.
  - rewrite IH. apply Z.lor_assoc.
Qed.

Lemma lor32_Permutation l1 l2 : Permutation l1 l2 -> lor32 l1 = lor32 l2.
Proof.
  unfold lor32. induction 1; simpl.
  - reflexivity.
  - f_equal. assumption.
  - rewrite !Z.lor_assoc. f_equal. apply Z.lor_comm.
  - congruence.
Qed.

Lemma reduce_or_Permutation l1 l2 :
  Permutation l1 l2 -> reduce_or l1 = reduce_or l2.
Proof.
  intros HP.
  destruct l1 as [|a [|b l1]].
  - apply Permutation_nil in HP. subst. reflexivity.
  - apply Permutation_length_1_inv in HP. subst. reflexivity.
  - destruct l2 as [|a' [|b' l2]].
    + apply Permutation_sym, Permutation_nil in HP. discriminate.
    + apply Permutation_length in HP. discriminate.
    + rewrite !reduce_or_lor32. f_equal. apply lor32_Permutation, HP.
Qed.

Lemma reduce_or_twice a b rest :
  reduce_or ((a :: b :: rest) ++ (a :: b :: rest)) = reduce_or (a :: b :: rest).
Proof.
  change ((a :: b :: rest) ++ a :: b :: rest)
    with (a :: b :: (rest ++ a :: b :: rest)).
  rewrite !reduce_or_lor32. f_equal.
  change (a :: b :: rest ++ a :: b :: rest)
    with ((a :: b :: rest) ++ a :: b :: rest).
  rewrite lor32_app. apply Z.lor_diag.
Qed.

(** C8: the token does not depend on the order of the fields (for two
    fields, and for any reordering of any argument list), OR-ing the same
    fields in again leaves it unchanged, and instance 3 with brightness 200
    packs to 0x03C8. *)
Theorem packEvent_commutative_idempotent :
  (forall a b, packEvent [a; b] = packEvent [b; a])
  /\ (forall args args',
        Permutation args args' -> packEvent args = packEvent args')
  /\ (forall a b, packEvent [a; b; a; b] = packEvent [a; b])
  /\ (forall a b rest,
        packEvent ((a :: b :: rest) ++ (a :: b :: rest))
        = packEvent (a :: b :: rest))
  /\ (forall a, int32 a -> packEvent [a; a] = packEvent [a])
  /\ packEvent [ESET_INSTANCE 3; ESET_BRIGHTNESS 200] = Ok "0x03C8".
Proof.
  repeat split.
  - intros a b. unfold packEvent. simpl. rewrite bit_or_comm. reflexivity.
  - intros args args' HP. unfold packEvent.
    rewrite (reduce_or_Permutation _ _ HP). reflexivity.
  - intros a b. unfold packEvent.
    change [a; b; a; b] with ([a; b] ++ [a; b]).
    rewrite (reduce_or_twice a b []). reflexivity.
  - intros a b rest. unfold packEvent. rewrite reduce_or_twice. reflexivity.
  - intros a Ha. unfold packEvent. simpl. unfold bit_or.
    rewrite (ToInt32_small a Ha), Z.lor_diag. reflexivity.
Qed.

Lemma packEvent_commutative_idempotent_witness :
  packEvent [768; 200; 15] = packEvent [15; 768; 200]
  /\ packEvent [200; 200] = packEvent [200].
Proof.
  destruct packEvent_commutative_idempotent as (_ & Hperm & _ & _ & Hidem & _).
  split.
  - apply Hperm. apply Permutation_sym, (Permutation_cons_append [768; 200] 15).
  - apply Hidem. unfold int32. lia.
Defined.

(** ** The token of a 16-bit value *)

Lemma forallb_upto f n : forall start,
  forallb f (upto n start) = true ->
  forall v, start <= v < start + Z.of_nat n -> f v = true.
Proof.
  induction n as [|n IH]; intros start Hall v Hv.
  - lia.
  - simpl in Hall. apply andb_prop in Hall as [Hhead Htail].
    destruct (Z.eq_dec v start) as [-> | Hne]; [exact Hhead|].
    apply (IH (start + 1) Htail). lia.
Qed.

Lemma all_tokens_ok : forallb token_ok (upto (Z.to_nat 65536) 0) = true.
Proof. vm_compute. reflexivity. Qed.

Lemma packEvent_u16 v :
  0 <= v < 65536 -> packEvent [v] = Ok (token (v / 256) (v mod 256)).
Proof.
  intros Hv.
  assert (Hok : token_ok v = true).
  { apply (forallb_upto token_ok (Z.to_nat 65536) 0 all_tokens_ok).
    rewrite Z2Nat.id; lia. }
  unfold token_ok in Hok.
  destruct (packEvent [v]) as [s|e]; [|discriminate].
  apply String.eqb_eq in Hok. congruence.
Qed.

Lemma lor_bytes hi lo :
  0 <= hi -> 0 <= lo < 256 -> Z.lor (hi * 256) lo = hi * 256 + lo.
Proof.
  intros Hhi Hlo. symmetry. apply Z.add_nocarry_lor.
  change 256 with (2 ^ 8). rewrite <- Z.shiftl_mul_pow2 by lia.
  apply Z.bits_inj'. intros n Hn.
  rewrite Z.land_spec, Z.bits_0.
  destruct (Z.lt_ge_cases n 8) as [Hlt | Hge].
  - rewrite Z.shiftl_spec_low by lia. reflexivity.
  - destruct (Z.eq_dec lo 0) as [-> | Hnz].
    + rewrite Z.bits_0. apply andb_false_r.
    + rewrite (Z.bits_above_log2 lo n); [apply andb_false_r | lia |].
      apply Z.log2_lt_pow2; [lia|].
      apply Z.lt_le_trans with (2 ^ 8); [lia|].
      apply Z.pow_le_mono_r; lia.
Qed.

(** Packing an instance field with a low byte. *)
Lemma packEvent_fields hi lo :
  0 <= hi < 256 -> 0 <= lo < 256 ->
  packEvent [hi * 256; lo] = Ok (token hi lo).
Proof.
  intros Hhi Hlo.
  assert (Hval : bit_or (hi * 256) lo = hi * 256 + lo).
  { unfold bit_or. rewrite !ToInt32_small by (unfold int32; lia).
    apply lor_bytes; lia. }
  pose proof (packEvent_u16 (hi * 256 + lo)) as Hu.
  unfold packEvent in *. simpl in *. rewrite Hval.
  rewrite Hu by lia. f_equal. f_equal.
  - Z.to_euclidean_division_equations. lia.
  - Z.to_euclidean_division_equations. lia.
Qed.

(** ** Manual control *)

Lemma lights_get_assign_eq k b m :
  lights_get k (lights_assign_brightness k b m)
  = set_currentBrightness b <$> lights_get k m.
Proof.
  induction m as [|[k' v] m IH]; simpl; [reflexivity|].
  destruct (k' =? k) eqn:E; simpl; rewrite E; [reflexivity | exact IH].
Qed.

Lemma lights_get_assign_ne k j b m :
  j <> k ->
  lights_get j (lights_assign_brightness k b m) = lights_get j m.
Proof.
  intros Hne. induction m as [|[k' v] m IH]; simpl; [reflexivity|].
  destruct (k' =? k) eqn:E; simpl.
  - apply Z.eqb_eq in E. subst k'.
    destruct (k =? j) eqn:E'; [|reflexivity].
    apply Z.eqb_eq in E'. congruence.
  - rewrite IH. reflexivity.
Qed.

Lemma keys_assign k b m :
  map fst (lights_assign_brightness k b m) = map fst m.
Proof.
  induction m as [|[k' v] m IH]; simpl; [reflexivity|].
  destruct (k' =? k); simpl; congruence.
Qed.

(** The nearest binary64 value depends on the rational denoted only. *)
Lemma nearest_Qeq (q q' : Q) : (q == q')%Q -> nearest q = nearest q'.
Proof.
  intros H. unfold nearest. rewrite (Qred_complete q q' H). reflexivity.
Qed.

Lemma scaled_Qeq (q q' : Q) : (q == q')%Q -> scaled q = scaled q'.
Proof.
  intros H. unfold scaled, div, to_binary64.
  rewrite (nearest_Qeq q q' H). reflexivity.
Qed.

Lemma round_idempotent (x : number) : round (round x) = round x.
Proof.
  destruct x as [| |q]; try reflexivity.
  simpl. rewrite Math_round_integer. reflexivity.
Qed.

Lemma scaled_rounded (c : number) : round (scaled c) = scaled c.
Proof. apply round_idempotent. Qed.

Lemma all_whole_percentages_double :
  forallb scaled_doubles (upto 101 0) = true.
Proof. vm_compute. reflexivity. Qed.

(** The scaling of a whole percentage is exact: twice the percentage. *)
Lemma scaled_whole (q : Q) (p : Z) :
  0 <= p <= 100 -> (q == inject_Z p)%Q -> scaled q = Num (inject_Z (2 * p)).
Proof.
  intros Hp Hq. rewrite (scaled_Qeq q (inject_Z p) Hq).
  assert (Hok : scaled_doubles p = true).
  { apply (forallb_upto scaled_doubles 101 0 all_whole_percentages_double).
    lia. }
  unfold scaled_doubles in Hok.
  destruct (scaled (inject_Z p)) as [| |[n [d|d|]]]; try discriminate Hok.
  apply Z.eqb_eq in Hok. rewrite Hok. reflexivity.
Qed.

Lemma ESET_BRIGHTNESS_any (x : number) :
  ESET_BRIGHTNESS x = integer_part (round x) mod 256.
Proof. apply bit_and_255. Qed.

Lemma on_off_bit (c : number) : on_off c = 0 \/ on_off c = 1.
Proof. unfold on_off. destruct (lt 0 c); auto. Qed.

(** Whatever the brightness handed to it, the [try] block sends the
    command and does not throw. *)
Lemma send_brightness_command_ok light i (c : number) s :
  send_brightness_command light i c s
  = Ok (sendWSData (command_text light i c) s).
Proof.
  unfold send_brightness_command, command_text.
  rewrite ESET_INSTANCE_value, Math_round_integer.
  pose proof (Z.mod_pos_bound i 256 ltac:(lia)) as Hi.
  destruct (l_isDimmer light).
  - rewrite ESET_BRIGHTNESS_any, scaled_rounded.
    pose proof (Z.mod_pos_bound (integer_part (scaled c)) 256 ltac:(lia)).
    rewrite packEvent_fields by lia. reflexivity.
  - rewrite ESET_LEVEL_value, Math_round_integer.
    destruct (on_off_bit c) as [-> | ->].
    + change (0 mod 16) with 0. rewrite packEvent_fields by lia. reflexivity.
    + change (1 mod 16) with 1. rewrite packEvent_fields by lia. reflexivity.
Qed.

Lemma setLightBrightness_found s i (b : number) light :
  lights_get i (lights s) = Some light ->
  setLightBrightness i b s
  = (with_lights
       (lights_assign_brightness i (clamp_brightness b) (lights s))
       (sendWSData (command_text light i (clamp_brightness b)) s), true).
Proof.
  intros Hget. unfold setLightBrightness. rewrite Hget.
  rewrite send_brightness_command_ok. reflexivity.
Qed.

Lemma setLightBrightness_missing s i (b : number) :
  lights_get i (lights s) = None ->
  setLightBrightness i b s
  = (error ("Light " +:+ show_int i +:+ " not found") s, false).
Proof. intros Hget. unfold setLightBrightness. rewrite Hget. reflexivity. Qed.


Lemma sample_ready_lights :
  lights sample_ready = [(1, main_light); (2, porch_light)]
  /\ isInitialized sample_ready = true
  /\ promise sample_discovery = Resolved.
Proof. repeat split; reflexivity. Qed.



(** C10, as amended: for a dimmer the command sent is
    SET_BRIGHTNESS_NONSCALED with the instance byte of the light index in
    the high byte and, in the low byte, [Math.round((c / 100) * 200)] as
    computed in double precision, [c] being the clamped brightness.  For a
    whole percentage this is exactly twice the percentage, on the 0..200
    scale; it is 0 for a brightness of 0 or less and 200 for one of 100 or
    more, and 0 for [NaN]; at 7.25 per cent it is 14, the product coming
    out just under 14.5.  For a switch the command is TURN_ON_OFF with
    level 1 when the clamped brightness is above 0 and level 0 otherwise
    ([NaN] gives 0). *)
Theorem setLightBrightness_wire_scale (s : State) (i : Z) (b : number)
    (light : Light) :
  lights_get i (lights s) = Some light ->
  let c := clamp_brightness b in
  let s' := fst (setLightBrightness i b s) in
  (l_isDimmer light = true ->
     let low := integer_part (scaled c) mod 256 in
     sent s' = sent s ++
       ["HMSEVENT=ENEWMARDIMMERPARSER_SET_BRIGHTNESS_NONSCALED|"
        +:+ token (i mod 256) low]
     /\ packEvent [ESET_INSTANCE (inject_Z i); ESET_BRIGHTNESS (scaled c)]
        = Ok (token (i mod 256) low)
     /\ (forall (q : Q) (p : Z),
           c = Num q -> 0 <= p <= 100 -> (q == inject_Z p)%Q ->
           scaled c = Num (inject_Z (2 * p)) /\ low = 2 * p)
     /\ (forall q : Q, b = Num q -> (q <= 0)%Q -> low = 0)
     /\ (forall q : Q, b = Num q -> (100 <= q)%Q -> low = 200)
     /\ (forall q : Q, b = Num q -> (q == 29 # 4)%Q -> low = 14)
     /\ (b = NaN -> low = 0))
  /\ (l_isDimmer light = false ->
     let level := on_off c in
     sent s' = sent s ++
       ["HMSEVENT=ENEWMARDIMMERPARSER_TURN_ON_OFF|" +:+ token (i mod 256) level]
     /\ packEvent [ESET_INSTANCE (inject_Z i); ESET_LEVEL (inject_Z level)]
        = Ok (token (i mod 256) level)
     /\ (forall q : Q, c = Num q -> (0 < q)%Q -> level = 1)
     /\ (forall q : Q, c = Num q -> (q <= 0)%Q -> level = 0)
     /\ (b = NaN -> level = 0)).
Proof.
  intros Hget c s'. subst s'.
  rewrite (setLightBrightness_found s i b light Hget). simpl. fold c.
  pose proof (Z.mod_pos_bound i 256 ltac:(lia)) as Hi.
  unfold command_text.
  split; intros Hkind; rewrite Hkind; cbv zeta.
  - pose proof (Z.mod_pos_bound (integer_part (scaled c)) 256 ltac:(lia)).
    split; [reflexivity|]. split.
    { rewrite ESET_INSTANCE_value, ESET_BRIGHTNESS_any, scaled_rounded.
      rewrite Math_round_integer. apply packEvent_fields; lia. }
    split; [|split; [|split; [|split]]].
    + intros q p Hc Hp Hq. rewrite Hc, (scaled_whole q p Hp Hq).
      split; [reflexivity|].
      rewrite integer_part_integer. apply Z.mod_small. lia.
    + intros q -> Hq. unfold c. rewrite clamp_brightness_finite.
      destruct (Qlt_le_dec q 100); [|lra].
      destruct (Qlt_le_dec 0 q); [lra | vm_compute; reflexivity].
    + intros q -> Hq. unfold c. rewrite clamp_brightness_finite.
      destruct (Qlt_le_dec q 100); [lra | vm_compute; reflexivity].
    + intros q -> Hq. unfold c.
      rewrite clamp_brightness_id by (rewrite Hq; unfold Qlt; simpl; lia).
      rewrite (scaled_Qeq q (29 # 4) Hq). vm_compute. reflexivity.
    + intros ->. reflexivity.
  - split; [reflexivity|]. split.
    { rewrite ESET_INSTANCE_value, ESET_LEVEL_value, !Math_round_integer.
      destruct (on_off_bit c) as [-> | ->].
      - change (0 mod 16) with 0. apply packEvent_fields; lia.
      - change (1 mod 16) with 1. apply packEvent_fields; lia. }
    split; [|split].
    + intros q -> Hq. unfold on_off, lt.
      destruct (Qlt_le_dec 0 q); [reflexivity | lra].
    + intros q -> Hq. unfold on_off, lt.
      destruct (Qlt_le_dec 0 q); [lra | reflexivity].
    + intros ->. reflexivity.
Qed.

Lemma setLightBrightness_wire_scale_witness :
  sent (fst (setLightBrightness 1 75 sample_ready))
  = sent sample_ready
    ++ ["HMSEVENT=ENEWMARDIMMERPARSER_SET_BRIGHTNESS_NONSCALED|0x0196"]
  /\ sent (fst (setLightBrightness 2 75 sample_ready))
     = sent sample_ready
       ++ ["HMSEVENT=ENEWMARDIMMERPARSER_TURN_ON_OFF|0x0201"]
  /\ sent (fst (setLightBrightness 2 0 sample_ready))
     = sent sample_ready
       ++ ["HMSEVENT=ENEWMARDIMMERPARSER_TURN_ON_OFF|0x0200"].
Proof.
  pose proof (setLightBrightness_wire_scale sample_ready 1 75 main_light
                eq_refl) as Hdimmer.
  pose proof (setLightBrightness_wire_scale sample_ready 2 75 porch_light
                eq_refl) as Hswitch.
  pose proof (setLightBrightness_wire_scale sample_ready 2 0 porch_light
                eq_refl) as Hoff.
  cbv zeta in Hdimmer, Hswitch, Hoff.
  destruct Hdimmer as [Hdimmer _]. destruct (Hdimmer eq_refl) as [H1 _].
  destruct Hswitch as [_ Hswitch]. destruct (Hswitch eq_refl) as [H2 _].
  destruct Hoff as [_ Hoff]. destruct (Hoff eq_refl) as [H3 _].
  split; [rewrite H1; vm_compute; reflexivity|].
  split; [rewrite H2; vm_compute; reflexivity|].
  rewrite H3. vm_compute. reflexivity.
Defined.

(** C10, as stated, fails at 7.25 per cent: in exact arithmetic
    round(7.25 / 100 * 200) is round(14.5) = 15, but the division rounds
    to binary64 first, the product comes out just under 14.5, and the
    byte sent is 14 (0x0E). *)
Lemma scaling_is_not_exact :
  clamp_brightness (29 # 4) = Num (29 # 4)
  /\ Math_round ((29 # 4) / 100 * 200)%Q = 15
  /\ scaled (29 # 4) = Num 14
  /\ sent (fst (setLightBrightness 1 (29 # 4) sample_ready))
     = sent sample_ready
       ++ ["HMSEVENT=ENEWMARDIMMERPARSER_SET_BRIGHTNESS_NONSCALED|0x010E"].
Proof.
  split; [reflexivity|]. split; [reflexivity|].
  split; vm_compute; reflexivity.
Qed.

Example dimmer_75_percent :
  sent (fst (setLightBrightness 1 75 sample_ready))
  = sent sample_ready
    ++ ["HMSEVENT=ENEWMARDIMMERPARSER_SET_BRIGHTNESS_NONSCALED|0x0196"].
Proof. vm_compute. reflexivity. Qed.

Example switch_75_percent :
  sent (fst (setLightBrightness 2 75 sample_ready))
  = sent sample_ready ++ ["HMSEVENT=ENEWMARDIMMERPARSER_TURN_ON_OFF|0x0201"].
Proof. vm_compute. reflexivity. Qed.

(** ** Scenes *)

Lemma static_assign k b m :
  map static_part (lights_assign_brightness k b m) = map static_part m.
Proof.
  induction m as [|[k' v] m IH]; simpl; [reflexivity|].
  destruct (k' =? k); simpl; [reflexivity | congruence].
Qed.

Lemma lights_get_static k m :
  lights_get k (map static_part m)
  = set_currentBrightness 0 <$> lights_get k m.
Proof.
  induction m as [|[k' v] m IH]; simpl; [reflexivity|].
  destruct (k' =? k); [reflexivity | exact IH].
Qed.

(** Lookups in two registries with the same static part agree up to the
    cached brightness. *)
Lemma lights_get_same_static k m m' :
  map static_part m = map static_part m' ->
  set_currentBrightness 0 <$> lights_get k m
  = set_currentBrightness 0 <$> lights_get k m'.
Proof. intros H. rewrite <- !lights_get_static, H. reflexivity. Qed.

Lemma setLightBrightness_static i b s :
  map static_part (lights (fst (setLightBrightness i b s)))
  = map static_part (lights s).
Proof.
  destruct (lights_get i (lights s)) as [light|] eqn:Hget.
  - rewrite (setLightBrightness_found s i b light Hget). simpl.
    apply static_assign.
  - rewrite (setLightBrightness_missing s i b Hget). reflexivity.
Qed.

Lemma setLightBrightness_result i b s :
  snd (setLightBrightness i b s)
  = match lights_get i (lights s) with Some _ => true | None => false end.
Proof.
  destruct (lights_get i (lights s)) as [light|] eqn:Hget.
  - rewrite (setLightBrightness_found s i b light Hget). reflexivity.
  - rewrite (setLightBrightness_missing s i b Hget). reflexivity.
Qed.

Lemma in_registry_static s s' member :
  map static_part (lights s') = map static_part (lights s) ->
  in_registry s' member = in_registry s member.
Proof.
  intros H. unfold in_registry.
  pose proof (lights_get_same_static (ls_index member) _ _ H) as Hk.
  destruct (lights_get (ls_index member) (lights s'));
    destruct (lights_get (ls_index member) (lights s));
    simpl in Hk; congruence.
Qed.

Lemma applicable_static s s' members :
  map static_part (lights s') = map static_part (lights s) ->
  applicable s' members = applicable s members.
Proof.
  intros H. unfold applicable. f_equal.
  induction members as [|m members IH]; simpl; [reflexivity|].
  rewrite (in_registry_static s s' m H), IH. reflexivity.
Qed.

Lemma apply_members_count members : forall s n,
  snd (apply_members members s n) = (n + applicable s members)%nat
  /\ map static_part (lights (fst (apply_members members s n)))
     = map static_part (lights s).
Proof.
  induction members as [|m members IH]; intros s n; simpl.
  - unfold applicable. simpl. split; [lia | reflexivity].
  - pose proof (setLightBrightness_result (ls_index m) (ls_brightness m) s)
      as Hres.
    pose proof (setLightBrightness_static (ls_index m) (ls_brightness m) s)
      as Hstatic.
    destruct (setLightBrightness (ls_index m) (ls_brightness m) s)
      as [s1 ok] eqn:Hcall.
    simpl in Hres, Hstatic.
    destruct (IH s1 (if ok then S n else n)) as [Hcount Hkeep].
    split; [|congruence].
    rewrite Hcount, (applicable_static s s1 members Hstatic).
    unfold applicable. simpl. unfold in_registry at 2.
    rewrite Hres. destruct (lights_get (ls_index m) (lights s)); simpl; lia.
Qed.

Lemma applicable_le s members : (applicable s members <= length members)%nat.
Proof. apply List.filter_length_le. Qed.

Lemma applicable_missing s members member :
  In member members -> in_registry s member = false ->
  (applicable s members < length members)%nat.
Proof.
  intros Hin Hmiss. unfold applicable.
  induction members as [|m members IH]; [destruct Hin|].
  simpl. destruct Hin as [-> | Hin].
  - rewrite Hmiss. pose proof (List.filter_length_le (in_registry s) members).
    lia.
  - specialize (IH Hin). destruct (in_registry s m); simpl; lia.
Qed.

(** C2, as amended: [loadScene] returns a boolean, true exactly when at
    least one member was applied; the number of members applied is the
    number of members whose device is in the registry, it is only counted
    inside the call, members whose device is missing are skipped without an
    exception, and that number is strictly below the number of members as
    soon as one member's device is missing. *)
Theorem loadScene_success_flag (s : State) (sceneName : string)
    (scene : Scene) :
  scenes s !! sceneName = Some scene ->
  let members := sc_lights scene in
  let successCount := snd (apply_members members s 0) in
  successCount = applicable s members
  /\ (successCount <= length members)%nat
  /\ (forall member, In member members ->
        lights_get (ls_index member) (lights s) = None ->
        (successCount < length members)%nat)
  /\ snd (loadScene sceneName s) = (0 <? successCount)%nat
  /\ (snd (loadScene sceneName s) = true <-> (1 <= successCount)%nat)
  /\ map static_part (lights (fst (loadScene sceneName s)))
     = map static_part (lights s).
Proof.
  intros Hscene members successCount. subst successCount.
  destruct (apply_members_count members s 0) as [Hcount Hkeep].
  simpl in Hcount.
  split; [exact Hcount|]. rewrite Hcount.
  split; [apply applicable_le|].
  split.
  { intros member Hin Hget. apply (applicable_missing s members member Hin).
    unfold in_registry. rewrite Hget. reflexivity. }
  unfold loadScene. rewrite Hscene. fold members.
  destruct (apply_members members s 0) as [s1 n] eqn:Hloop.
  simpl in Hcount, Hkeep. subst n. simpl.
  split; [reflexivity|]. split; [|exact Hkeep].
  rewrite Nat.ltb_lt. lia.
Qed.

Lemma loadScene_success_flag_witness :
  snd (apply_members (sc_lights (mkScene "Stale" "2024-05-22T20:00:00Z" None
         [mkLightState 1 "Main Light" 50 0; mkLightState 9 "Awning" 100 5]))
         sample_with_scenes 0)
  = applicable sample_with_scenes
      [mkLightState 1 "Main Light" 50 0; mkLightState 9 "Awning" 100 5].
Proof.
  apply (loadScene_success_flag sample_with_scenes "Stale"). reflexivity.
Defined.

(** C2, as stated, fails: the value returned is not the applied count.  A
    scene applied in full (2 of 2) and one applied in part (1 of 2, device 9
    being absent) both return [true]. *)
Lemma loadScene_result_hides_partial_application :
  snd (loadScene "Evening" sample_with_scenes) = true
  /\ snd (loadScene "Stale" sample_with_scenes) = true
  /\ snd (apply_members [mkLightState 1 "Main Light" 50 0;
                         mkLightState 2 "Porch" 100 5] sample_with_scenes 0)
     = 2%nat
  /\ snd (apply_members [mkLightState 1 "Main Light" 50 0;
                         mkLightState 9 "Awning" 100 5] sample_with_scenes 0)
     = 1%nat
  /\ ~ (forall sceneName scene n,
          scenes sample_with_scenes !! sceneName = Some scene ->
          snd (apply_members (sc_lights scene) sample_with_scenes 0) = n ->
          snd (loadScene sceneName sample_with_scenes) = true ->
          n = length (sc_lights scene)).
Proof.
  split; [reflexivity|]. split; [reflexivity|].
  split; [reflexivity|]. split; [reflexivity|].
  intros H.
  specialize (H "Stale"%string _ 1%nat eq_refl eq_refl eq_refl).
  discriminate H.
Qed.

Lemma passes_filter_static f light :
  passes_filter f (set_currentBrightness 0 light) = passes_filter f light.
Proof. destruct f; reflexivity. Qed.

Lemma getCurrentBrightness_static i reply s :
  map static_part (lights (getCurrentBrightness i reply s))
  = map static_part (lights s).
Proof.
  unfold getCurrentBrightness, brightness_response.
  destruct reply; simpl; [apply static_assign | reflexivity].
Qed.

Lemma getCurrentBrightness_keeps i reply s :
  scenes (getCurrentBrightness i reply s) = scenes s
  /\ isInitialized (getCurrentBrightness i reply s) = isInitialized s
  /\ errors (getCurrentBrightness i reply s) = errors s.
Proof.
  unfold getCurrentBrightness, brightness_response.
  destruct reply; repeat split; reflexivity.
Qed.

(** The loop of [saveScene] appends one member per visited light that
    passes the filter, and changes cached brightness only. *)
Lemma collect_states_spec f replies keys : forall s acc,
  map static_part (lights (fst (collect_states keys f replies s acc)))
  = map static_part (lights s)
  /\ scenes (fst (collect_states keys f replies s acc)) = scenes s
  /\ map member_static (snd (collect_states keys f replies s acc))
     = map member_static acc
       ++ map light_static
            (List.filter (passes_filter f)
               (values_at (map static_part (lights s)) keys)).
Proof.
  induction keys as [|k keys IH]; intros s acc; simpl.
  - rewrite app_nil_r. repeat split; reflexivity.
  - rewrite lights_get_static.
    destruct (lights_get k (lights s)) as [light|] eqn:Hget; simpl.
    + rewrite passes_filter_static.
      destruct (passes_filter f light) eqn:Hpass.
      * pose proof (getCurrentBrightness_static (l_index light)
                      (replies (l_index light)) s) as Hs.
        pose proof (getCurrentBrightness_keeps (l_index light)
                      (replies (l_index light)) s) as (Hsc & _ & _).
        match goal with
        | |- context [collect_states keys f replies ?s1 ?acc1] =>
            destruct (IH s1 acc1) as (IH1 & IH2 & IH3)
        end.
        rewrite IH1, IH2, IH3, Hs, Hsc.
        split; [reflexivity|]. split; [reflexivity|].
        rewrite map_app, <- app_assoc. reflexivity.
      * apply IH.
    + apply IH.
Qed.

Lemma values_at_fresh_key k v m keys :
  ~ In k keys -> values_at ((k, v) :: m) keys = values_at m keys.
Proof.
  intros Hfresh. unfold values_at.
  induction keys as [|k' keys IH]; simpl; [reflexivity|].
  destruct (k =? k') eqn:E.
  - apply Z.eqb_eq in E. subst k'. exfalso. apply Hfresh. left. reflexivity.
  - f_equal. apply IH. intros Hin. apply Hfresh. right. exact Hin.
Qed.

(** A [Map] has one entry per key: visiting its keys visits its values. *)
Lemma values_at_all m :
  List.NoDup (map fst m) -> values_at m (map fst m) = map snd m.
Proof.
  induction m as [|[k v] m IH]; intros Hnd; [reflexivity|].
  inversion Hnd as [|? ? Hfresh Hnd']; subst.
  change (values_at ((k, v) :: m) (map fst ((k, v) :: m)))
    with ((match lights_get k ((k, v) :: m) with
           | Some light => [light]
           | None => []
           end) ++ values_at ((k, v) :: m) (map fst m)).
  simpl. rewrite Z.eqb_refl. simpl.
  rewrite values_at_fresh_key by exact Hfresh.
  rewrite IH by exact Hnd'. reflexivity.
Qed.

Lemma static_filter_lights f (ls : list Light) :
  map light_static
    (List.filter (passes_filter f) (map (set_currentBrightness 0) ls))
  = map light_static (List.filter (passes_filter f) ls).
Proof.
  induction ls as [|l ls IH]; simpl; [reflexivity|].
  rewrite passes_filter_static.
  destruct (passes_filter f l); simpl; rewrite IH; reflexivity.
Qed.

Lemma lights_set_keys k v m :
  List.NoDup (map fst m) -> List.NoDup (map fst (lights_set k v m)).
Proof.
  assert (Hin : forall j m, In j (map fst (lights_set k v m)) ->
                            j = k \/ In j (map fst m)).
  { intros j m0. induction m0 as [|[k' v'] m0 IH0]; simpl.
    - intros [<- | []]. left. reflexivity.
    - destruct (k' =? k) eqn:E; simpl.
      + apply Z.eqb_eq in E. subst k'. tauto.
      + intros [<- | H]; [tauto|]. destruct (IH0 H); tauto. }
  induction m as [|[k' v'] m IH]; simpl; intros Hnd.
  - constructor; [intros [] | constructor].
  - inversion Hnd as [|? ? Hfresh Hnd']; subst.
    destruct (k' =? k) eqn:E; simpl.
    + apply Z.eqb_eq in E. subst k'. constructor; assumption.
    + apply Z.eqb_neq in E. constructor; [|apply IH; exact Hnd'].
      intros H. destruct (Hin _ _ H); congruence.
Qed.

(** C5, as amended: after a successful [saveScene] the stored scene has
    exactly one member per registry light that passes the room filter, in
    registry order, with that light's index, name and room; its member list
    is therefore empty exactly when no registry light passes the filter,
    and such a scene is stored and reported as a success all the same. *)
Theorem saveScene_members (s : State) (sceneName : string)
    (roomFilter : option Z) (replies : Z -> option string) (now : string) :
  List.NoDup (map fst (lights s)) ->
  snd (saveScene sceneName roomFilter replies now s) = true ->
  exists scene,
    scenes (fst (saveScene sceneName roomFilter replies now s)) !! sceneName
    = Some scene
    /\ sc_name scene = sceneName
    /\ sc_room scene = roomFilter
    /\ map member_static (sc_lights scene)
       = map light_static (filtered_lights roomFilter s)
    /\ length (sc_lights scene) = length (filtered_lights roomFilter s)
    /\ (sc_lights scene = [] <-> filtered_lights roomFilter s = []).
Proof.
  intros Hnd Hok. unfold saveScene in *.
  destruct (negb (isInitialized s)); [discriminate Hok|].
  destruct (String.eqb sceneName EmptyString); [discriminate Hok|].
  destruct (collect_states_spec roomFilter replies (map fst (lights s)) s [])
    as (_ & _ & Hmembers).
  destruct (collect_states (map fst (lights s)) roomFilter replies s [])
    as [s' lightStates]. simpl in *.
  assert (Hkeys : map fst (map static_part (lights s)) = map fst (lights s)).
  { rewrite map_map. reflexivity. }
  rewrite <- Hkeys in Hmembers.
  rewrite values_at_all in Hmembers by (rewrite Hkeys; exact Hnd).
  assert (Hvals : map snd (map static_part (lights s))
                  = map (set_currentBrightness 0) (map snd (lights s))).
  { rewrite !map_map. reflexivity. }
  rewrite Hvals, static_filter_lights in Hmembers.
  fold (filtered_lights roomFilter s) in Hmembers.
  eexists. split; [apply lookup_insert_eq|]. simpl.
  split; [reflexivity|]. split; [reflexivity|].
  split; [exact Hmembers|].
  assert (Hlen : length lightStates = length (filtered_lights roomFilter s)).
  { rewrite <- (length_map member_static), Hmembers, length_map.
    reflexivity. }
  split; [exact Hlen|].
  split; intros H; rewrite H in Hlen; simpl in Hlen.
  - destruct (filtered_lights roomFilter s); [reflexivity | discriminate].
  - destruct lightStates; [reflexivity | discriminate].
Qed.

Lemma saveScene_members_witness :
  exists scene,
    scenes (fst (saveScene "Porch only" (Some 5) (fun _ => Some "40%"%string)
                   "2024-05-22T20:00:00Z" sample_ready)) !! "Porch only"
    = Some scene
    /\ sc_name scene = "Porch only"
    /\ sc_room scene = Some 5
    /\ map member_static (sc_lights scene)
       = map light_static (filtered_lights (Some 5) sample_ready)
    /\ length (sc_lights scene) = length (filtered_lights (Some 5) sample_ready)
    /\ (sc_lights scene = [] <-> filtered_lights (Some 5) sample_ready = []).
Proof.
  apply (saveScene_members sample_ready "Porch only" (Some 5)
           (fun _ => Some "40%"%string) "2024-05-22T20:00:00Z").
  - repeat constructor; simpl; intuition discriminate.
  - reflexivity.
Defined.

(** C5, as stated, fails: saving with a room filter that matches no light
    succeeds and stores a scene with no member. *)
Lemma saveScene_stores_empty_scene :
  snd (saveScene "Bedroom" (Some 2) (fun _ => None) "2024-05-22T20:00:00Z"
         sample_ready) = true
  /\ scenes (fst (saveScene "Bedroom" (Some 2) (fun _ => None)
                    "2024-05-22T20:00:00Z" sample_ready)) !! "Bedroom"
     = Some (mkScene "Bedroom" "2024-05-22T20:00:00Z" (Some 2) []).
Proof. split; reflexivity. Qed.

(** ** Schedules: the evaluator tick *)

Lemma fold_due now (events : list Event) : forall s,
  fold_left (fun acc event => if due now event then dispatch event acc else acc)
    events s
  = fold_left (fun acc event => dispatch event acc)
      (List.filter (due now) events) s.
Proof.
  induction events as [|e events IH]; intros s; simpl; [reflexivity|].
  destruct (due now e); simpl; apply IH.
Qed.

Lemma includes_spec days d :
  includes days d = true <-> exists tag, d = Some tag /\ In tag days.
Proof.
  unfold includes. destruct d as [tag|].
  - rewrite existsb_exists. split.
    + intros (x & Hin & Heq). apply String.eqb_eq in Heq. subst x. eauto.
    + intros (x & Heq & Hin). injection Heq as <-.
      exists tag. split; [exact Hin | apply String.eqb_refl].
  - split; [discriminate | intros (x & Heq & _); discriminate].
Qed.

Lemma due_spec now event :
  due now event = true
  <-> ev_time event = currentTime now
      /\ exists tag, currentDay now = Some tag /\ In tag (ev_days event).
Proof.
  unfold due. rewrite andb_true_iff, String.eqb_eq, includes_spec.
  reflexivity.
Qed.

(** C7: on a tick at clock reading [now], an event is due exactly when its
    time is the text HH:MM of the reading (hours and minutes, each padded
    to two digits) and its days contain the tag of the reading's weekday,
    counted from Sunday as [sun], [mon], ... [sat].  A tick of an enabled
    schedule runs, one after the other and in list order, the actions of
    exactly the due events; an event that is not due contributes nothing,
    so a tick at which no event is due leaves the controller and the wire
    untouched, and so does any tick of a disabled (or unknown) schedule.
    The action run for a due event is [loadScene] of its scene,
    [allLightsOff] or [allLightsOn]. *)
Theorem checkScheduleEvents_dispatches_due (s : State) (scheduleName : string)
    (now : Clock) :
  let hhmm :=
    padStart2 (toString10 (hours now)) +:+ ":"
    +:+ padStart2 (toString10 (minutes now)) in
  let today :=
    nth_error ["sun"; "mon"; "tue"; "wed"; "thu"; "fri"; "sat"]%string
      (day now) in
  let matches := fun event : Event =>
    ev_time event = hhmm
    /\ exists tag, today = Some tag /\ In tag (ev_days event) in
  (forall event, due now event = true <-> matches event)
  /\ (forall schedule,
        schedules s !! scheduleName = Some schedule ->
        sd_enabled schedule = true ->
        checkScheduleEvents scheduleName now s
        = fold_left (fun acc event => dispatch event acc)
            (List.filter (due now) (sd_events schedule)) s
        /\ forall event,
             In event (List.filter (due now) (sd_events schedule))
             <-> In event (sd_events schedule) /\ matches event)
  /\ (forall schedule,
        schedules s !! scheduleName = Some schedule ->
        (forall event, In event (sd_events schedule) -> ~ matches event) ->
        checkScheduleEvents scheduleName now s = s)
  /\ (forall schedule,
        schedules s !! scheduleName = Some schedule ->
        sd_enabled schedule = false ->
        checkScheduleEvents scheduleName now s = s)
  /\ (schedules s !! scheduleName = None ->
      checkScheduleEvents scheduleName now s = s)
  /\ (forall event st,
        (ev_action event = "lights_off"%string ->
         dispatch event st = allLightsOff st)
        /\ (ev_action event = "lights_on"%string ->
            dispatch event st = allLightsOn st)
        /\ (forall c scene,
              ev_action event = "load_scene"%string ->
              ev_scene event = Some (String c scene) ->
              dispatch event st = fst (loadScene (String c scene) st))).
Proof.
  intros hhmm today matches.
  assert (Hdue : forall event, due now event = true <-> matches event)
    by (intros event; apply due_spec).
  split; [exact Hdue|].
  split; [|split; [|split; [|split]]].
  - intros schedule Hget Hon. split.
    + unfold checkScheduleEvents. rewrite Hget, Hon. apply fold_due.
    + intros event. rewrite List.filter_In, Hdue. reflexivity.
  - intros schedule Hget Hnone. unfold checkScheduleEvents. rewrite Hget.
    destruct (sd_enabled schedule); [|reflexivity].
    rewrite fold_due.
    replace (List.filter (due now) (sd_events schedule)) with (@nil Event);
      [reflexivity|].
    symmetry. induction (sd_events schedule) as [|e events IH];
      [reflexivity|].
    simpl. destruct (due now e) eqn:He.
    + exfalso. apply (Hnone e); [left; reflexivity | apply Hdue, He].
    + apply IH. intros e' Hin. apply Hnone. right. exact Hin.
  - intros schedule Hget Hoff. unfold checkScheduleEvents.
    rewrite Hget, Hoff. reflexivity.
  - intros Hget. unfold checkScheduleEvents. rewrite Hget. reflexivity.
  - intros event st. unfold dispatch. repeat split.
    + intros ->. reflexivity.
    + intros ->. reflexivity.
    + intros c scene -> ->. reflexivity.
Qed.

Lemma sample_scheduled_lookup :
  schedules sample_scheduled !! "Morning" = Some monday_off.
Proof. reflexivity. Qed.

(** The schedule of the specification's example, ticked on Monday at
    07:00, turns every light off, once; ticked at 07:01 or on Tuesday it
    does nothing. *)
Lemma checkScheduleEvents_dispatches_due_witness :
  checkScheduleEvents "Morning" (mkClock 7 0 1) sample_scheduled
  = allLightsOff sample_scheduled
  /\ sent (checkScheduleEvents "Morning" (mkClock 7 0 1) sample_scheduled)
     = sent sample_scheduled
       ++ ["HMSEVENT=ENEWMARDIMMERPARSER_SET_BRIGHTNESS_NONSCALED|0x0100";
           "HMSEVENT=ENEWMARDIMMERPARSER_TURN_ON_OFF|0x0200"]
  /\ checkScheduleEvents "Morning" (mkClock 7 1 1) sample_scheduled
     = sample_scheduled
  /\ checkScheduleEvents "Morning" (mkClock 7 0 2) sample_scheduled
     = sample_scheduled.
Proof.
  destruct (checkScheduleEvents_dispatches_due sample_scheduled "Morning"
              (mkClock 7 0 1)) as (_ & Hrun & _).
  destruct (Hrun monday_off) as [Htick _]; [reflexivity | reflexivity |].
  assert (Hoff : checkScheduleEvents "Morning" (mkClock 7 0 1) sample_scheduled
                 = allLightsOff sample_scheduled)
    by (rewrite Htick; reflexivity).
  split; [exact Hoff|].
  split; [rewrite Hoff; vm_compute; reflexivity|].
  split.
  - destruct (checkScheduleEvents_dispatches_due sample_scheduled "Morning"
                (mkClock 7 1 1)) as (_ & _ & Hnone & _).
    apply (Hnone monday_off); [reflexivity|].
    intros event [<- | []] [Htime _]. discriminate Htime.
  - destruct (checkScheduleEvents_dispatches_due sample_scheduled "Morning"
                (mkClock 7 0 2)) as (_ & _ & Hnone & _).
    apply (Hnone monday_off); [reflexivity|].
    intros event [<- | []] (_ & tag & Htag & Hin).
    injection Htag as <-. destruct Hin as [Hin | []]. discriminate Hin.
Defined.

(** The schedule of the specification's example: Monday 07:00 turns every
    light off, once; 07:01 and Tuesday 07:00 do nothing. *)
Example monday_0700_all_off :
  checkScheduleEvents "Morning" (mkClock 7 0 1) sample_scheduled
  = allLightsOff sample_scheduled
  /\ sent (checkScheduleEvents "Morning" (mkClock 7 0 1) sample_scheduled)
     = sent sample_scheduled
       ++ ["HMSEVENT=ENEWMARDIMMERPARSER_SET_BRIGHTNESS_NONSCALED|0x0100";
           "HMSEVENT=ENEWMARDIMMERPARSER_TURN_ON_OFF|0x0200"].
Proof. split; vm_compute; reflexivity. Qed.

Example monday_0701_nothing :
  checkScheduleEvents "Morning" (mkClock 7 1 1) sample_scheduled
  = sample_scheduled.
Proof. reflexivity. Qed.

Example tuesday_0700_nothing :
  checkScheduleEvents "Morning" (mkClock 7 0 2) sample_scheduled
  = sample_scheduled.
Proof. reflexivity. Qed.

(** ** Schedules: activation *)

Lemma idle_tables_agree s : idle s -> tables_agree s.
Proof.
  intros (Hactive & _ & Htimers & Hnext). unfold tables_agree.
  rewrite Hactive, Htimers. split; [exact Hnext|]. split.
  - intros name Hin. apply not_elem_of_empty in Hin. destruct Hin.
  - intros intervalId name Hget. rewrite lookup_empty in Hget. discriminate.
Qed.

Lemma createSchedule_tables_agree name events now s :
  tables_agree s -> tables_agree (fst (createSchedule name events now s)).
Proof.
  intros (Hnext & Hactive & Hlive). unfold createSchedule, tables_agree.
  destruct (String.eqb name EmptyString); simpl.
  - split; [exact Hnext|]. split; assumption.
  - split; [exact Hnext|]. split; [|exact Hlive].
    intros name' Hin. destruct (Hactive name' Hin) as [Hstored Hid].
    split; [|exact Hid].
    destruct (decide (name = name')) as [-> | Hne].
    + rewrite lookup_insert_eq. eauto.
    + rewrite lookup_insert_ne by exact Hne. exact Hstored.
Qed.

Lemma activateSchedule_tables_agree name s :
  tables_agree s -> tables_agree (fst (activateSchedule name s)).
Proof.
  intros (Hnext & Hactive & Hlive). unfold activateSchedule, tables_agree.
  destruct (schedules s !! name) as [schedule|] eqn:Hstored; simpl.
  2: { split; [exact Hnext|]. split; assumption. }
  destruct (decide (name ∈ activeSchedules s)) as [Hin | Hout]; simpl.
  { split; [exact Hnext|]. split; assumption. }
  split; [lia|]. split.
  - intros name' Hin'.
    destruct (decide (name' = name)) as [-> | Hne].
    + split; [eauto|]. exists (nextTimerId s).
      rewrite !lookup_insert_eq. split; reflexivity.
    + assert (Hold : name' ∈ activeSchedules s).
      { apply elem_of_union in Hin' as [Hs | Hs]; [|exact Hs].
        apply elem_of_singleton in Hs. contradiction. }
      destruct (Hactive name' Hold) as (Hst & id & Hid & Htimer).
      split; [exact Hst|]. exists id.
      rewrite lookup_insert_ne by congruence. split; [exact Hid|].
      destruct (Hlive id name' Htimer) as (_ & _ & Hrange).
      rewrite lookup_insert_ne by lia. exact Htimer.
  - intros id name' Htimer.
    destruct (decide (nextTimerId s = id)) as [<- | Hne].
    + rewrite lookup_insert_eq in Htimer. injection Htimer as <-.
      rewrite lookup_insert_eq.
      split; [apply elem_of_union_l, elem_of_singleton; reflexivity|].
      split; [reflexivity|lia].
    + rewrite lookup_insert_ne in Htimer by exact Hne.
      destruct (Hlive id name' Htimer) as (Hin' & Hid & Hrange).
      split; [apply elem_of_union_r; exact Hin'|]. split; [|lia].
      rewrite lookup_insert_ne; [exact Hid|].
      intros ->. contradiction.
Qed.

Lemma deactivateSchedule_tables_agree name s :
  tables_agree s -> tables_agree (fst (deactivateSchedule name s)).
Proof.
  intros (Hnext & Hactive & Hlive). unfold deactivateSchedule, tables_agree.
  destruct (decide (name ∈ activeSchedules s)) as [Hin | Hout]; simpl.
  2: { split; [exact Hnext|]. split; assumption. }
  destruct (Hactive name Hin) as (_ & id & Hid & Htimer).
  destruct (Hlive id name Htimer) as (_ & _ & Hrange).
  rewrite Hid. destruct id as [|id]; [lia|]. simpl.
  split; [exact Hnext|]. split.
  - intros name' Hin'.
    apply elem_of_difference in Hin' as [Hold Hne].
    rewrite elem_of_singleton in Hne.
    destruct (Hactive name' Hold) as (Hst & id' & Hid' & Htimer').
    split; [exact Hst|]. exists id'.
    rewrite lookup_delete_ne by congruence. split; [exact Hid'|].
    rewrite lookup_delete_ne; [exact Htimer'|].
    intros <-. congruence.
  - intros id' name' Htimer'.
    destruct (decide (S id = id')) as [<- | Hne].
    + rewrite lookup_delete_eq in Htimer'. discriminate.
    + rewrite lookup_delete_ne in Htimer' by exact Hne.
      destruct (Hlive id' name' Htimer') as (Hin' & Hid' & Hrange').
      assert (Hname : name' <> name) by congruence.
      split; [|split; [|exact Hrange']].
      * apply elem_of_difference. split; [exact Hin'|].
        rewrite elem_of_singleton. exact Hname.
      * rewrite lookup_delete_ne by congruence. exact Hid'.
Qed.

Lemma perform_tables_agree call s :
  tables_agree s -> tables_agree (perform s call).
Proof.
  destruct call; simpl.
  - apply createSchedule_tables_agree.
  - apply activateSchedule_tables_agree.
  - apply deactivateSchedule_tables_agree.
Qed.

Lemma perform_all_tables_agree calls : forall s,
  tables_agree s -> tables_agree (perform_all calls s).
Proof.
  unfold perform_all. induction calls as [|call calls IH]; intros s Hs; simpl.
  - exact Hs.
  - apply IH, perform_tables_agree, Hs.
Qed.

Lemma tables_agree_evaluators s name :
  tables_agree s ->
  (name ∈ activeSchedules s <-> one_evaluator s name)
  /\ (name ∉ activeSchedules s <-> no_evaluator s name).
Proof.
  intros (_ & Hactive & Hlive). split; split.
  - intros Hin. destruct (Hactive name Hin) as (_ & id & Hid & Htimer).
    exists id. split; [exact Htimer|].
    intros other Hother. destruct (Hlive other name Hother) as (_ & Hid' & _).
    congruence.
  - intros (id & Htimer & _). apply (Hlive id name Htimer).
  - intros Hout id Htimer. apply Hout, (Hlive id name Htimer).
  - intros Hnone Hin. destruct (Hactive name Hin) as (_ & id & _ & Htimer).
    exact (Hnone id Htimer).
Qed.

(** C9: in every state reached from a controller with no active schedule
    by any sequence of [createSchedule], [activateSchedule] and
    [deactivateSchedule] calls, a name is in the active set exactly when
    exactly one live interval timer checks it, a name outside the active
    set has no timer at all, and [activateSchedule] on an active name
    returns true and changes nothing, so it creates no second timer. *)
Theorem one_evaluator_per_active_schedule (s0 : State) (calls : list Call) :
  idle s0 ->
  let s := perform_all calls s0 in
  forall scheduleName,
    (scheduleName ∈ activeSchedules s <-> one_evaluator s scheduleName)
    /\ (scheduleName ∉ activeSchedules s <-> no_evaluator s scheduleName)
    /\ (scheduleName ∈ activeSchedules s ->
        activateSchedule scheduleName s = (s, true))
    /\ (scheduleName ∈ activeSchedules s ->
        no_evaluator (fst (deactivateSchedule scheduleName s)) scheduleName
        /\ scheduleName ∉ activeSchedules
                            (fst (deactivateSchedule scheduleName s))).
Proof.
  intros Hidle s name.
  assert (Hagree : tables_agree s).
  { apply perform_all_tables_agree, idle_tables_agree, Hidle. }
  destruct (tables_agree_evaluators s name Hagree) as [Hone Hnone].
  split; [exact Hone|]. split; [exact Hnone|]. split.
  - intros Hin. destruct Hagree as (_ & Hactive & _).
    destruct (Hactive name Hin) as ([schedule Hstored] & _).
    unfold activateSchedule. rewrite Hstored.
    destruct (decide (name ∈ activeSchedules s)); [reflexivity|contradiction].
  - intros Hin.
    pose proof (deactivateSchedule_tables_agree name s Hagree) as Hafter.
    assert (Hout : name ∉ activeSchedules (fst (deactivateSchedule name s))).
    { unfold deactivateSchedule.
      destruct (decide (name ∈ activeSchedules s)); [|contradiction].
      destruct (scheduleIntervals s !! name) as [[|id]|]; simpl;
        rewrite elem_of_difference, elem_of_singleton; tauto. }
    split; [|exact Hout].
    apply (tables_agree_evaluators _ name Hafter). exact Hout.
Qed.

Lemma one_evaluator_per_active_schedule_witness :
  "Morning"%string ∈ activeSchedules
    (perform_all [Create "Morning" [] "2024-05-22T20:00:00Z";
                  Activate "Morning"; Activate "Morning";
                  Deactivate "Morning"; Activate "Morning"] (fresh ∅ ∅))
  <-> one_evaluator
        (perform_all [Create "Morning" [] "2024-05-22T20:00:00Z";
                      Activate "Morning"; Activate "Morning";
                      Deactivate "Morning"; Activate "Morning"] (fresh ∅ ∅))
        "Morning".
Proof.
  apply (one_evaluator_per_active_schedule (fresh ∅ ∅)
           [Create "Morning" [] "2024-05-22T20:00:00Z";
            Activate "Morning"; Activate "Morning";
            Deactivate "Morning"; Activate "Morning"]).
  unfold idle. simpl. repeat split; lia.
Defined.

Example reactivation_keeps_one_timer :
  timers (perform_all [Create "Morning" [] "2024-05-22T20:00:00Z";
                       Activate "Morning"; Activate "Morning";
                       Deactivate "Morning"; Activate "Morning"] (fresh ∅ ∅))
  = {[ 2%nat := "Morning"%string ]}.
Proof. vm_compute. reflexivity. Qed.

(** A timer that was cleared, or was never set, checks nothing. *)
Lemma cleared_timer_is_silent (s : State) (scheduleName : string)
    (intervalId : nat) (now : Clock) :
  scheduleIntervals s !! scheduleName = Some (S intervalId) ->
  scheduleName ∈ activeSchedules s ->
  let s' := fst (deactivateSchedule scheduleName s) in
  interval_fires (S intervalId) now s' = s'.
Proof.
  intros Hid Hin s'. subst s'. unfold deactivateSchedule.
  destruct (decide (scheduleName ∈ activeSchedules s)); [|contradiction].
  rewrite Hid. unfold interval_fires. simpl.
  rewrite lookup_delete_eq. reflexivity.
Qed.

(** ** Discovery *)

Section DiscoveryProperties.

Variable decode : string -> option LightObject.

Lemma filter_none {A} (f : A -> bool) (l : list A) :
  (forall x, In x l -> f x = false) -> List.filter f l = [].
Proof.
  induction l as [|x l IH]; intros H; simpl; [reflexivity|].
  rewrite (H x) by (left; reflexivity).
  apply IH. intros y Hy. apply H. right. exact Hy.
Qed.

Lemma filter_all {A} (f : A -> bool) (l : list A) :
  (forall x, In x l -> f x = true) -> List.filter f l = l.
Proof.
  induction l as [|x l IH]; intros H; simpl; [reflexivity|].
  rewrite (H x) by (left; reflexivity). f_equal.
  apply IH. intros y Hy. apply H. right. exact Hy.
Qed.

(** A message nobody waits for is dropped. *)
Lemma trigger_unheard tag data d :
  (forall entry, In entry (listeners d) -> fst entry <> tag) ->
  trigger decode tag data d = d.
Proof.
  intros Hnone. unfold trigger.
  assert (Hb : forall e, In e (listeners d) -> bound_to tag e = false).
  { intros e He. unfold bound_to. apply String.eqb_neq. apply Hnone, He. }
  rewrite (filter_none _ _ Hb).
  rewrite filter_all by (intros e He; rewrite (Hb e He); reflexivity).
  destruct d. reflexivity.
Qed.

Lemma run_app inputs1 inputs2 d :
  run decode (inputs1 ++ inputs2) d
  = run decode inputs2 (run decode inputs1 d).
Proof. unfold run. apply fold_left_app. Qed.

Lemma run_cons input inputs d :
  run decode (input :: inputs) d = run decode inputs (step decode d input).
Proof. reflexivity. Qed.


Lemma settled_step d input : settled d -> settled (step decode d input).
Proof.
  intros (Hp & Hl & Hi). destruct input as [tag value|].
  - change (step decode d (Message tag value))
      with (trigger decode tag value d).
    rewrite trigger_unheard; [repeat split; assumption|].
    rewrite Hl. intros entry [].
  - change (step decode d TimeoutElapsed) with (timeout_fires d).
    unfold timeout_fires. destruct (timeoutArmed d); simpl;
      [rewrite Hi|]; repeat split; assumption.
Qed.

Lemma settled_step_controller d input :
  settled d -> controller (step decode d input) = controller d.
Proof.
  intros (Hp & Hl & Hi). destruct input as [tag value|].
  - change (step decode d (Message tag value))
      with (trigger decode tag value d).
    rewrite trigger_unheard; [reflexivity|].
    rewrite Hl. intros entry [].
  - change (step decode d TimeoutElapsed) with (timeout_fires d).
    unfold timeout_fires. destruct (timeoutArmed d); simpl;
      [rewrite Hi|]; reflexivity.
Qed.

Lemma settled_run inputs : forall d,
  settled d ->
  settled (run decode inputs d)
  /\ controller (run decode inputs d) = controller d.
Proof.
  induction inputs as [|input inputs IH]; intros d Hd.
  - split; [exact Hd | reflexivity].
  - rewrite run_cons.
    destruct (IH _ (settled_step d input Hd)) as [H1 H2].
    split; [exact H1|].
    rewrite H2. apply settled_step_controller, Hd.
Qed.


End DiscoveryProperties.




(** ** Discovery: a response that does not parse *)

Section ParseFailure.

Variable decode : string -> option LightObject.

Lemma settle_not_resolved outcome d :
  outcome <> Resolved -> promise d <> Resolved ->
  promise (settle outcome d) <> Resolved.
Proof.
  intros Ho Hp. unfold settle. destruct (promise d) eqn:E; simpl; congruence.
Qed.

Lemma filter_split_length {A} (f : A -> bool) (l : list A) :
  (length (List.filter f l)
   + length (List.filter (fun x => negb (f x)) l) = length l)%nat.
Proof.
  induction l as [|x l IH]; simpl; [reflexivity|].
  destruct (f x); simpl; lia.
Qed.

Lemma Forall_filter {A} (P : A -> Prop) (f : A -> bool) (l : list A) :
  Forall P l -> Forall P (List.filter f l).
Proof.
  induction 1 as [|x l Hx _ IH]; simpl; [constructor|].
  destruct (f x); [constructor|]; assumption.
Qed.






(** What the [for] loop of [lightCountHandler] changes: it binds [n] object
    handlers and sends [n] requests. *)
Lemma request_objects_frame n : forall i d,
  let d' := request_objects n i d in
  listeners d'
  = listeners d ++ map (fun j => (object_tag j, lightObjectHandler j)) (seq i n)
  /\ promise d' = promise d
  /\ receivedCount d' = receivedCount d
  /\ totalLights d' = totalLights d
  /\ timeoutArmed d' = timeoutArmed d
  /\ isInitialized (controller d') = isInitialized (controller d)
  /\ errors (controller d') = errors (controller d)
  /\ lights (controller d') = lights (controller d).
Proof.
  induction n as [|n IH]; intros i d; simpl.
  - rewrite app_nil_r. repeat split; reflexivity.
  - match goal with
    | |- context [request_objects n (S i) ?d1] =>
        destruct (IH (S i) d1) as (H1 & H2 & H3 & H4 & H5 & H6 & H7 & H8)
    end.
    simpl in *. rewrite H1, H2, H3, H4, H5, H6, H7, H8.
    rewrite <- app_assoc. repeat split; reflexivity.
Qed.

Lemma frame_refl d : frame d d.
Proof. split; [reflexivity|]. split; [left; reflexivity | auto]. Qed.

Lemma frame_trans d1 d2 d3 : frame d1 d2 -> frame d2 d3 -> frame d1 d3.
Proof.
  intros (Ha & Hp & He) (Ha' & Hp' & He').
  split; [congruence|]. split; [|auto].
  destruct Hp as [Hp | [Hp1 Hp2]], Hp' as [Hp' | [Hp1' Hp2']].
  - left. congruence.
  - right. split; congruence.
  - right. split; congruence.
  - congruence.
Qed.

Lemma resolve_frame d : frame d (resolve d).
Proof.
  unfold resolve, settle, frame.
  destruct (promise d) eqn:Hp; simpl;
    (split; [reflexivity|]; split; [|auto]).
  - right. split; congruence.
  - left. congruence.
  - left. congruence.
Qed.

Lemma run_listener_frame handler data d :
  frame d (run_listener decode handler data d).
Proof.
  destruct handler as [|i]; simpl.
  - unfold run_lightCountHandler. simpl.
    destruct (parseInt data) as [[|n|n]|].
    + eapply frame_trans; [|apply resolve_frame].
      split; [reflexivity|]. split; [left; reflexivity | auto].
    + match goal with
      | |- frame _ (request_objects ?k 0 ?d1) =>
          destruct (request_objects_frame k 0 d1)
            as (_ & H2 & _ & _ & H5 & _ & H7 & _)
      end.
      simpl in *. split; [exact H5|]. split; [left; exact H2|].
      intros line Hline. rewrite H7. exact Hline.
    + split; [reflexivity|]. split; [left; reflexivity | auto].
    + split; [reflexivity|]. split; [left; reflexivity | auto].
  - unfold run_lightObjectHandler.
    destruct (decode data) as [lightObject|].
    + simpl. destruct (decide _).
      * eapply frame_trans; [|apply resolve_frame].
        split; [reflexivity|]. split; [left; reflexivity | auto].
      * split; [reflexivity|]. split; [left; reflexivity | auto].
    + split; [reflexivity|]. split; [left; reflexivity|].
      simpl. intros line Hline. apply in_or_app. left. exact Hline.
Qed.

Lemma fold_frame data (firing : list (string * Listener)) : forall d,
  frame d (fold_left (fun acc e => run_listener decode (snd e) data acc)
             firing d).
Proof.
  induction firing as [|e firing IH]; intros d; simpl.
  - apply frame_refl.
  - eapply frame_trans; [apply run_listener_frame | apply IH].
Qed.

Lemma trigger_frame tag data d : frame d (trigger decode tag data d).
Proof.
  unfold trigger. eapply frame_trans; [|apply fold_frame].
  split; [reflexivity|]. split; [left; reflexivity | auto].
Qed.













End ParseFailure.



(** A failure on the first response does not stop the second light from
    being inserted; discovery stays pending all the same. *)
Example parse_failure_then_success :
  let d := run sample_decode
             [Message "GET_LIGHT_COUNT" "2";
              Message "GET_LIGHT_OBJECT[0]" "{main";
              Message "GET_LIGHT_OBJECT[1]" "{porch}"]
             (initialize (fresh ∅ ∅)) in
  promise d = Pending
  /\ lights (controller d) = [(2, porch_light)]
  /\ listeners d = [].
Proof. repeat split; reflexivity. Qed.


(** * Further properties of the code *)

(** ** The codec beyond the claims *)

Lemma string_length_append (a b : string) :
  String.length (a +:+ b) = (String.length a + String.length b)%nat.
Proof. induction a as [|c a IH]; simpl; [reflexivity | rewrite IH; reflexivity]. Qed.

Lemma zeros_length k : String.length (zeros k) = k.
Proof. induction k as [|k IH]; simpl; [reflexivity | rewrite IH; reflexivity]. Qed.

Lemma upad_ok n targetLength padded :
  upad n targetLength = Ok padded ->
  String.length padded = targetLength
  /\ (String.length n <= targetLength)%nat
  /\ padded = zeros (targetLength - String.length n) +:+ n.
Proof.
  unfold upad. destruct (targetLength <? String.length n)%nat eqn:E;
    [discriminate|].
  apply Nat.ltb_ge in E. intros H. injection H as <-.
  rewrite string_length_append, zeros_length. repeat split; [lia | exact E].
Qed.

Lemma upad_throws n targetLength :
  (targetLength < String.length n)%nat <->
  upad n targetLength = Throw "target length smaller than length of n!".
Proof.
  unfold upad. destruct (targetLength <? String.length n)%nat eqn:E.
  - apply Nat.ltb_lt in E. tauto.
  - apply Nat.ltb_ge in E. split; [lia | discriminate].
Qed.

(** X1: [upad] never truncates.  When its argument fits, the result has
    exactly the target length and is the argument behind a run of zeros;
    when the argument is longer than the target it throws, and it does so
    only then. *)
Theorem upad_pads_or_throws (n : string) (targetLength : nat) :
  ((String.length n <= targetLength)%nat ->
     exists padded,
       upad n targetLength = Ok padded
       /\ String.length padded = targetLength
       /\ padded = zeros (targetLength - String.length n) +:+ n)
  /\ ((targetLength < String.length n)%nat ->
        exists message, upad n targetLength = Throw message)
  /\ (forall padded, upad n targetLength = Ok padded ->
        (String.length n <= targetLength)%nat).
Proof.
  split; [|split].
  - intros Hfit. unfold upad.
    destruct (targetLength <? String.length n)%nat eqn:E.
    + apply Nat.ltb_lt in E. lia.
    + eexists. split; [reflexivity|]. split; [|reflexivity].
      rewrite string_length_append, zeros_length. lia.
  - intros Hlong. eexists. apply upad_throws. exact Hlong.
  - intros padded H. apply (upad_ok _ _ _ H).
Qed.

Lemma upad_pads_or_throws_witness :
  exists padded,
    upad "C8" 4 = Ok padded /\ String.length padded = 4%nat
    /\ padded = zeros (4 - String.length "C8") +:+ "C8".
Proof.
  apply (upad_pads_or_throws "C8" 4). simpl. lia.
Defined.

(** X2: whatever its arguments, [packEvent] either throws or returns a
    token of exactly six characters, the marker 0x followed by four; it
    throws exactly when it has no argument or when the upper-cased
    hexadecimal text of the combined value, sign included, is longer than
    four characters. *)
Theorem packEvent_token_shape (args : list Z) :
  (forall packed, packEvent args = Ok packed ->
     String.length packed = 6%nat /\ substring 0 2 packed = "0x"%string)
  /\ ((exists message, packEvent args = Throw message)
      <-> args = []
          \/ exists val, reduce_or args = Ok val
               /\ (4 < String.length (toUpperCase (toString16 val)))%nat).
Proof.
  unfold packEvent. destruct args as [|first rest].
  - simpl. split; [discriminate|]. split; [intros _; left; reflexivity|].
    intros _. eexists. reflexivity.
  - simpl reduce_or. cbv iota beta zeta.
    set (val := fold_left bit_or rest first).
    destruct (upad (toUpperCase (toString16 val)) 4) as [phex|e] eqn:Hpad.
    + destruct (upad_ok _ _ _ Hpad) as (Hlen & Hfit & _). split.
      * intros packed H. injection H as <-.
        change ("0x" +:+ phex) with (String "0" (String "x" phex)).
        simpl. rewrite Hlen. split; [reflexivity|].
        destruct phex; reflexivity.
      * split; [intros [m Hm]; discriminate|].
        intros [H | (v & Hv & Hlong)]; [discriminate|].
        injection Hv as <-. lia.
    + split; [discriminate|]. split; [|intros _; eexists; reflexivity].
      intros _. right. exists val. split; [reflexivity|].
      unfold upad in Hpad.
      destruct (4 <? String.length (toUpperCase (toString16 val)))%nat eqn:E;
        [|discriminate].
      apply Nat.ltb_lt in E. exact E.
Qed.

Lemma packEvent_token_shape_witness :
  String.length "0x03C8" = 6%nat /\ substring 0 2 "0x03C8" = "0x"%string.
Proof.
  apply (packEvent_token_shape [768; 200]). reflexivity.
Defined.





Lemma all_u16_round_trips :
  forallb u16_round_trip_ok (upto (Z.to_nat 65536) 0) = true.
Proof. vm_compute. reflexivity. Qed.


(** X3: on every 16-bit value, [u16toHex] writes the low byte first and the
    high byte second, two upper-case hexadecimal digits each, and
    [hexToU16] reads that text back to the value. *)
Theorem u16toHex_hexToU16_round_trip (v : Z) :
  0 <= v < 65536 ->
  u16toHex v = Ok (hexByte (v mod 256) +:+ hexByte (v / 256))
  /\ hexToU16 (hexByte (v mod 256) +:+ hexByte (v / 256)) = Some v.
Proof.
  intros Hv.
  assert (Hok : u16_round_trip_ok v = true).
  { apply (forallb_upto u16_round_trip_ok (Z.to_nat 65536) 0
             all_u16_round_trips).
    rewrite Z2Nat.id; lia. }
  unfold u16_round_trip_ok in Hok.
  destruct (u16toHex v) as [s|e]; [|discriminate].
  apply andb_prop in Hok as [Htext Hback].
  apply String.eqb_eq in Htext. subst s. split; [reflexivity|].
  destruct (hexToU16 _) as [v'|]; [|discriminate].
  apply Z.eqb_eq in Hback. congruence.
Qed.

Lemma u16toHex_hexToU16_round_trip_witness :
  u16toHex 968 = Ok (hexByte (968 mod 256) +:+ hexByte (968 / 256))
  /\ hexToU16 (hexByte (968 mod 256) +:+ hexByte (968 / 256)) = Some 968.
Proof. apply (u16toHex_hexToU16_round_trip 968). lia. Defined.




(** ** Manual control beyond the claims *)

Lemma command_text_static light light' i c :
  set_currentBrightness 0 light = set_currentBrightness 0 light' ->
  command_text light i c = command_text light' i c.
Proof.
  intros H. unfold command_text.
  assert (Hd : l_isDimmer light = l_isDimmer light').
  { change (l_isDimmer (set_currentBrightness 0 light)
            = l_isDimmer (set_currentBrightness 0 light')).
    rewrite H. reflexivity. }
  rewrite Hd. reflexivity.
Qed.

(** What [setLightBrightness] leaves alone. *)
Lemma setLightBrightness_keeps (s : State) (i : Z) (b : number) :
  let s' := fst (setLightBrightness i b s) in
  scenes s' = scenes s
  /\ schedules s' = schedules s
  /\ activeSchedules s' = activeSchedules s
  /\ scheduleIntervals s' = scheduleIntervals s
  /\ timers s' = timers s
  /\ nextTimerId s' = nextTimerId s
  /\ isInitialized s' = isInitialized s
  /\ map static_part (lights s') = map static_part (lights s)
  /\ (forall j, j <> i -> lights_get j (lights s') = lights_get j (lights s)).
Proof.
  intros s'. subst s'.
  destruct (lights_get i (lights s)) as [light|] eqn:Hget.
  - rewrite (setLightBrightness_found s i b light Hget). simpl.
    repeat split; try reflexivity.
    + apply static_assign.
    + intros j Hj. apply lights_get_assign_ne. exact Hj.
  - rewrite (setLightBrightness_missing s i b Hget). simpl.
    repeat split; reflexivity.
Qed.

(** X5: [setLightBrightness] touches one light only.  Scenes, schedules,
    the schedule tables, the initialization flag and every other light of
    the registry are as before, and the registry keeps its keys, order and
    every field but the cached brightness of the addressed light. *)
Theorem setLightBrightness_frame (s : State) (i : Z) (b : number) :
  let s' := fst (setLightBrightness i b s) in
  scenes s' = scenes s
  /\ schedules s' = schedules s
  /\ activeSchedules s' = activeSchedules s
  /\ scheduleIntervals s' = scheduleIntervals s
  /\ timers s' = timers s
  /\ nextTimerId s' = nextTimerId s
  /\ isInitialized s' = isInitialized s
  /\ map static_part (lights s') = map static_part (lights s)
  /\ (forall j, j <> i -> lights_get j (lights s') = lights_get j (lights s)).
Proof. exact (setLightBrightness_keeps s i b). Qed.

Lemma clamp_brightness_0 : clamp_brightness 0 = Num 0.
Proof. reflexivity. Qed.

Lemma clamp_brightness_100 : clamp_brightness 100 = Num 100.
Proof. reflexivity. Qed.

Lemma assign_assign k b b' m :
  lights_assign_brightness k b (lights_assign_brightness k b' m)
  = lights_assign_brightness k b m.
Proof.
  induction m as [|[k' v] m IH]; simpl; [reflexivity|].
  destruct (k' =? k) eqn:E; simpl; rewrite E; [reflexivity|].
  rewrite IH. reflexivity.
Qed.

(** X6: [toggleLight] with no explicit state switches a light that is
    cached as off (brightness 0) to 100 and any other light to 0, through
    [setLightBrightness]; from then on two more toggles bring the registry
    back to where it was.  On a light that is not in the registry it
    returns false and, unlike [setLightBrightness], leaves no trace at all. *)
Theorem toggleLight_flips (s : State) (i : Z) :
  (forall light, lights_get i (lights s) = Some light ->
     let target := (if is_zero (l_currentBrightness light)
                    then 100 else 0)%Q in
     let s1 := fst (toggleLight i None s) in
     toggleLight i None s = setLightBrightness i target s
     /\ snd (toggleLight i None s) = true
     /\ lights_get i (lights s1) = Some (set_currentBrightness target light)
     /\ lights (fst (toggleLight i None (fst (toggleLight i None s1))))
        = lights s1)
  /\ (lights_get i (lights s) = None ->
      forall state, toggleLight i state s = (s, false)).
Proof.
  split.
  - intros light Hget target s1.
    assert (Hcall : toggleLight i None s = setLightBrightness i target s).
    { unfold toggleLight. rewrite Hget. reflexivity. }
    assert (Hclamp : clamp_brightness target = target).
    { unfold target. destruct (is_zero _); reflexivity. }
    assert (Hs1 : s1 = with_lights
                         (lights_assign_brightness i target (lights s))
                         (sendWSData (command_text light i target) s)).
    { unfold s1. rewrite Hcall, (setLightBrightness_found s i _ light Hget).
      rewrite Hclamp. reflexivity. }
    assert (Hget1 : lights_get i (lights s1)
                    = Some (set_currentBrightness target light)).
    { rewrite Hs1. simpl. rewrite lights_get_assign_eq, Hget. reflexivity. }
    split; [exact Hcall|].
    split; [rewrite Hcall, (setLightBrightness_found s i _ light Hget);
            reflexivity|].
    split; [exact Hget1|].
    (* second and third toggle *)
    set (target2 := (if is_zero target then 100 else 0)%Q).
    assert (Hclamp2 : clamp_brightness target2 = target2).
    { unfold target2. destruct (is_zero _); reflexivity. }
    assert (Hcall2 : toggleLight i None s1
                     = setLightBrightness i target2 s1).
    { unfold toggleLight. rewrite Hget1. reflexivity. }
    rewrite Hcall2, (setLightBrightness_found s1 i _ _ Hget1), Hclamp2.
    simpl.
    set (s2 := with_lights _ _).
    assert (Hget2 : lights_get i (lights s2)
                    = Some (set_currentBrightness target2
                              (set_currentBrightness target light))).
    { unfold s2. simpl. rewrite lights_get_assign_eq, Hget1. reflexivity. }
    assert (Hback : (if is_zero target2 then 100 else 0)%Q = target).
    { unfold target2, target.
      destruct (is_zero (l_currentBrightness light)); reflexivity. }
    unfold toggleLight. rewrite Hget2. simpl l_currentBrightness.
    rewrite Hback, (setLightBrightness_found s2 i _ _ Hget2), Hclamp.
    simpl. unfold s2. simpl. rewrite assign_assign.
    rewrite Hs1. simpl. rewrite assign_assign. reflexivity.
  - intros Hget state. unfold toggleLight. rewrite Hget. reflexivity.
Qed.

Lemma toggleLight_flips_witness :
  lights_get 1 (lights (fst (toggleLight 1 None sample_ready)))
  = Some (set_currentBrightness
            (if is_zero (l_currentBrightness main_light) then 100 else 0)%Q
            main_light).
Proof.
  apply (toggleLight_flips sample_ready 1). reflexivity.
Defined.

Lemma lights_get_app_fresh k (m1 m2 : list (Z * Light)) :
  ~ In k (map fst m1) -> lights_get k (m1 ++ m2) = lights_get k m2.
Proof.
  induction m1 as [|[k' v] m1 IH]; intros Hfresh; simpl; [reflexivity|].
  destruct (k' =? k) eqn:E.
  - apply Z.eqb_eq in E. exfalso. apply Hfresh. left. exact E.
  - apply IH. intros H. apply Hfresh. right. exact H.
Qed.

Lemma assign_app_fresh k b (m1 m2 : list (Z * Light)) :
  ~ In k (map fst m1) ->
  lights_assign_brightness k b (m1 ++ m2)
  = m1 ++ lights_assign_brightness k b m2.
Proof.
  induction m1 as [|[k' v] m1 IH]; intros Hfresh; simpl; [reflexivity|].
  destruct (k' =? k) eqn:E.
  - apply Z.eqb_eq in E. exfalso. apply Hfresh. left. exact E.
  - rewrite IH; [reflexivity|]. intros H. apply Hfresh. right. exact H.
Qed.

Lemma with_level_keys b m : map fst (map (with_level b) m) = map fst m.
Proof. rewrite map_map. reflexivity. Qed.

(** The loop of [allLightsOff] and [allLightsOn], from any point on. *)
Lemma set_all_loop b : forall todo done s,
  lights s = map (with_level (clamp_brightness b)) done ++ todo ->
  registry_ok (done ++ todo) ->
  let s' := fold_left
              (fun acc entry =>
                 fst (setLightBrightness (l_index (snd entry)) b acc))
              todo s in
  lights s' = map (with_level (clamp_brightness b)) (done ++ todo)
  /\ sent s'
     = sent s ++ map (fun entry => command_text (snd entry) (fst entry)
                                     (clamp_brightness b)) todo
  /\ errors s' = errors s.
Proof.
  induction todo as [|[k v] todo IH]; intros done s Hlights Hok; simpl.
  - rewrite !app_nil_r in *. split; [exact Hlights|]. split; reflexivity.
  - destruct Hok as [Hnd Hidx].
    assert (Hk : l_index v = k).
    { apply Forall_app in Hidx as [_ Hidx].
      inversion Hidx; subst. assumption. }
    assert (Hfresh : ~ In k (map fst (map (with_level (clamp_brightness b))
                                         done))).
    { rewrite with_level_keys. rewrite map_app in Hnd. simpl in Hnd.
      apply List.NoDup_remove_2 in Hnd.
      intros H. apply Hnd. apply in_or_app. left. exact H. }
    assert (Hget : lights_get k (lights s) = Some v).
    { rewrite Hlights, lights_get_app_fresh by exact Hfresh.
      simpl. rewrite Z.eqb_refl. reflexivity. }
    rewrite Hk, (setLightBrightness_found s k b v Hget). simpl.
    match goal with
    | |- context [fold_left _ todo ?s1] =>
        destruct (IH (done ++ [(k, v)]) s1) as (H1 & H2 & H3)
    end.
    + simpl. rewrite Hlights, assign_app_fresh by exact Hfresh.
      simpl. rewrite Z.eqb_refl, map_app, <- app_assoc. reflexivity.
    + rewrite <- app_assoc. split; assumption.
    + rewrite <- app_assoc in H1. simpl in H1, H2, H3.
      rewrite H1, H2, H3, <- app_assoc. repeat split; reflexivity.
Qed.

(** X7: on a registry where every light is stored once, under its own
    index, [allLightsOff] and [allLightsOn] send exactly one command per
    light, in registry order, and leave every light cached at 0,
    respectively 100, with nothing logged and nothing else changed in the
    registry. *)
Theorem allLights_sets_every_light (s : State) :
  registry_ok (lights s) ->
  (lights (allLightsOff s) = map (with_level 0) (lights s)
   /\ sent (allLightsOff s)
      = sent s ++ map (fun entry => command_text (snd entry) (fst entry) 0)
                    (lights s)
   /\ errors (allLightsOff s) = errors s)
  /\ (lights (allLightsOn s) = map (with_level 100) (lights s)
      /\ sent (allLightsOn s)
         = sent s ++ map (fun entry => command_text (snd entry) (fst entry) 100)
                       (lights s)
      /\ errors (allLightsOn s) = errors s).
Proof.
  intros Hok. split.
  - apply (set_all_loop 0 (lights s) [] s); [reflexivity | exact Hok].
  - apply (set_all_loop 100 (lights s) [] s); [reflexivity | exact Hok].
Qed.

Lemma sample_ready_registry_ok : registry_ok (lights sample_ready).
Proof.
  split.
  - repeat constructor; simpl; intuition discriminate.
  - repeat constructor.
Qed.

Lemma allLights_sets_every_light_witness :
  lights (allLightsOn sample_ready) = map (with_level 100) (lights sample_ready).
Proof.
  apply (allLights_sets_every_light sample_ready).
  split.
  - repeat constructor; simpl; intuition discriminate.
  - repeat constructor.
Defined.

(** ** Scenes beyond the claims *)

Lemma refreshed_keys f replies m : map fst (map (refreshed f replies) m) = map fst m.
Proof.
  rewrite map_map. apply map_ext. intros e. unfold refreshed.
  destruct (passes_filter f (snd e)); [|reflexivity].
  destruct (replies _); reflexivity.
Qed.

(** The loop of [saveScene] on a registry where every light is stored once
    under its own index, from any point on. *)
Lemma collect_loop f replies : forall todo done s acc,
  lights s = map (refreshed f replies) done ++ todo ->
  registry_ok (done ++ todo) ->
  let r := collect_states (map fst todo) f replies s acc in
  lights (fst r) = map (refreshed f replies) (done ++ todo)
  /\ snd r = acc ++ map (snapshot replies)
                    (List.filter (passes_filter f) (map snd todo))
  /\ sent (fst r)
     = sent s ++ map brightness_query
                   (List.filter (passes_filter f) (map snd todo))
  /\ errors (fst r) = errors s
  /\ scenes (fst r) = scenes s
  /\ isInitialized (fst r) = isInitialized s.
Proof.
  induction todo as [|[k v] todo IH]; intros done s acc Hlights Hok; simpl.
  - rewrite !app_nil_r in *. repeat split. exact Hlights.
  - destruct Hok as [Hnd Hidx].
    assert (Hk : l_index v = k).
    { apply Forall_app in Hidx as [_ Hidx].
      inversion Hidx; subst. assumption. }
    assert (Hfresh : ~ In k (map fst (map (refreshed f replies) done))).
    { rewrite refreshed_keys. rewrite map_app in Hnd. simpl in Hnd.
      apply List.NoDup_remove_2 in Hnd.
      intros H. apply Hnd. apply in_or_app. left. exact H. }
    assert (Hget : lights_get k (lights s) = Some v).
    { rewrite Hlights, lights_get_app_fresh by exact Hfresh.
      simpl. rewrite Z.eqb_refl. reflexivity. }
    assert (Hok' : registry_ok ((done ++ [(k, v)]) ++ todo)).
    { rewrite <- app_assoc. split; assumption. }
    rewrite Hget. destruct (passes_filter f v) eqn:Hpass.
    + rewrite Hk.
      set (s' := getCurrentBrightness k (replies k) s).
      assert (Hs' : lights s'
                    = map (refreshed f replies) (done ++ [(k, v)]) ++ todo
                      /\ sent s' = sent s ++ [brightness_query v]
                      /\ errors s' = errors s /\ scenes s' = scenes s
                      /\ isInitialized s' = isInitialized s).
      { unfold s', getCurrentBrightness, brightness_response, brightness_query.
        rewrite Hk, map_app, <- app_assoc. simpl.
        unfold refreshed at 2. simpl. rewrite Hpass, Hk.
        destruct (replies k) as [level|]; simpl.
        - rewrite Hlights, assign_app_fresh by exact Hfresh.
          simpl. rewrite Z.eqb_refl. repeat split; reflexivity.
        - rewrite Hlights. repeat split; reflexivity. }
      destruct Hs' as (Hl' & Hsent' & Herr' & Hsc' & Hinit').
      assert (Hread : match lights_get k (lights s') with
                      | Some light' => l_currentBrightness light'
                      | None => l_currentBrightness v
                      end
                      = ls_brightness (snapshot replies v)).
      { rewrite Hl', map_app, <- app_assoc.
        rewrite lights_get_app_fresh by exact Hfresh.
        simpl. unfold refreshed. simpl. rewrite Hpass, Hk.
        destruct (replies k); simpl; rewrite Z.eqb_refl; reflexivity. }
      rewrite Hread.
      match goal with
      | |- context [collect_states (map fst todo) f replies s' ?acc1] =>
          destruct (IH (done ++ [(k, v)]) s' acc1 Hl' Hok')
            as (H1 & H2 & H3 & H4 & H5 & H6)
      end.
      rewrite <- app_assoc in H1.
      change ([(k, v)] ++ todo) with ((k, v) :: todo) in H1.
      rewrite H1, H2, H3, H4, H5, H6, Hsent', Herr', Hsc', Hinit'.
      rewrite <- !app_assoc. repeat split.
      simpl. unfold snapshot. simpl. rewrite Hk. reflexivity.
    + assert (Hl' : lights s
                    = map (refreshed f replies) (done ++ [(k, v)]) ++ todo).
      { rewrite map_app, <- app_assoc. simpl. unfold refreshed at 2.
        simpl. rewrite Hpass. exact Hlights. }
      destruct (IH (done ++ [(k, v)]) s acc Hl' Hok')
        as (H1 & H2 & H3 & H4 & H5 & H6).
      rewrite <- app_assoc in H1.
      change ([(k, v)] ++ todo) with ((k, v) :: todo) in H1.
      rewrite H1, H2, H3, H4, H5, H6. repeat split.
Qed.

Lemma saveScene_success_iff name f replies now s :
  snd (saveScene name f replies now s) = true
  <-> isInitialized s = true /\ name <> EmptyString.
Proof.
  unfold saveScene. destruct (isInitialized s); simpl.
  - destruct (String.eqb name EmptyString) eqn:E.
    + apply String.eqb_eq in E. simpl. split; [discriminate | tauto].
    + apply String.eqb_neq in E.
      destruct (collect_states _ _ _ _ _). simpl. tauto.
  - split; [discriminate | intros [H _]; discriminate].
Qed.

(** What a successful save leaves behind. *)
Lemma saveScene_result name f replies now s :
  registry_ok (lights s) ->
  snd (saveScene name f replies now s) = true ->
  let s' := fst (saveScene name f replies now s) in
  let scene := mkScene name now f
                 (map (snapshot replies) (filtered_lights f s)) in
  scenes s' = <[name := scene]> (scenes s)
  /\ lights s' = map (refreshed f replies) (lights s)
  /\ sent s' = sent s ++ map brightness_query (filtered_lights f s)
  /\ errors s' = errors s.
Proof.
  intros Hok Hsuccess.
  apply saveScene_success_iff in Hsuccess as [Hinit Hname].
  apply String.eqb_neq in Hname.
  unfold saveScene. rewrite Hinit, Hname. simpl.
  destruct (collect_loop f replies (lights s) [] s [] eq_refl Hok)
    as (H1 & H2 & H3 & H4 & H5 & _).
  destruct (collect_states (map fst (lights s)) f replies s [])
    as [s1 lightStates].
  simpl in *. subst lightStates. rewrite H1, H3, H4, H5.
  repeat split.
Qed.

(** X8: [saveScene] succeeds exactly when the controller is initialized
    and the name is not empty.  When it fails it stores nothing, sends
    nothing and leaves the registry alone, logging one error line. *)
Theorem saveScene_succeeds_iff (s : State) (sceneName : string)
    (roomFilter : option Z) (replies : Z -> option string) (now : string) :
  (snd (saveScene sceneName roomFilter replies now s) = true
   <-> isInitialized s = true /\ sceneName <> EmptyString)
  /\ (snd (saveScene sceneName roomFilter replies now s) = false ->
      let s' := fst (saveScene sceneName roomFilter replies now s) in
      scenes s' = scenes s /\ lights s' = lights s /\ sent s' = sent s
      /\ exists line, errors s' = errors s ++ [line]).
Proof.
  split; [apply saveScene_success_iff|].
  unfold saveScene. destruct (isInitialized s); simpl.
  - destruct (String.eqb sceneName EmptyString); simpl.
    + intros _. repeat split. eexists. reflexivity.
    + destruct (collect_states _ _ _ _ _). simpl. discriminate.
  - intros _. repeat split. eexists. reflexivity.
Qed.

Lemma saveScene_succeeds_iff_witness :
  scenes (fst (saveScene "Evening" None (fun _ => None) "now"
                 (fresh ∅ ∅))) = scenes (fresh ∅ ∅).
Proof.
  apply (saveScene_succeeds_iff (fresh ∅ ∅) "Evening" None (fun _ => None)
           "now").
  reflexivity.
Defined.

(** X9: on a registry where every light is stored once under its own
    index, a successful [saveScene] queries the lights that pass the room
    filter, one status request each in registry order, and records for each
    of them its index, name and room together with the brightness the
    reply reads as (the integer [parseInt] finds once a percent sign is
    removed, [NaN] when it finds no digit), or the brightness cached
    before when the query timed out.  A reply also replaces the cached
    brightness of its light by what it reads as; lights
    the filter passes over are neither queried nor changed.  With a room
    filter the lights recorded are those [getLightsByRoom] returns, without
    one those of [getAllLights]. *)
Theorem saveScene_records_replies (s : State) (sceneName : string)
    (roomFilter : option Z) (replies : Z -> option string) (now : string) :
  registry_ok (lights s) ->
  snd (saveScene sceneName roomFilter replies now s) = true ->
  let s' := fst (saveScene sceneName roomFilter replies now s) in
  let captured :=
    match roomFilter with
    | Some roomId => getLightsByRoom roomId s
    | None => getAllLights s
    end in
  scenes s' !! sceneName
  = Some (mkScene sceneName now roomFilter (map (snapshot replies) captured))
  /\ sent s' = sent s ++ map brightness_query captured
  /\ lights s' = map (refreshed roomFilter replies) (lights s)
  /\ errors s' = errors s.
Proof.
  intros Hok Hsuccess s' captured.
  destruct (saveScene_result sceneName roomFilter replies now s Hok Hsuccess)
    as (Hscenes & Hlights & Hsent & Herrors).
  assert (Hcaptured : filtered_lights roomFilter s = captured).
  { unfold captured, filtered_lights, getLightsByRoom, getAllLights.
    destruct roomFilter as [r|]; simpl; [reflexivity|].
    induction (map snd (lights s)) as [|l ls IH]; simpl; congruence. }
  rewrite Hcaptured in *.
  subst s'. rewrite Hscenes, lookup_insert_eq.
  repeat split; assumption.
Qed.

Lemma saveScene_records_replies_witness :
  scenes (fst (saveScene "Porch only" (Some 5)
                 (fun i => if i =? 2 then Some "40%"%string else None) "now"
                 sample_ready)) !! "Porch only"
  = Some (mkScene "Porch only" "now" (Some 5)
            (map (snapshot (fun i => if i =? 2 then Some "40%"%string else None))
               (getLightsByRoom 5 sample_ready))).
Proof.
  apply (saveScene_records_replies sample_ready "Porch only" (Some 5)
           (fun i => if i =? 2 then Some "40%"%string else None) "now").
  - split.
    + repeat constructor; simpl; intuition discriminate.
    + repeat constructor.
  - reflexivity.
Defined.

Lemma member_command_static s s' member :
  map static_part (lights s') = map static_part (lights s) ->
  member_command s' member = member_command s member
  /\ member_error s' member = member_error s member.
Proof.
  intros H. unfold member_command, member_error.
  pose proof (lights_get_same_static (ls_index member) _ _ H) as Hk.
  destruct (lights_get (ls_index member) (lights s')) as [l'|];
    destruct (lights_get (ls_index member) (lights s)) as [l|];
    simpl in Hk; try discriminate; [|split; reflexivity].
  assert (Hsame : set_currentBrightness 0 l' = set_currentBrightness 0 l)
    by congruence.
  split; [|reflexivity].
  f_equal. apply command_text_static. exact Hsame.
Qed.

(** What the loop of [loadScene] sends and logs. *)
Lemma apply_members_trace members : forall s n,
  sent (fst (apply_members members s n))
  = sent s ++ flat_map (member_command s) members
  /\ errors (fst (apply_members members s n))
     = errors s ++ flat_map (member_error s) members.
Proof.
  induction members as [|m members IH]; intros s n; simpl.
  - rewrite !app_nil_r. split; reflexivity.
  - pose proof (setLightBrightness_static (ls_index m) (ls_brightness m) s)
      as Hstatic.
    assert (Hstep : sent (fst (setLightBrightness (ls_index m)
                                 (ls_brightness m) s))
                    = sent s ++ member_command s m
                    /\ errors (fst (setLightBrightness (ls_index m)
                                      (ls_brightness m) s))
                       = errors s ++ member_error s m).
    { unfold member_command, member_error.
      destruct (lights_get (ls_index m) (lights s)) as [light|] eqn:Hget.
      - rewrite (setLightBrightness_found s _ _ light Hget). simpl.
        rewrite app_nil_r. split; reflexivity.
      - rewrite (setLightBrightness_missing s _ _ Hget). simpl.
        rewrite app_nil_r. split; reflexivity. }
    destruct (setLightBrightness (ls_index m) (ls_brightness m) s)
      as [s1 ok].
    simpl in Hstatic, Hstep. destruct Hstep as [Hsent Herr].
    destruct (IH s1 (if ok then S n else n)) as [IH1 IH2].
    rewrite IH1, IH2, Hsent, Herr, <- !app_assoc.
    assert (Hsame : flat_map (member_command s1) members
                    = flat_map (member_command s) members
                    /\ flat_map (member_error s1) members
                       = flat_map (member_error s) members).
    { clear IH IH1 IH2. induction members as [|m' members IHm]; simpl;
        [split; reflexivity|].
      destruct (member_command_static s s1 m' Hstatic) as [-> ->].
      destruct IHm as [-> ->]. split; reflexivity. }
    destruct Hsame as [-> ->]. split; reflexivity.
Qed.

(** What the loop of [loadScene] leaves in the registry, when no two
    members name the same light. *)
Lemma apply_members_levels members : forall s n,
  List.NoDup (map ls_index members) ->
  (forall k, ~ In k (map ls_index members) ->
     lights_get k (lights (fst (apply_members members s n)))
     = lights_get k (lights s))
  /\ (forall member light,
        In member members ->
        lights_get (ls_index member) (lights s) = Some light ->
        lights_get (ls_index member) (lights (fst (apply_members members s n)))
        = Some (set_currentBrightness
                  (clamp_brightness (ls_brightness member)) light)).
Proof.
  induction members as [|m members IH]; intros s n Hnd; simpl.
  - split; [reflexivity | intros ? ? []].
  - inversion Hnd as [|? ? Hfresh Hnd']; subst.
    destruct (setLightBrightness_keeps s (ls_index m) (ls_brightness m))
      as (_ & _ & _ & _ & _ & _ & _ & _ & Hother).
    assert (Hself : forall light,
              lights_get (ls_index m) (lights s) = Some light ->
              lights_get (ls_index m)
                (lights (fst (setLightBrightness (ls_index m)
                                (ls_brightness m) s)))
              = Some (set_currentBrightness
                        (clamp_brightness (ls_brightness m)) light)).
    { intros light Hget.
      rewrite (setLightBrightness_found s _ _ light Hget). simpl.
      rewrite lights_get_assign_eq, Hget. reflexivity. }
    destruct (setLightBrightness (ls_index m) (ls_brightness m) s)
      as [s1 ok].
    simpl in Hother, Hself.
    destruct (IH s1 (if ok then S n else n) Hnd') as [IHout IHin].
    split.
    + intros k Hk. rewrite IHout by (intros H; apply Hk; right; exact H).
      apply Hother. intros ->. apply Hk. left. reflexivity.
    + intros member light [<- | Hin] Hget.
      * rewrite IHout by exact Hfresh. apply Hself, Hget.
      * apply IHin; [exact Hin|].
        rewrite Hother; [exact Hget|].
        intros Heq. apply Hfresh. rewrite <- Heq.
        apply in_map. exact Hin.
Qed.

(** X10: [loadScene] of a stored scene sends, in member order, one command
    per member whose light is in the registry, the one [setLightBrightness]
    builds from the member's saved brightness put through its clamping
    expression, and logs one "not found" line per member whose light is
    missing.  When no two members name the same light, every member's
    light ends cached at that clamped brightness, which is within [0,100]
    unless the saved brightness is [NaN] and then is [NaN], and the lights
    the scene does not name keep their cached brightness. *)
Theorem loadScene_applies_members (s : State) (sceneName : string)
    (scene : Scene) :
  scenes s !! sceneName = Some scene ->
  let s' := fst (loadScene sceneName s) in
  sent s' = sent s ++ flat_map (member_command s) (sc_lights scene)
  /\ errors s' = errors s ++ flat_map (member_error s) (sc_lights scene)
  /\ scenes s' = scenes s
  /\ (List.NoDup (map ls_index (sc_lights scene)) ->
      (forall member light,
         In member (sc_lights scene) ->
         lights_get (ls_index member) (lights s) = Some light ->
         lights_get (ls_index member) (lights s')
         = Some (set_currentBrightness
                   (clamp_brightness (ls_brightness member)) light)
         /\ (ls_brightness member <> NaN ->
             percentage (clamp_brightness (ls_brightness member)))
         /\ (ls_brightness member = NaN ->
             clamp_brightness (ls_brightness member) = NaN))
      /\ (forall k, ~ In k (map ls_index (sc_lights scene)) ->
            lights_get k (lights s') = lights_get k (lights s))).
Proof.
  intros Hscene s'. subst s'. unfold loadScene. rewrite Hscene.
  destruct (apply_members_trace (sc_lights scene) s 0) as [Hsent Herr].
  pose proof (apply_members_levels (sc_lights scene) s 0) as Hlevels.
  assert (Hscenes : forall members st n,
            scenes (fst (apply_members members st n)) = scenes st).
  { induction members as [|m members IHm]; intros st n; [reflexivity|].
    simpl.
    destruct (setLightBrightness_keeps st (ls_index m) (ls_brightness m))
      as (Hsc & _).
    destruct (setLightBrightness (ls_index m) (ls_brightness m) st)
      as [s1 ok].
    simpl in Hsc. rewrite IHm. exact Hsc. }
  specialize (Hscenes (sc_lights scene) s 0%nat).
  destruct (apply_members (sc_lights scene) s 0) as [s1 count].
  simpl in *.
  split; [exact Hsent|]. split; [exact Herr|]. split; [exact Hscenes|].
  intros Hnd. destruct (Hlevels Hnd) as [Hout Hin].
  split; [|exact Hout].
  intros member light Hmember Hget.
  split; [apply Hin; assumption|].
  split; [apply clamp_brightness_range | intros ->; reflexivity].
Qed.

Lemma loadScene_applies_members_witness :
  sent (fst (loadScene "Stale" sample_with_scenes))
  = sent sample_with_scenes
    ++ flat_map (member_command sample_with_scenes)
         (sc_lights (mkScene "Stale" "2024-05-22T20:00:00Z" None
            [mkLightState 1 "Main Light" 50 0;
             mkLightState 9 "Awning" 100 5])).
Proof.
  apply (loadScene_applies_members sample_with_scenes "Stale"). reflexivity.
Defined.

Lemma refreshed_static f replies m :
  map static_part (map (refreshed f replies) m) = map static_part m.
Proof.
  rewrite map_map. apply map_ext. intros e. unfold refreshed.
  destruct (passes_filter f (snd e)); [|reflexivity].
  destruct (replies _); reflexivity.
Qed.

Lemma lights_get_In k v (m : list (Z * Light)) :
  List.NoDup (map fst m) -> In (k, v) m -> lights_get k m = Some v.
Proof.
  induction m as [|[k' v'] m IH]; intros Hnd Hin; [destruct Hin|].
  inversion Hnd as [|? ? Hfresh Hnd']; subst. simpl.
  destruct Hin as [Heq | Hin].
  - injection Heq as -> ->. rewrite Z.eqb_refl. reflexivity.
  - destruct (k' =? k) eqn:E; [|apply IH; assumption].
    apply Z.eqb_eq in E. subst k'. exfalso. apply Hfresh.
    change k with (fst (k, v)). apply in_map. exact Hin.
Qed.

Lemma filtered_lights_in f s light :
  registry_ok (lights s) ->
  In light (filtered_lights f s) ->
  In (l_index light, light) (lights s).
Proof.
  intros [_ Hidx] Hin. unfold filtered_lights in Hin.
  apply filter_In in Hin as [Hin _].
  apply in_map_iff in Hin as ([k v] & <- & Hin).
  rewrite Forall_forall in Hidx.
  pose proof (Hidx (k, v)) as Hk. simpl in *.
  rewrite Hk; [exact Hin|]. apply list_elem_of_In. exact Hin.
Qed.

Lemma filtered_lights_NoDup f s :
  registry_ok (lights s) ->
  List.NoDup (map l_index (filtered_lights f s)).
Proof.
  intros [Hnd Hidx]. unfold filtered_lights.
  assert (Hkeys : map l_index (map snd (lights s)) = map fst (lights s)).
  { rewrite map_map. clear Hnd.
    induction Hidx as [|e m He _ IH]; simpl; congruence. }
  rewrite <- Hkeys in Hnd. clear Hkeys Hidx.
  induction (map snd (lights s)) as [|l ls IH]; simpl; [constructor|].
  inversion Hnd as [|? ? Hfresh Hnd']; subst.
  destruct (passes_filter f l); [|apply IH; exact Hnd'].
  simpl. constructor; [|apply IH; exact Hnd'].
  intros Hin. apply Hfresh. apply in_map_iff in Hin as (x & Hx & Hin).
  apply filter_In in Hin as [Hin _]. rewrite <- Hx. apply in_map. exact Hin.
Qed.

(** X11: saving and loading compose.  After a successful [saveScene] on a
    registry where every light is stored once under its own index, let
    cached brightness change in any way; [loadScene] of that scene then
    applies every member (none is skipped), returns true exactly when the
    scene has a member, and leaves each recorded light cached at its
    recorded brightness put through the clamping expression: a value
    within [0,100], except that a recorded [NaN] (a reply without a digit,
    or a [NaN] cached before a timeout) is cached as [NaN] again. *)
Theorem saveScene_then_loadScene (s later : State) (sceneName : string)
    (roomFilter : option Z) (replies : Z -> option string) (now : string) :
  registry_ok (lights s) ->
  snd (saveScene sceneName roomFilter replies now s) = true ->
  let saved := fst (saveScene sceneName roomFilter replies now s) in
  scenes later !! sceneName = scenes saved !! sceneName ->
  map static_part (lights later) = map static_part (lights saved) ->
  let members := map (snapshot replies) (filtered_lights roomFilter s) in
  let s' := fst (loadScene sceneName later) in
  snd (apply_members members later 0) = length members
  /\ snd (loadScene sceneName later) = negb (Nat.eqb (length members) 0)
  /\ (forall member,
        In member members ->
        exists light,
          lights_get (ls_index member) (lights s') = Some light
          /\ l_currentBrightness light
             = clamp_brightness (ls_brightness member)
          /\ (ls_brightness member <> NaN ->
              percentage (l_currentBrightness light))
          /\ (ls_brightness member = NaN -> l_currentBrightness light = NaN)
          /\ l_index light = ls_index member).
Proof.
  intros Hok Hsuccess saved Hscene Hstatic members s'.
  destruct (saveScene_result sceneName roomFilter replies now s Hok Hsuccess)
    as (Hscenes & Hlights & _ & _).
  fold saved in Hscenes, Hlights.
  rewrite Hscenes, lookup_insert_eq in Hscene. fold members in Hscene.
  rewrite Hlights, refreshed_static in Hstatic.
  assert (Hpresent : forall member, In member members ->
            exists light0,
              lights_get (ls_index member) (lights later) = Some light0
              /\ l_index light0 = ls_index member).
  { intros member Hin. unfold members in Hin.
    apply in_map_iff in Hin as (light & <- & Hin).
    pose proof (filtered_lights_in roomFilter s light Hok Hin) as Hentry.
    pose proof (lights_get_In _ _ _ (proj1 Hok) Hentry) as Hget.
    pose proof (lights_get_same_static (l_index light) _ _ Hstatic) as Hk.
    rewrite Hget in Hk. simpl in Hk.
    change (ls_index (snapshot replies light)) with (l_index light).
    destruct (lights_get (l_index light) (lights later)) as [light0|];
      [|discriminate].
    exists light0. split; [reflexivity|]. simpl in Hk.
    assert (Hsame : set_currentBrightness 0 light
                    = set_currentBrightness 0 light0) by congruence.
    change (l_index (set_currentBrightness 0 light0)
            = l_index (set_currentBrightness 0 light)).
    rewrite Hsame. reflexivity. }
  assert (Hall : applicable later members = length members).
  { unfold applicable. clear - Hpresent.
    induction members as [|m members IH]; [reflexivity|].
    simpl. unfold in_registry at 1.
    destruct (Hpresent m (or_introl eq_refl)) as (light0 & -> & _).
    simpl. f_equal. apply IH. intros member Hin. apply Hpresent.
    right. exact Hin. }
  destruct (apply_members_count members later 0) as [Hcount _].
  simpl in Hcount. rewrite Hall in Hcount.
  split; [exact Hcount|]. split.
  - unfold loadScene. rewrite Hscene. simpl sc_lights.
    destruct (apply_members members later 0) as [s1 count].
    simpl in *. subst count. destruct (length members); reflexivity.
  - intros member Hin.
    destruct (Hpresent member Hin) as (light0 & Hget0 & Hindex).
    assert (Hnd : List.NoDup (map ls_index members)).
    { unfold members. rewrite map_map. simpl.
      apply filtered_lights_NoDup. exact Hok. }
    destruct (apply_members_levels members later 0 Hnd) as [_ Hlevels].
    exists (set_currentBrightness (clamp_brightness (ls_brightness member))
              light0).
    split; [|split; [reflexivity|
               split; [apply clamp_brightness_range|
               split; [intros ->; reflexivity | exact Hindex]]]].
    unfold s', loadScene. rewrite Hscene. simpl sc_lights.
    specialize (Hlevels member light0 Hin Hget0).
    destruct (apply_members members later 0) as [s1 count]. exact Hlevels.
Qed.

Lemma saveScene_then_loadScene_witness :
  snd (loadScene "Porch only"
         (fst (setLightBrightness 2 0
                 (fst (saveScene "Porch only" (Some 5) (fun _ => Some "40%"%string)
                         "now" sample_ready)))))
  = negb (Nat.eqb
            (length (map (snapshot (fun _ => Some "40%"%string))
                       (filtered_lights (Some 5) sample_ready))) 0).
Proof.
  apply (saveScene_then_loadScene sample_ready
           (fst (setLightBrightness 2 0
                   (fst (saveScene "Porch only" (Some 5) (fun _ => Some "40%"%string)
                           "now" sample_ready))))
           "Porch only" (Some 5) (fun _ => Some "40%"%string) "now").
  - split.
    + repeat constructor; simpl; intuition discriminate.
    + repeat constructor.
  - reflexivity.
  - reflexivity.
  - reflexivity.
Defined.

Lemma deleteScene_present s sceneName scene :
  scenes s !! sceneName = Some scene ->
  deleteScene sceneName s
  = (with_scenes (delete sceneName (scenes s)) s, true).
Proof. intros H. unfold deleteScene. rewrite H. reflexivity. Qed.

Lemma deleteScene_absent s sceneName :
  scenes s !! sceneName = None ->
  deleteScene sceneName s
  = (error ("Scene " +:+ quoted sceneName +:+ " not found for deletion") s,
     false).
Proof. intros H. unfold deleteScene. rewrite H. reflexivity. Qed.

Lemma loadScene_absent s sceneName :
  scenes s !! sceneName = None -> snd (loadScene sceneName s) = false.
Proof. intros H. unfold loadScene. rewrite H. reflexivity. Qed.

(** X12: [deleteScene] removes the named scene and nothing else: it returns
    true exactly when the scene was stored, logs an error otherwise, and
    never touches the registry or the wire.  Deleting a scene that was just
    saved under a new name gives back the scene store as it was, and a
    deleted scene can no longer be deleted or loaded. *)
Theorem deleteScene_removes_only_that_scene (s : State) (sceneName : string) :
  let s' := fst (deleteScene sceneName s) in
  (snd (deleteScene sceneName s) = true <-> is_Some (scenes s !! sceneName))
  /\ scenes s' = delete sceneName (scenes s)
  /\ (forall other, other <> sceneName ->
        scenes s' !! other = scenes s !! other)
  /\ lights s' = lights s /\ sent s' = sent s
  /\ snd (deleteScene sceneName s') = false
  /\ snd (loadScene sceneName s') = false
  /\ (forall roomFilter replies now,
        scenes s !! sceneName = None ->
        snd (saveScene sceneName roomFilter replies now s) = true ->
        scenes (fst (deleteScene sceneName
                       (fst (saveScene sceneName roomFilter replies now s))))
        = scenes s).
Proof.
  intros s'. subst s'.
  assert (Hgone : forall st, scenes st = delete sceneName (scenes s) ->
            snd (deleteScene sceneName st) = false
            /\ snd (loadScene sceneName st) = false).
  { intros st Hst.
    assert (Hnone : scenes st !! sceneName = None)
      by (rewrite Hst; apply lookup_delete_eq).
    rewrite (deleteScene_absent st sceneName Hnone).
    split; [reflexivity | apply loadScene_absent, Hnone]. }
  destruct (scenes s !! sceneName) as [scene|] eqn:Hget.
  - rewrite (deleteScene_present s sceneName scene Hget). simpl.
    split; [split; [eauto | reflexivity]|].
    split; [reflexivity|].
    split; [intros other Hne; apply lookup_delete_ne; congruence|].
    split; [reflexivity|]. split; [reflexivity|].
    destruct (Hgone (with_scenes (delete sceneName (scenes s)) s) eq_refl)
      as [Hd Hl].
    split; [exact Hd|]. split; [exact Hl|].
    intros ? ? ? Hnone. discriminate Hnone.
  - rewrite (deleteScene_absent s sceneName Hget). simpl.
    split; [split; [discriminate | intros [x Hx]; discriminate]|].
    split; [symmetry; apply delete_id; exact Hget|].
    split; [reflexivity|]. split; [reflexivity|]. split; [reflexivity|].
    destruct (Hgone (error ("Scene " +:+ quoted sceneName
                            +:+ " not found for deletion") s)) as [Hd Hl].
    { simpl. symmetry. apply delete_id. exact Hget. }
    split; [exact Hd|]. split; [exact Hl|].
    intros roomFilter replies now _ Hsuccess.
    apply saveScene_success_iff in Hsuccess as [Hinit Hname].
    apply String.eqb_neq in Hname.
    unfold saveScene. rewrite Hinit, Hname. simpl.
    pose proof (collect_states_spec roomFilter replies (map fst (lights s))
                  s []) as (_ & Hsc & _).
    destruct (collect_states (map fst (lights s)) roomFilter replies s [])
      as [s1 lightStates].
    simpl in *.
    erewrite deleteScene_present by (simpl; apply lookup_insert_eq).
    simpl. rewrite delete_insert_id; [exact Hsc|]. rewrite Hsc. exact Hget.
Qed.

Lemma deleteScene_removes_only_that_scene_witness :
  scenes (fst (deleteScene "Bedroom"
                 (fst (saveScene "Bedroom" (Some 2) (fun _ => None) "now"
                         sample_with_scenes))))
  = scenes sample_with_scenes.
Proof.
  apply (deleteScene_removes_only_that_scene sample_with_scenes "Bedroom").
  - reflexivity.
  - reflexivity.
Defined.


(** ** Schedules beyond the claims *)

Lemma same_setup_refl s : same_setup s s.
Proof. repeat split. Qed.

Lemma same_setup_trans s1 s2 s3 :
  same_setup s1 s2 -> same_setup s2 s3 -> same_setup s1 s3.
Proof.
  intros (A1 & A2 & A3 & A4 & A5 & A6 & A7 & A8)
         (B1 & B2 & B3 & B4 & B5 & B6 & B7 & B8).
  repeat split; congruence.
Qed.

Lemma setLightBrightness_same_setup i b s :
  same_setup s (fst (setLightBrightness i b s)).
Proof.
  destruct (lights_get i (lights s)) as [light|] eqn:Hget.
  - rewrite (setLightBrightness_found s i b light Hget). simpl.
    repeat split. simpl. apply static_assign.
  - rewrite (setLightBrightness_missing s i b Hget). repeat split.
Qed.

Lemma apply_members_same_setup members : forall s n,
  same_setup s (fst (apply_members members s n)).
Proof.
  induction members as [|m members IH]; intros s n; simpl.
  - apply same_setup_refl.
  - pose proof (setLightBrightness_same_setup (ls_index m) (ls_brightness m) s)
      as Hstep.
    destruct (setLightBrightness (ls_index m) (ls_brightness m) s)
      as [s1 ok].
    eapply same_setup_trans; [exact Hstep | apply IH].
Qed.

Lemma loadScene_same_setup name s : same_setup s (fst (loadScene name s)).
Proof.
  unfold loadScene. destruct (scenes s !! name) as [scene|].
  - pose proof (apply_members_same_setup (sc_lights scene) s 0) as H.
    destruct (apply_members (sc_lights scene) s 0). exact H.
  - repeat split.
Qed.

Lemma set_all_same_setup b s : same_setup s (set_all b s).
Proof.
  unfold set_all. generalize (lights s) at 1. intros entries.
  revert s. induction entries as [|e entries IH]; intros s; simpl.
  - apply same_setup_refl.
  - eapply same_setup_trans; [apply setLightBrightness_same_setup | apply IH].
Qed.

Lemma dispatch_same_setup event s : same_setup s (dispatch event s).
Proof.
  unfold dispatch.
  destruct (String.eqb (ev_action event) "load_scene").
  - destruct (ev_scene event) as [[|c scene]|];
      [apply same_setup_refl | apply loadScene_same_setup
       | apply same_setup_refl].
  - destruct (String.eqb (ev_action event) "lights_off");
      [apply set_all_same_setup|].
    destruct (String.eqb (ev_action event) "lights_on");
      [apply set_all_same_setup|].
    repeat split.
Qed.

(** X13: an evaluator tick changes cached brightness, the wire and the
    error log, and nothing else: whatever the schedule holds, it never
    edits the scene or schedule stores, never activates or deactivates a
    schedule, never touches a timer, and never adds, removes, reorders or
    re-describes a light of the registry.  The same holds for
    [loadScene], [allLightsOff] and [allLightsOn] called directly. *)
Theorem evaluator_tick_frame (s : State) (scheduleName : string)
    (now : Clock) (intervalId : nat) :
  same_setup s (checkScheduleEvents scheduleName now s)
  /\ same_setup s (interval_fires intervalId now s)
  /\ same_setup s (fst (loadScene scheduleName s))
  /\ same_setup s (allLightsOff s)
  /\ same_setup s (allLightsOn s).
Proof.
  assert (Htick : forall name, same_setup s (checkScheduleEvents name now s)).
  { intros name. unfold checkScheduleEvents.
    destruct (schedules s !! name) as [schedule|]; [|apply same_setup_refl].
    destruct (sd_enabled schedule); [|apply same_setup_refl].
    assert (Hloop : forall events s0,
              same_setup s0
                (fold_left (fun acc event =>
                              if due now event then dispatch event acc else acc)
                   events s0)).
    { induction events as [|e events IH]; intros s0; simpl.
      - apply same_setup_refl.
      - eapply same_setup_trans; [|apply IH].
        destruct (due now e);
          [apply dispatch_same_setup | apply same_setup_refl]. }
    apply Hloop. }
  split; [apply Htick|]. split.
  - unfold interval_fires. destruct (timers s !! intervalId);
      [apply Htick | apply same_setup_refl].
  - split; [apply loadScene_same_setup|].
    split; apply set_all_same_setup.
Qed.

(** X14: [createSchedule] with a non-empty name stores the schedule under
    that name, enabled, with a copy of each event given, replacing
    whatever was stored there (a schedule that had been disabled is
    enabled again).  A stored event keeps the time and the scene of the
    event given; its days are those given, or all seven when none are
    given; its action is the one given, or [load_scene] when none is given
    or the one given is the empty string.  Every other schedule, the
    active set and the timers are left alone, so a running evaluator of
    that name evaluates the stored events from its next tick on.  With an
    empty name it stores nothing and returns false. *)
Theorem createSchedule_replaces (s : State) (scheduleName : string)
    (events : list EventInput) (created : string) :
  let s' := fst (createSchedule scheduleName events created s) in
  (scheduleName <> EmptyString ->
     snd (createSchedule scheduleName events created s) = true
     /\ schedules s' !! scheduleName
        = Some (mkSchedule scheduleName true created (map stored_event events))
     /\ (forall event,
           ev_time (stored_event event) = ei_time event
           /\ ev_scene (stored_event event) = ei_scene event
           /\ (forall days, ei_days event = Some days ->
                 ev_days (stored_event event) = days)
           /\ (ei_days event = None ->
               ev_days (stored_event event)
               = ["mon"; "tue"; "wed"; "thu"; "fri"; "sat"; "sun"]%string)
           /\ (forall action, ei_action event = Some action ->
                 action <> EmptyString ->
                 ev_action (stored_event event) = action)
           /\ (ei_action event = None \/ ei_action event = Some EmptyString ->
               ev_action (stored_event event) = "load_scene"%string))
     /\ (forall other, other <> scheduleName ->
           schedules s' !! other = schedules s !! other)
     /\ activeSchedules s' = activeSchedules s
     /\ scheduleIntervals s' = scheduleIntervals s
     /\ timers s' = timers s
     /\ (forall now,
           checkScheduleEvents scheduleName now s'
           = fold_left (fun acc event => dispatch event acc)
               (List.filter (due now) (map stored_event events)) s'))
  /\ (scheduleName = EmptyString ->
      snd (createSchedule scheduleName events created s) = false
      /\ schedules s' = schedules s).
Proof.
  intros s'. subst s'. unfold createSchedule. split.
  - intros Hname. apply String.eqb_neq in Hname. rewrite Hname. simpl.
    split; [reflexivity|].
    split; [apply lookup_insert_eq|].
    split.
    { intros event. unfold stored_event. simpl.
      split; [reflexivity|]. split; [reflexivity|].
      split; [intros days ->; reflexivity|].
      split; [intros ->; reflexivity|].
      split.
      - intros action -> Hne. destruct action; [contradiction | reflexivity].
      - intros [-> | ->]; reflexivity. }
    split; [intros other Hne; apply lookup_insert_ne; congruence|].
    repeat split.
    intros now. unfold checkScheduleEvents. simpl.
    rewrite lookup_insert_eq. simpl. apply fold_due.
  - intros ->. simpl. split; reflexivity.
Qed.

Lemma createSchedule_replaces_witness :
  schedules (fst (createSchedule "Morning"
                    [mkEventInput "07:00" None (Some "Evening") (Some EmptyString)]
                    "now" sample_scheduled))
    !! "Morning"
  = Some (mkSchedule "Morning" true "now"
            (map stored_event
               [mkEventInput "07:00" None (Some "Evening")
                  (Some EmptyString)])).
Proof.
  apply (createSchedule_replaces sample_scheduled "Morning"
           [mkEventInput "07:00" None (Some "Evening") (Some EmptyString)]
           "now").
  discriminate.
Defined.

(** An event given without days and with an empty action is stored for
    every day with the action [load_scene]. *)
Example createSchedule_defaults :
  schedules (fst (createSchedule "Morning"
                    [mkEventInput "07:00" None (Some "Evening") (Some EmptyString)]
                    "now" sample_scheduled))
    !! "Morning"
  = Some (mkSchedule "Morning" true "now"
            [mkEvent "07:00"
               ["mon"; "tue"; "wed"; "thu"; "fri"; "sat"; "sun"]%string
               (Some "Evening"%string) "load_scene"]).
Proof. reflexivity. Qed.

Lemma idle_no_stale s : idle s -> no_stale_interval s.
Proof.
  intros (_ & Hintervals & _). intros name id Hget.
  rewrite Hintervals, lookup_empty in Hget. discriminate.
Qed.

Lemma perform_no_stale call s :
  tables_agree s -> no_stale_interval s -> no_stale_interval (perform s call).
Proof.
  intros (_ & Hactive & Hlive) Hs.
  destruct call as [name events now | name | name]; simpl.
  - unfold createSchedule. destruct (String.eqb name EmptyString); exact Hs.
  - unfold activateSchedule.
    destruct (schedules s !! name); [|exact Hs].
    destruct (decide (name ∈ activeSchedules s)); [exact Hs|].
    intros name' id. simpl. intros Hget.
    destruct (decide (name = name')) as [<- | Hne].
    + apply elem_of_union_l, elem_of_singleton. reflexivity.
    + rewrite lookup_insert_ne in Hget by exact Hne.
      apply elem_of_union_r. apply (Hs name' id Hget).
  - unfold deactivateSchedule.
    destruct (decide (name ∈ activeSchedules s)) as [Hin|]; [|exact Hs].
    destruct (Hactive name Hin) as (_ & id0 & Hid & Htimer).
    destruct (Hlive id0 name Htimer) as (_ & _ & Hrange).
    rewrite Hid. destruct id0 as [|id0]; [lia|].
    unfold no_stale_interval. simpl.
    intros name' id Hget.
    destruct (decide (name = name')) as [<- | Hne].
    + rewrite lookup_delete_eq in Hget. discriminate.
    + rewrite lookup_delete_ne in Hget by exact Hne.
      apply elem_of_difference. split; [apply (Hs name' id Hget)|].
      rewrite elem_of_singleton. congruence.
Qed.

Lemma perform_all_no_stale calls : forall s,
  tables_agree s -> no_stale_interval s ->
  no_stale_interval (perform_all calls s).
Proof.
  unfold perform_all.
  induction calls as [|call calls IH]; intros s Hagree Hs; simpl;
    [exact Hs|].
  apply IH; [apply perform_tables_agree, Hagree|].
  apply perform_no_stale; assumption.
Qed.

(** X15: activation and deactivation are inverse on the schedule tables.
    In any state reached from a controller with no active schedule by
    schedule calls, activating a stored schedule that is not active starts
    a timer under an identifier no live timer has, and deactivating it
    again gives back the active set, the recorded intervals and the live
    timers exactly as they were; only the identifier counter has moved on,
    so identifiers are never handed out twice.  Deactivating a schedule
    that is not active returns false and changes nothing. *)
Theorem activate_then_deactivate (s0 : State) (calls : list Call)
    (scheduleName : string) :
  idle s0 ->
  let s := perform_all calls s0 in
  (is_Some (schedules s !! scheduleName) ->
   scheduleName ∉ activeSchedules s ->
   let s1 := fst (activateSchedule scheduleName s) in
   let s2 := fst (deactivateSchedule scheduleName s1) in
   snd (activateSchedule scheduleName s) = true
   /\ timers s !! nextTimerId s = None
   /\ timers s1 = <[nextTimerId s := scheduleName]> (timers s)
   /\ snd (deactivateSchedule scheduleName s1) = true
   /\ activeSchedules s2 = activeSchedules s
   /\ scheduleIntervals s2 = scheduleIntervals s
   /\ timers s2 = timers s
   /\ nextTimerId s2 = S (nextTimerId s))
  /\ (scheduleName ∉ activeSchedules s ->
      deactivateSchedule scheduleName s = (s, false)).
Proof.
  intros Hidle s.
  assert (Hagree : tables_agree s)
    by (apply perform_all_tables_agree, idle_tables_agree, Hidle).
  assert (Hstale : no_stale_interval s).
  { apply perform_all_no_stale;
      [apply idle_tables_agree, Hidle | apply idle_no_stale, Hidle]. }
  split.
  - intros [schedule Hstored] Hout s1 s2.
    assert (Hfresh : timers s !! nextTimerId s = None).
    { destruct (timers s !! nextTimerId s) as [name|] eqn:Hget;
        [|reflexivity].
      destruct Hagree as (_ & _ & Hlive).
      destruct (Hlive _ _ Hget) as (_ & _ & Hrange). lia. }
    assert (Hnone : scheduleIntervals s !! scheduleName = None).
    { destruct (scheduleIntervals s !! scheduleName) as [id|] eqn:Hget;
        [|reflexivity].
      exfalso. apply Hout. apply (Hstale _ _ Hget). }
    assert (Hs1 : activateSchedule scheduleName s
                  = (with_schedule_tables
                       ({[scheduleName]} ∪ activeSchedules s)
                       (<[scheduleName := nextTimerId s]> (scheduleIntervals s))
                       (<[nextTimerId s := scheduleName]> (timers s))
                       (S (nextTimerId s)) s, true)).
    { unfold activateSchedule. rewrite Hstored.
      destruct (decide (scheduleName ∈ activeSchedules s));
        [contradiction | reflexivity]. }
    assert (Hnext : (1 <= nextTimerId s)%nat) by apply Hagree.
    subst s2 s1. rewrite Hs1. simpl.
    unfold deactivateSchedule. simpl.
    destruct (decide (scheduleName ∈ {[scheduleName]} ∪ activeSchedules s))
      as [_ | Hno];
      [|exfalso; apply Hno, elem_of_union_l, elem_of_singleton; reflexivity].
    rewrite lookup_insert_eq.
    destruct (nextTimerId s) as [|next] eqn:Hn; [lia|]. simpl.
    split; [reflexivity|]. split; [exact Hfresh|].
    split; [reflexivity|]. split; [reflexivity|].
    split.
    { apply set_eq. intros x.
      rewrite elem_of_difference, elem_of_union, !elem_of_singleton.
      split; [intros [[-> | Hx] Hne]; [contradiction | exact Hx]|].
      intros Hx. split; [right; exact Hx|]. intros ->. contradiction. }
    split; [apply delete_insert_id; exact Hnone|].
    split; [apply delete_insert_id; exact Hfresh | reflexivity].
  - intros Hout. unfold deactivateSchedule.
    destruct (decide (scheduleName ∈ activeSchedules s));
      [contradiction | reflexivity].
Qed.

Lemma activate_then_deactivate_witness :
  let s := perform_all [Create "Morning" [] "now"; Create "Night" [] "now";
                        Activate "Night"] (fresh ∅ ∅) in
  let s2 := fst (deactivateSchedule "Morning"
                   (fst (activateSchedule "Morning" s))) in
  snd (activateSchedule "Morning" s) = true
  /\ activeSchedules s2 = activeSchedules s
  /\ scheduleIntervals s2 = scheduleIntervals s
  /\ timers s2 = timers s
  /\ nextTimerId s2 = S (nextTimerId s).
Proof.
  intros s s2.
  destruct (activate_then_deactivate (fresh ∅ ∅)
              [Create "Morning" [] "now"; Create "Night" [] "now";
               Activate "Night"] "Morning") as [Hmain _].
  - unfold idle. simpl. repeat split; lia.
  - destruct Hmain as (H1 & _ & _ & _ & H5 & H6 & H7 & H8).
    + eexists. reflexivity.
    + vm_compute. intros H. discriminate H.
    + repeat split; assumption.
Defined.

(** Clearing every recorded interval: what is left of the live timers. *)
Lemma clear_recorded (live : gmap nat string) (recorded : gmap string nat) :
  let left := map_fold (fun _ intervalId acc => delete intervalId acc)
                live recorded in
  (forall name intervalId,
     recorded !! name = Some intervalId -> left !! intervalId = None)
  /\ (forall intervalId name,
        left !! intervalId = Some name -> live !! intervalId = Some name)
  /\ (forall intervalId,
        (forall name, recorded !! name <> Some intervalId) ->
        left !! intervalId = live !! intervalId).
Proof.
  cbv zeta.
  apply (map_fold_weak_ind
           (fun (left : gmap nat string) (recorded : gmap string nat) =>
              (forall name intervalId,
                 recorded !! name = Some intervalId ->
                 left !! intervalId = None)
              /\ (forall intervalId name,
                    left !! intervalId = Some name ->
                    live !! intervalId = Some name)
              /\ (forall intervalId,
                    (forall name, recorded !! name <> Some intervalId) ->
                    left !! intervalId = live !! intervalId))).
  - split; [|split].
    + intros name id H. rewrite lookup_empty in H. discriminate.
    + auto.
    + reflexivity.
  - intros key id m r Hfresh (IH1 & IH2 & IH3). split; [|split].
    + intros name id' Hget.
      destruct (decide (id = id')) as [<- | Hne];
        [apply lookup_delete_eq|].
      rewrite lookup_delete_ne by exact Hne.
      destruct (decide (key = name)) as [<- | Hkey].
      * rewrite lookup_insert_eq in Hget. congruence.
      * rewrite lookup_insert_ne in Hget by exact Hkey.
        apply (IH1 name id' Hget).
    + intros id' name Hget.
      destruct (decide (id = id')) as [<- | Hne].
      * rewrite lookup_delete_eq in Hget. discriminate.
      * rewrite lookup_delete_ne in Hget by exact Hne. apply IH2, Hget.
    + intros id' Hnone.
      destruct (decide (id = id')) as [<- | Hne].
      * exfalso. apply (Hnone key). apply lookup_insert_eq.
      * rewrite lookup_delete_ne by exact Hne. apply IH3.
        intros name Hget. apply (Hnone name).
        destruct (decide (key = name)) as [<- | Hkey]; [congruence|].
        rewrite lookup_insert_ne by exact Hkey. exact Hget.
Qed.

(** X16: [cleanup] stops every evaluator.  In any state reached from a
    controller with no active schedule by schedule calls, after [cleanup]
    no interval timer of the controller is live, no schedule is active and
    no interval is recorded, while the stored schedules, the scenes and the
    registry are untouched; the controller is as idle as a new one, and a
    timer that was live before no longer checks anything. *)
Theorem cleanup_stops_every_evaluator (s0 : State) (calls : list Call) :
  idle s0 ->
  let s := perform_all calls s0 in
  timers (cleanup s) = ∅
  /\ idle (cleanup s)
  /\ schedules (cleanup s) = schedules s
  /\ scenes (cleanup s) = scenes s
  /\ lights (cleanup s) = lights s
  /\ (forall intervalId now,
        interval_fires intervalId now (cleanup s) = cleanup s).
Proof.
  intros Hidle s.
  assert (Hagree : tables_agree s)
    by (apply perform_all_tables_agree, idle_tables_agree, Hidle).
  destruct Hagree as (Hnext & _ & Hlive).
  assert (Hempty : timers (cleanup s) = ∅).
  { unfold cleanup. simpl. apply map_empty. intros id.
    destruct (clear_recorded (timers s) (scheduleIntervals s))
      as (Hcleared & Hsub & _).
    match goal with |- ?m !! id = None =>
      destruct (m !! id) as [name|] eqn:Hget; [|reflexivity] end.
    pose proof (Hsub id name Hget) as Hwas.
    destruct (Hlive id name Hwas) as (_ & Hid & _).
    rewrite (Hcleared name id Hid) in Hget. discriminate. }
  split; [exact Hempty|].
  split; [unfold idle; rewrite Hempty; repeat split; exact Hnext|].
  split; [reflexivity|]. split; [reflexivity|]. split; [reflexivity|].
  intros id now. unfold interval_fires. rewrite Hempty, lookup_empty.
  reflexivity.
Qed.

Lemma cleanup_stops_every_evaluator_witness :
  timers (cleanup (perform_all [Create "Morning" [] "now"; Activate "Morning"]
                     (fresh ∅ ∅))) = ∅.
Proof.
  apply (cleanup_stops_every_evaluator (fresh ∅ ∅)
           [Create "Morning" [] "now"; Activate "Morning"]).
  unfold idle. simpl. repeat split; lia.
Defined.

(** X17: deleting a schedule from the UI leaves no evaluator behind.  In
    any state reached from a controller with no active schedule by
    schedule calls, after [deleteSchedule] the schedule is no longer
    stored or active and no live timer checks it, every other schedule is
    stored, active and timed as before, and the schedule tables still
    agree. *)
Theorem deleteSchedule_leaves_no_evaluator (s0 : State) (calls : list Call)
    (scheduleName : string) :
  idle s0 ->
  let s := perform_all calls s0 in
  let s' := deleteSchedule scheduleName s in
  schedules s' !! scheduleName = None
  /\ (scheduleName ∉ activeSchedules s')
  /\ no_evaluator s' scheduleName
  /\ tables_agree s'
  /\ (forall other, other <> scheduleName ->
        schedules s' !! other = schedules s !! other
        /\ (other ∈ activeSchedules s' <-> other ∈ activeSchedules s)
        /\ (forall intervalId,
              (timers s' !! intervalId = Some other)
              <-> (timers s !! intervalId = Some other))).
Proof.
  intros Hidle s s'.
  assert (Hagree : tables_agree s)
    by (apply perform_all_tables_agree, idle_tables_agree, Hidle).
  destruct Hagree as (Hnext & Hactive & Hlive).
  unfold s', deleteSchedule, deactivateSchedule. simpl.
  destruct (decide (scheduleName ∈ activeSchedules s)) as [Hin | Hout].
  - destruct (Hactive scheduleName Hin) as (_ & id & Hid & Htimer).
    destruct (Hlive id scheduleName Htimer) as (_ & _ & Hrange).
    rewrite Hid. destruct id as [|id]; [lia|].
    unfold no_evaluator, tables_agree. simpl.
    assert (Hothers : forall id' name,
              name <> scheduleName ->
              (delete (S id) (timers s) !! id' = Some name
               <-> timers s !! id' = Some name)).
    { intros id' name Hne.
      destruct (decide (S id = id')) as [<- | Hid'].
      - rewrite lookup_delete_eq. split; [discriminate | congruence].
      - rewrite lookup_delete_ne by exact Hid'. reflexivity. }
    split; [apply lookup_delete_eq|].
    split; [rewrite elem_of_difference, elem_of_singleton; tauto|].
    split.
    { intros id' Hget.
      destruct (decide (S id = id')) as [<- | Hid'].
      - rewrite lookup_delete_eq in Hget. discriminate.
      - rewrite lookup_delete_ne in Hget by exact Hid'.
        destruct (Hlive id' scheduleName Hget) as (_ & Hrec & _).
        congruence. }
    split.
    { split; [exact Hnext|]. split.
      - intros name Hname.
        apply elem_of_difference in Hname as [Hname Hne].
        rewrite elem_of_singleton in Hne.
        destruct (Hactive name Hname) as (Hst & id' & Hid' & Htimer').
        split; [rewrite lookup_delete_ne by congruence; exact Hst|].
        exists id'. rewrite lookup_delete_ne by congruence.
        split; [exact Hid'|]. apply Hothers; assumption.
      - intros id' name Hget.
        destruct (decide (S id = id')) as [<- | Hid'].
        + rewrite lookup_delete_eq in Hget. discriminate.
        + rewrite lookup_delete_ne in Hget by exact Hid'.
          destruct (Hlive id' name Hget) as (Hname & Hrec & Hrange').
          assert (Hne : name <> scheduleName) by congruence.
          split; [rewrite elem_of_difference, elem_of_singleton; tauto|].
          split; [rewrite lookup_delete_ne by congruence; exact Hrec|].
          exact Hrange'. }
    intros other Hne.
    split; [apply lookup_delete_ne; congruence|].
    split; [rewrite elem_of_difference, elem_of_singleton; tauto|].
    intros id'. apply Hothers. exact Hne.
  - unfold no_evaluator, tables_agree. simpl.
    split; [apply lookup_delete_eq|]. split; [exact Hout|].
    split.
    { intros id' Hget. apply Hout. apply (Hlive id' scheduleName Hget). }
    split.
    { split; [exact Hnext|]. split; [|exact Hlive].
      intros name Hname.
      destruct (Hactive name Hname) as (Hst & Hrec).
      split; [|exact Hrec].
      rewrite lookup_delete_ne; [exact Hst|]. intros <-. contradiction. }
    intros other Hne.
    split; [apply lookup_delete_ne; congruence|]. split; reflexivity.
Qed.

Lemma deleteSchedule_leaves_no_evaluator_witness :
  schedules (deleteSchedule "Morning"
               (perform_all [Create "Morning" [] "now"; Activate "Morning"]
                  (fresh ∅ ∅))) !! "Morning" = None.
Proof.
  apply (deleteSchedule_leaves_no_evaluator (fresh ∅ ∅)
           [Create "Morning" [] "now"; Activate "Morning"] "Morning").
  unfold idle. simpl. repeat split; lia.
Defined.

(** ** Discovery beyond the claims *)

Section DiscoveryFurther.

Variable decode : string -> option LightObject.

Lemma lights_set_get_eq k v m : lights_get k (lights_set k v m) = Some v.
Proof.
  induction m as [|[k' v'] m IH]; simpl.
  - rewrite Z.eqb_refl. reflexivity.
  - destruct (k' =? k) eqn:E; simpl; [rewrite Z.eqb_refl | rewrite E];
      [reflexivity | exact IH].
Qed.

Lemma lights_set_get_ne k j v m :
  j <> k -> lights_get j (lights_set k v m) = lights_get j m.
Proof.
  intros Hne. induction m as [|[k' v'] m IH]; simpl.
  - destruct (k =? j) eqn:E; [|reflexivity].
    apply Z.eqb_eq in E. congruence.
  - destruct (k' =? k) eqn:E; simpl.
    + apply Z.eqb_eq in E. subst k'.
      destruct (k =? j) eqn:E'; [|reflexivity].
      apply Z.eqb_eq in E'. congruence.
    + rewrite IH. reflexivity.
Qed.

Lemma lights_set_registry_ok k v m :
  l_index v = k -> registry_ok m -> registry_ok (lights_set k v m).
Proof.
  intros Hv [Hnd Hidx]. split; [apply lights_set_keys, Hnd|].
  clear Hnd. induction Hidx as [|[k' v'] m He Hm IH]; simpl.
  - constructor; [exact Hv | constructor].
  - destruct (k' =? k); constructor; assumption.
Qed.

Lemma registry_grows_refl m : registry_grows m m.
Proof. split; auto. Qed.

Lemma registry_grows_trans m1 m2 m3 :
  registry_grows m1 m2 -> registry_grows m2 m3 -> registry_grows m1 m3.
Proof. intros [A1 A2] [B1 B2]. split; auto. Qed.

Lemma registry_grows_set lightObject m :
  registry_grows m (lights_set (lo_index lightObject) (lightData lightObject) m).
Proof.
  split.
  - apply lights_set_registry_ok. reflexivity.
  - intros k Hk. destruct (Z.eq_dec k (lo_index lightObject)) as [-> | Hne].
    + rewrite lights_set_get_eq. eauto.
    + rewrite lights_set_get_ne by exact Hne. exact Hk.
Qed.

Lemma discovery_keeps_refl s : discovery_keeps s s.
Proof. split; [apply registry_grows_refl|]. repeat split. auto. Qed.

Lemma discovery_keeps_trans s1 s2 s3 :
  discovery_keeps s1 s2 -> discovery_keeps s2 s3 -> discovery_keeps s1 s3.
Proof.
  intros (A0 & A1 & A2 & A3 & A4 & A5 & A6) (B0 & B1 & B2 & B3 & B4 & B5 & B6).
  split; [eapply registry_grows_trans; eassumption|].
  repeat split; try congruence. auto.
Qed.

Lemma request_objects_keeps n : forall i d,
  discovery_keeps (controller d) (controller (request_objects n i d)).
Proof.
  induction n as [|n IH]; intros i d; simpl.
  - apply discovery_keeps_refl.
  - eapply discovery_keeps_trans; [|apply IH]. simpl.
    split; [apply registry_grows_refl|]. repeat split. auto.
Qed.

Lemma settle_controller outcome d :
  controller (settle outcome d) = controller d.
Proof. unfold settle. destruct (promise d); reflexivity. Qed.

Lemma run_listener_keeps handler data d :
  discovery_keeps (controller d)
    (controller (run_listener decode handler data d)).
Proof.
  destruct handler as [|i]; simpl.
  - unfold run_lightCountHandler. simpl.
    destruct (parseInt data) as [[|n|n]|].
    + unfold resolve. rewrite settle_controller. simpl.
      split; [apply registry_grows_refl|]. repeat split.
    + match goal with
      | |- discovery_keeps _ (controller (request_objects ?k 0 ?d1)) =>
          apply (request_objects_keeps k 0 d1)
      end.
    + apply discovery_keeps_refl.
    + apply discovery_keeps_refl.
  - unfold run_lightObjectHandler.
    destruct (decode data) as [lightObject|].
    + simpl. destruct (decide _).
      * unfold resolve. rewrite settle_controller. simpl.
        split; [apply registry_grows_set|]. repeat split.
      * simpl. split; [apply registry_grows_set|]. repeat split. auto.
    + simpl. split; [apply registry_grows_refl|]. repeat split. auto.
Qed.

Lemma step_keeps d input :
  discovery_keeps (controller d) (controller (step decode d input)).
Proof.
  destruct input as [tag value|].
  - change (step decode d (Message tag value))
      with (trigger decode tag value d).
    unfold trigger.
    set (d0 := mkDiscovery _ _ _ _ _ _).
    change (controller d) with (controller d0).
    generalize (List.filter (bound_to tag) (listeners d)). intros firing.
    generalize d0. clear d0.
    induction firing as [|e firing IH]; intros d0; simpl.
    + apply discovery_keeps_refl.
    + eapply discovery_keeps_trans; [apply run_listener_keeps | apply IH].
  - change (step decode d TimeoutElapsed) with (timeout_fires d).
    unfold timeout_fires. destruct (timeoutArmed d);
      [|apply discovery_keeps_refl].
    simpl. destruct (isInitialized (controller d)) eqn:Hinit;
      [apply discovery_keeps_refl|].
    unfold reject. rewrite settle_controller. simpl.
    split; [apply registry_grows_refl|]. repeat split. congruence.
Qed.

Lemma run_keeps inputs : forall d,
  discovery_keeps (controller d) (controller (run decode inputs d)).
Proof.
  induction inputs as [|input inputs IH]; intros d.
  - apply discovery_keeps_refl.
  - rewrite run_cons.
    eapply discovery_keeps_trans; [apply step_keeps | apply IH].
Qed.

End DiscoveryFurther.

(** X18: discovery only adds lights to the registry or replaces them.
    Through any run of [initialize], on a new controller or on one that
    was discovered before, a light that is in the registry is never
    removed (so lights that are no longer announced stay), a registry
    that stores every light once under its own index stays that way, and
    the scenes, the schedules and the schedule tables are not touched. *)
Theorem discovery_never_removes_lights
    (decode : string -> option LightObject) (s : State)
    (inputs : list Input) :
  let s' := controller (run decode inputs (initialize s)) in
  (registry_ok (lights s) -> registry_ok (lights s'))
  /\ (forall k, is_Some (lights_get k (lights s)) ->
                is_Some (lights_get k (lights s')))
  /\ scenes s' = scenes s /\ schedules s' = schedules s
  /\ activeSchedules s' = activeSchedules s /\ timers s' = timers s.
Proof.
  intros s'.
  pose proof (run_keeps decode inputs (initialize s))
    as ([Hok Hkeys] & Hsc & Hsd & Hact & _ & Htm & _).
  split; [exact Hok|]. split; [exact Hkeys|]. split; [exact Hsc|].
  split; [exact Hsd|]. split; [exact Hact | exact Htm].
Qed.

Lemma discovery_never_removes_lights_witness :
  is_Some (lights_get 2
             (lights (controller
                        (run sample_decode
                           [Message "GET_LIGHT_COUNT" "1";
                            Message "GET_LIGHT_OBJECT[0]" "{main}"]
                           (initialize sample_ready))))).
Proof.
  apply (discovery_never_removes_lights sample_decode sample_ready
           [Message "GET_LIGHT_COUNT" "1";
            Message "GET_LIGHT_OBJECT[0]" "{main}"]).
  simpl. eauto.
Defined.

Section DiscoverySettlement.

Variable decode : string -> option LightObject.

Lemma step_message d tag value :
  step decode d (Message tag value) = trigger decode tag value d.
Proof. reflexivity. Qed.

Lemma step_timeout d : step decode d TimeoutElapsed = timeout_fires d.
Proof. reflexivity. Qed.

Lemma request_objects_sent n : forall i d,
  sent (controller (request_objects n i d))
  = sent (controller d) ++ map object_tag (seq i n).
Proof.
  induction n as [|n IH]; intros i d; simpl.
  - rewrite app_nil_r. reflexivity.
  - rewrite IH. simpl. rewrite <- app_assoc. reflexivity.
Qed.

(** The state right after the count response, by what the count reads. *)
Lemma count_response s count :
  let d := trigger decode "GET_LIGHT_COUNT" count (initialize s) in
  match parseInt count with
  | Some (Z.pos n) =>
      listeners d = map object_entry (seq 0 (Pos.to_nat n))
      /\ sent (controller d)
         = sent s ++ "GET_LIGHT_COUNT"%string
                     :: map object_tag (seq 0 (Pos.to_nat n))
      /\ promise d = Pending
      /\ receivedCount d = 0%nat
      /\ totalLights d = Some (Z.pos n)
      /\ isInitialized (controller d) = isInitialized s
  | Some 0 =>
      listeners d = [] /\ sent (controller d) = sent s ++ ["GET_LIGHT_COUNT"]
      /\ promise d = Resolved /\ isInitialized (controller d) = true
  | _ =>
      listeners d = [] /\ sent (controller d) = sent s ++ ["GET_LIGHT_COUNT"]
      /\ promise d = Pending
      /\ isInitialized (controller d) = isInitialized s
  end
  /\ timeoutArmed d = true
  /\ lights (controller d) = lights s
  /\ errors (controller d) = errors s.
Proof.
  unfold trigger, initialize. simpl. unfold run_lightCountHandler. simpl.
  destruct (parseInt count) as [[|n|n]|]; simpl.
  - repeat split.
  - match goal with
    | |- context [request_objects ?k 0 ?d1] =>
        destruct (request_objects_frame k 0 d1)
          as (H1 & H2 & H3 & H4 & H5 & H6 & H7 & H8);
        pose proof (request_objects_sent k 0 d1) as H9
    end.
    simpl in *. rewrite H1, H2, H3, H4, H5, H6, H7, H8, H9.
    rewrite <- app_assoc. repeat split.
  - repeat split.
  - repeat split.
Qed.





End DiscoverySettlement.







Section DiscoveryAccounting.

Variable decode : string -> option LightObject.

Lemma object_handlers_entries (js : list nat) :
  Forall is_object_handler (map object_entry js).
Proof. induction js as [|j js IH]; constructor; [exact I | exact IH]. Qed.

Lemma settle_fields outcome d :
  controller (settle outcome d) = controller d
  /\ listeners (settle outcome d) = listeners d
  /\ receivedCount (settle outcome d) = receivedCount d
  /\ totalLights (settle outcome d) = totalLights d
  /\ timeoutArmed (settle outcome d) = timeoutArmed d
  /\ (promise (settle outcome d) = promise d
      \/ promise d = Pending /\ promise (settle outcome d) = outcome).
Proof.
  unfold settle. destruct (promise d) eqn:E; simpl; rewrite ?E; auto 10.
Qed.

(** Running object handlers keeps the accounting. *)
Lemma progress_fold data firing : forall d,
  Forall is_object_handler firing ->
  progress_with (length firing) d ->
  progress_with 0 (fold_left (fun acc e => run_listener decode (snd e) data acc)
                     firing d)
  /\ totalLights (fold_left (fun acc e => run_listener decode (snd e) data acc)
                    firing d) = totalLights d.
Proof.
  induction firing as [|[tag handler] firing IH]; intros d Hobj Hd; simpl.
  - split; [exact Hd | reflexivity].
  - inversion Hobj as [|? ? Hhead Htail]; subst.
    destruct handler as [|i]; [destruct Hhead|].
    destruct Hd as (Hl & Hres & Hneed).
    destruct Hneed as (total & Htotal & Hle); [simpl; lia|].
    assert (Hp : promise d <> Resolved).
    { intros Hr. destruct (Hres Hr) as (_ & _ & H0). simpl in H0. lia. }
    simpl in Hle.
    assert (Hnext : progress_with (length firing)
                      (run_lightObjectHandler decode i data d)
                    /\ totalLights (run_lightObjectHandler decode i data d)
                       = totalLights d).
    { unfold run_lightObjectHandler.
      destruct (decode data) as [lightObject|]; simpl.
      - rewrite Htotal.
        destruct (decide (Some (Z.of_nat (S (receivedCount d))) = Some total))
          as [Heq | Hne].
        + injection Heq as Heq.
          match goal with
          | |- progress_with _ (resolve ?d1) /\ _ =>
              destruct (settle_fields Resolved d1)
                as (Hc & Hls & Hrc & Htl & _ & Hpr)
          end.
          unfold resolve. simpl in *. unfold progress_with.
          rewrite Hc, Hls, Hrc, Htl. simpl.
          split; [|reflexivity].
          split; [exact Hl|]. split.
          * intros _. split; [congruence|]. split; [reflexivity | lia].
          * intros Hsome. exfalso. lia.
        + unfold progress_with. simpl. split; [|reflexivity].
          split; [exact Hl|]. split; [intros Hr; contradiction|].
          intros _. exists total. split; [reflexivity|].
          assert (Z.of_nat (S (receivedCount d)) <> total) by congruence.
          lia.
      - unfold progress_with. simpl. split; [|reflexivity].
        split; [exact Hl|]. split; [intros Hr; contradiction|].
        intros _. exists total. split; [exact Htotal | lia]. }
    destruct Hnext as [Hnext Hsame].
    destruct (IH _ Htail Hnext) as [H1 H2].
    split; [exact H1 | rewrite <- Hsame; exact H2].
Qed.

Lemma progress_step d input :
  progress_with 0 d ->
  progress_with 0 (step decode d input)
  /\ totalLights (step decode d input) = totalLights d.
Proof.
  intros Hd. destruct input as [tag value|].
  - rewrite step_message. unfold trigger.
    destruct Hd as (Hl & Hres & Hneed).
    pose proof (filter_split_length (bound_to tag) (listeners d)) as Hsplit.
    match goal with
    | |- progress_with 0 (fold_left ?f ?firing ?d1) /\ _ =>
        destruct (progress_fold value firing d1) as [H1 H2]
    end.
    + apply Forall_filter, Hl.
    + split; [apply Forall_filter; exact Hl|]. simpl. split.
      * intros Hr. destruct (Hres Hr) as (Ht & Hi & H0).
        split; [exact Ht|]. split; [exact Hi | lia].
      * intros Hsome. destruct Hneed as (total & Htotal & Hle); [lia|].
        exists total. split; [exact Htotal | lia].
    + split; [exact H1 | exact H2].
  - rewrite step_timeout. destruct Hd as (Hl & Hres & Hneed).
    unfold timeout_fires.
    destruct (timeoutArmed d); [|split; [exact (conj Hl (conj Hres Hneed))
                                        | reflexivity]].
    simpl. destruct (isInitialized (controller d)) eqn:Hinit.
    + split; [|reflexivity]. unfold progress_with. simpl.
      split; [exact Hl|]. split; [rewrite Hinit; exact Hres | exact Hneed].
    + match goal with
      | |- progress_with 0 (reject _ ?d1) /\ _ =>
          destruct (settle_fields (Rejected "INIT_TIMEOUT") d1)
            as (Hc & Hls & Hrc & Htl & _ & Hpr)
      end.
      unfold reject. simpl in *. split; [|exact Htl].
      unfold progress_with. rewrite Hc, Hls, Hrc, Htl. simpl.
      split; [exact Hl|]. split; [|exact Hneed].
      intros Hr. destruct Hpr as [Hpr | [_ Hpr]]; [|congruence].
      rewrite Hpr in Hr. destruct (Hres Hr) as (_ & Hcontra & _).
      congruence.
Qed.

Lemma awaiting_count_step d input :
  awaiting_count d ->
  awaiting_count (step decode d input)
  \/ progress_with 0 (step decode d input)
     /\ exists count, input = Message "GET_LIGHT_COUNT" count
          /\ totalLights (step decode d input) = parseInt count.
Proof.
  intros (Hl & Hp). destruct input as [tag value|].
  - rewrite step_message.
    destruct (String.eqb "GET_LIGHT_COUNT" tag) eqn:Htag.
    + right. apply String.eqb_eq in Htag. subst tag.
      split; [|exists value; split; [reflexivity|]];
        unfold trigger; rewrite Hl; simpl;
        unfold run_lightCountHandler; simpl.
      * destruct (parseInt value) as [[|n|n]|].
        -- match goal with
           | |- progress_with 0 (resolve ?d1) =>
               destruct (settle_fields Resolved d1)
                 as (Hc & Hls & Hrc & Htl & _ & Hpr)
           end.
           unfold resolve. simpl in *. unfold progress_with.
           rewrite Hc, Hls, Hrc, Htl. simpl.
           split; [constructor|]. split; [|intros H0; exfalso; lia].
           intros _. repeat split.
        -- match goal with
           | |- progress_with 0 (request_objects ?k 0 ?d1) =>
               destruct (request_objects_frame k 0 d1)
                 as (H1 & H2 & H3 & H4 & _ & H6 & _ & _)
           end.
           simpl in *. unfold progress_with. rewrite H1, H2, H3, H4, H6.
           split; [apply object_handlers_entries|].
           split; [intros Hr; contradiction|].
           intros _. exists (Z.pos n). rewrite length_map, length_seq.
           split; [reflexivity | lia].
        -- unfold progress_with. simpl.
           split; [constructor|].
           split; [intros Hr; contradiction | intros H0; exfalso; lia].
        -- unfold progress_with. simpl.
           split; [constructor|].
           split; [intros Hr; contradiction | intros H0; exfalso; lia].
      * destruct (parseInt value) as [[|n|n]|]; simpl.
        -- match goal with
           | |- totalLights (resolve ?d1) = _ =>
               destruct (settle_fields Resolved d1) as (_ & _ & _ & Htl & _)
           end.
           exact Htl.
        -- match goal with
           | |- totalLights (request_objects ?k 0 ?d1) = _ =>
               destruct (request_objects_frame k 0 d1)
                 as (_ & _ & _ & H4 & _)
           end.
           exact H4.
        -- reflexivity.
        -- reflexivity.
    + left. rewrite trigger_unheard; [split; assumption|].
      rewrite Hl. intros entry [<- | []]. simpl.
      apply String.eqb_neq. exact Htag.
  - left. rewrite step_timeout. unfold timeout_fires, awaiting_count.
    destruct (timeoutArmed d); simpl; [|split; assumption].
    destruct (isInitialized (controller d)); simpl; [split; assumption|].
    unfold reject.
    split; [unfold settle; destruct (promise _); exact Hl|].
    apply settle_not_resolved; [discriminate | exact Hp].
Qed.

(** The two phases of a discovery pass, with the count response that
    started the second. *)
Lemma discovery_accounting inputs : forall s,
  let d := run decode inputs (initialize s) in
  awaiting_count d
  \/ progress_with 0 d
     /\ exists count, In (Message "GET_LIGHT_COUNT" count) inputs
          /\ totalLights d = parseInt count.
Proof.
  induction inputs as [|input inputs IH] using rev_ind; intros s d.
  - left. split; [reflexivity | discriminate].
  - unfold d. rewrite run_app. simpl.
    change (fold_left (step decode) inputs (initialize s))
      with (run decode inputs (initialize s)).
    destruct (IH s) as [Hc | (Hp & count & Hin & Htotal)].
    + destruct (awaiting_count_step _ input Hc)
        as [Hc' | (Hp' & count & -> & Htotal)]; [left; exact Hc'|].
      right. split; [exact Hp'|]. exists count.
      split; [apply in_or_app; right; left; reflexivity | exact Htotal].
    + destruct (progress_step _ input Hp) as [Hp' Hsame].
      right. split; [exact Hp'|]. exists count.
      split; [apply in_or_app; left; exact Hin | congruence].
Qed.

(** A rejection carries INIT_TIMEOUT and comes from the timer firing on a
    controller that is not initialized. *)
Lemma rejection_source inputs : forall d reason,
  promise (run decode inputs d) = Rejected reason ->
  promise d = Rejected reason
  \/ reason = "INIT_TIMEOUT"%string /\ In TimeoutElapsed inputs
     /\ isInitialized (controller d) = false.
Proof.
  induction inputs as [|input inputs IH]; intros d reason Hr;
    [left; exact Hr|].
  rewrite run_cons in Hr.
  destruct (IH _ _ Hr) as [Hstep | (Hreason & Hin & Hinit)].
  - destruct input as [tag value|].
    + rewrite step_message in Hstep.
      destruct (trigger_frame decode tag value d) as (_ & Hpr & _).
      destruct Hpr as [Hpr | [_ Hpr]]; [left | ]; congruence.
    + rewrite step_timeout in Hstep. unfold timeout_fires in Hstep.
      destruct (timeoutArmed d); [|left; exact Hstep].
      simpl in Hstep.
      destruct (isInitialized (controller d)) eqn:Hinit;
        [left; exact Hstep|].
      match type of Hstep with
      | promise (reject _ ?d1) = _ =>
          destruct (settle_fields (Rejected "INIT_TIMEOUT") d1)
            as (_ & _ & _ & _ & _ & Hpr)
      end.
      unfold reject in Hstep. simpl in Hpr.
      destruct Hpr as [Hpr | [_ Hpr]]; [left; congruence|].
      right. split; [congruence|]. split; [left; reflexivity | reflexivity].
  - right. split; [exact Hreason|]. split; [right; exact Hin|].
    destruct (isInitialized (controller d)) eqn:Hd; [|reflexivity].
    destruct (step_keeps decode d input) as (_ & _ & _ & _ & _ & _ & Hkeep).
    rewrite Hkeep in Hinit by exact Hd. discriminate.
Qed.

End DiscoveryAccounting.

(** X22: [initialize]'s promise resolves only when discovery is complete.
    Whatever the controller held and whatever messages and timer events
    follow, if the promise is resolved then a count response arrived whose
    count was read as a number, exactly as many object responses were
    decoded as it announced, no handler is left bound, and the controller
    is marked initialized. *)
Theorem resolution_means_complete (decode : string -> option LightObject)
    (s : State) (inputs : list Input) :
  promise (run decode inputs (initialize s)) = Resolved ->
  isInitialized (controller (run decode inputs (initialize s))) = true
  /\ listeners (run decode inputs (initialize s)) = []
  /\ exists count,
       In (Message "GET_LIGHT_COUNT" count) inputs
       /\ parseInt count
          = Some (Z.of_nat (receivedCount (run decode inputs (initialize s)))).
Proof.
  intros Hr.
  destruct (discovery_accounting decode inputs s)
    as [(_ & Hp) | ((_ & Hres & _) & count & Hin & Htotal)];
    [contradiction|].
  destruct (Hres Hr) as (Ht & Hi & H0).
  split; [exact Hi|]. split.
  - destruct (listeners _); [reflexivity | simpl in H0; lia].
  - exists count. split; [exact Hin | congruence].
Qed.

Lemma resolution_means_complete_witness :
  isInitialized (controller sample_discovery) = true
  /\ listeners sample_discovery = []
  /\ exists count,
       In (Message "GET_LIGHT_COUNT" count)
         [Message "GET_LIGHT_COUNT" "2";
          Message "GET_LIGHT_OBJECT[0]" "{main}";
          Message "GET_LIGHT_OBJECT[1]" "{porch}"]
       /\ parseInt count = Some (Z.of_nat (receivedCount sample_discovery)).
Proof.
  apply (resolution_means_complete sample_decode (fresh ∅ ∅)
           [Message "GET_LIGHT_COUNT" "2";
            Message "GET_LIGHT_OBJECT[0]" "{main}";
            Message "GET_LIGHT_OBJECT[1]" "{porch}"]).
  reflexivity.
Defined.

(** X23: what can reject the promise of [initialize].  On a page without
    [sendWSData], or with it but without [parserUtils], the promise is
    rejected at once with the reason naming the missing dependency, and
    nothing is bound, sent or timed: whatever arrives later changes
    nothing.  On a page with both, the promise is rejected only by the
    timer: the reason is INIT_TIMEOUT, the timer fired, and the controller
    was not initialized when [initialize] was called; so calling
    [initialize] again on an initialized controller never rejects. *)
Theorem initialize_rejection_causes (decode : string -> option LightObject)
    (page : Globals) (s : State) (inputs : list Input) :
  let d := run decode inputs (initialize_on page s) in
  (has_sendWSData page = false ->
     d = mkDiscovery s (Rejected "sendWSData function not available")
           [] 0 None false)
  /\ (has_sendWSData page = true -> has_parserUtils page = false ->
      d = mkDiscovery s (Rejected "parserUtils object not available")
            [] 0 None false)
  /\ (has_sendWSData page = true -> has_parserUtils page = true ->
      d = run decode inputs (initialize s))
  /\ (forall reason, promise d = Rejected reason ->
        (reason = "sendWSData function not available"%string
         /\ has_sendWSData page = false)
        \/ (reason = "parserUtils object not available"%string
            /\ has_sendWSData page = true /\ has_parserUtils page = false)
        \/ (reason = "INIT_TIMEOUT"%string
            /\ has_sendWSData page = true /\ has_parserUtils page = true
            /\ In TimeoutElapsed inputs
            /\ isInitialized s = false)).
Proof.
  intros d.
  assert (Hquiet : forall d0, listeners d0 = [] -> timeoutArmed d0 = false ->
            run decode inputs d0 = d0).
  { induction inputs as [|input rest IH]; intros d0 Hl Ht; [reflexivity|].
    rewrite run_cons. destruct input as [tag value|].
    - rewrite step_message, trigger_unheard; [apply IH; assumption|].
      rewrite Hl. intros entry [].
    - rewrite step_timeout. unfold timeout_fires. rewrite Ht.
      apply IH; assumption. }
  assert (Hmissing : has_sendWSData page = false ->
            d = mkDiscovery s (Rejected "sendWSData function not available")
                  [] 0 None false).
  { intros Hsend. unfold d, initialize_on. rewrite Hsend. simpl.
    apply Hquiet; reflexivity. }
  assert (Hparser : has_sendWSData page = true ->
            has_parserUtils page = false ->
            d = mkDiscovery s (Rejected "parserUtils object not available")
                  [] 0 None false).
  { intros Hsend Hpars. unfold d, initialize_on. rewrite Hsend, Hpars. simpl.
    apply Hquiet; reflexivity. }
  assert (Hboth : has_sendWSData page = true -> has_parserUtils page = true ->
            d = run decode inputs (initialize s)).
  { intros Hsend Hpars. unfold d, initialize_on. rewrite Hsend, Hpars.
    reflexivity. }
  split; [exact Hmissing|]. split; [exact Hparser|]. split; [exact Hboth|].
  intros reason Hr.
  destruct (has_sendWSData page) eqn:Hsend.
  - destruct (has_parserUtils page) eqn:Hpars.
    + right. right. rewrite (Hboth eq_refl eq_refl) in Hr.
      destruct (rejection_source decode inputs (initialize s) reason Hr)
        as [Hcontra | (H1 & H2 & H3)]; [discriminate Hcontra|].
      repeat split; assumption.
    + right. left. rewrite (Hparser eq_refl eq_refl) in Hr. simpl in Hr.
      split; [congruence | split; reflexivity].
  - left. rewrite (Hmissing eq_refl) in Hr. simpl in Hr.
    split; [congruence | reflexivity].
Qed.

Lemma initialize_rejection_causes_witness :
  run sample_decode [Message "GET_LIGHT_COUNT" "2"; TimeoutElapsed]
    (initialize_on (mkGlobals false true) (fresh ∅ ∅))
  = mkDiscovery (fresh ∅ ∅) (Rejected "sendWSData function not available")
      [] 0 None false.
Proof.
  apply (initialize_rejection_causes sample_decode (mkGlobals false true)
           (fresh ∅ ∅) [Message "GET_LIGHT_COUNT" "2"; TimeoutElapsed]).
  reflexivity.
Defined.

(** With both dependencies present and two lights announced but never
    described, the timer rejects with INIT_TIMEOUT. *)
Example initialize_times_out :
  promise (run sample_decode [Message "GET_LIGHT_COUNT" "2"; TimeoutElapsed]
             (initialize_on (mkGlobals true true) (fresh ∅ ∅)))
  = Rejected "INIT_TIMEOUT".
Proof. reflexivity. Qed.



(** ** Discovery: object responses in any order *)

Lemma string_app_inj_r (t : string) : forall s1 s2 : string,
  s1 +:+ t = s2 +:+ t -> s1 = s2.
Proof.
  induction s1 as [|a s1 IH]; intros [|b s2] H.
  - reflexivity.
  - exfalso. apply (f_equal String.length) in H.
    rewrite !string_length_append in H. simpl in H. lia.
  - exfalso. apply (f_equal String.length) in H.
    rewrite !string_length_append in H. simpl in H. lia.
  - change (String a (s1 +:+ t) = String b (s2 +:+ t)) in H.
    assert (Ha : a = b) by congruence.
    assert (Hs : s1 +:+ t = s2 +:+ t) by congruence.
    rewrite Ha, (IH s2 Hs). reflexivity.
Qed.

Lemma string_app_inj_l (p : string) : forall s1 s2 : string,
  p +:+ s1 = p +:+ s2 -> s1 = s2.
Proof.
  induction p as [|a p IH]; intros s1 s2 H; [exact H|].
  change (String a (p +:+ s1) = String a (p +:+ s2)) in H.
  apply IH. congruence.
Qed.

Lemma toString10_inj (i j : nat) : toString10 i = toString10 j -> i = j.
Proof.
  unfold toString10. intros H.
  apply (f_equal DecimalString.NilEmpty.uint_of_string) in H.
  rewrite !DecimalString.NilEmpty.usu in H.
  assert (Hu : Nat.to_uint i = Nat.to_uint j) by congruence.
  apply (f_equal Nat.of_uint) in Hu.
  rewrite !DecimalNat.Unsigned.of_to in Hu. exact Hu.
Qed.

(** Distinct objects are requested under distinct names. *)
Lemma object_tag_inj (i j : nat) : object_tag i = object_tag j -> i = j.
Proof.
  unfold object_tag. intros H.
  apply toString10_inj, (string_app_inj_r "]").
  apply (string_app_inj_l "GET_LIGHT_OBJECT["). exact H.
Qed.

Lemma bound_to_object_entry (i j : nat) :
  bound_to (object_tag i) (object_entry j) = Nat.eqb i j.
Proof.
  change (String.eqb (object_tag j) (object_tag i) = Nat.eqb i j).
  destruct (Nat.eqb_spec i j) as [-> | Hne].
  - apply String.eqb_refl.
  - apply String.eqb_neq. intros H. apply Hne. symmetry.
    apply object_tag_inj, H.
Qed.

Lemma filter_bound_entries (i : nat) (js : list nat) :
  List.filter (bound_to (object_tag i)) (map object_entry js)
  = map object_entry (List.filter (Nat.eqb i) js)
  /\ List.filter (fun e => negb (bound_to (object_tag i) e))
       (map object_entry js)
     = map object_entry (List.filter (fun j => negb (Nat.eqb i j)) js).
Proof.
  induction js as [|j js [IH1 IH2]]; [split; reflexivity|].
  simpl. rewrite bound_to_object_entry, IH1, IH2.
  destruct (Nat.eqb i j); split; reflexivity.
Qed.

Lemma filter_eqb_absent (i : nat) (js : list nat) :
  ~ In i js -> List.filter (Nat.eqb i) js = [].
Proof.
  induction js as [|j js IH]; intros Hno; [reflexivity|]. simpl.
  destruct (Nat.eqb_spec i j) as [-> | Hne].
  - exfalso. apply Hno. left. reflexivity.
  - apply IH. intros H. apply Hno. right. exact H.
Qed.

Lemma filter_eqb_NoDup (i : nat) (js : list nat) :
  List.NoDup js -> In i js ->
  List.filter (Nat.eqb i) js = [i]
  /\ S (length (List.filter (fun j => negb (Nat.eqb i j)) js)) = length js.
Proof.
  induction 1 as [|j js Hj Hnd IH]; intros Hin; [destruct Hin|]. simpl.
  destruct (Nat.eqb_spec i j) as [-> | Hne]; simpl.
  - rewrite (filter_eqb_absent j js Hj). split; [reflexivity|].
    f_equal. clear IH Hin Hnd. induction js as [|k js IHjs]; [reflexivity|].
    simpl. destruct (Nat.eqb_spec j k) as [-> | Hk].
    + exfalso. apply Hj. left. reflexivity.
    + simpl. f_equal. apply IHjs. intros H. apply Hj. right. exact H.
  - destruct Hin as [Hin | Hin]; [congruence|].
    destruct (IH Hin) as [H1 H2]. split; [exact H1 | lia].
Qed.

Lemma filter_others_NoDup (i : nat) (js : list nat) :
  List.NoDup js -> List.NoDup (List.filter (fun j => negb (Nat.eqb i j)) js).
Proof.
  induction 1 as [|j js Hj Hnd IH]; simpl; [constructor|].
  destruct (Nat.eqb i j); simpl; [exact IH|].
  constructor; [|exact IH]. intros H. apply Hj.
  apply List.filter_In in H. apply H.
Qed.

Lemma filter_others_In (i j : nat) (js : list nat) :
  In j (List.filter (fun k => negb (Nat.eqb i k)) js) <-> (In j js /\ i <> j).
Proof.
  rewrite List.filter_In. split; intros [H1 H2]; (split; [exact H1|]).
  - intros ->. rewrite Nat.eqb_refl in H2. discriminate.
  - apply Bool.negb_true_iff, Nat.eqb_neq. exact H2.
Qed.

Section DiscoveryAnyOrder.

Variable decode : string -> option LightObject.

(** One awaited object response arrives and decodes. *)
Lemma awaiting_hit indices total d i value lightObject :
  awaiting indices total d ->
  In i indices ->
  decode value = Some lightObject ->
  let d' := trigger decode (object_tag i) value d in
  let others := List.filter (fun j => negb (Nat.eqb i j)) indices in
  is_Some (lights_get (lo_index lightObject) (lights (controller d')))
  /\ (others = [] -> settled d')
  /\ (others <> [] -> awaiting others total d').
Proof.
  intros (Hl & Hnd & Hne & Htotal & Hcount & Hp) Hin Hdec d' others.
  destruct (filter_bound_entries i indices) as [Hf1 Hf2].
  destruct (filter_eqb_NoDup i indices Hnd Hin) as [Hone Hlen].
  fold others in Hf2, Hlen.
  assert (Hd' : d' = run_lightObjectHandler decode i value
                       (mkDiscovery (controller d) (promise d)
                          (map object_entry others) (receivedCount d)
                          (totalLights d) (timeoutArmed d))).
  { unfold d', trigger. rewrite Hl, Hf1, Hf2, Hone. reflexivity. }
  rewrite Hd'. unfold run_lightObjectHandler. rewrite Hdec. simpl.
  rewrite Htotal.
  destruct (decide (Some (Z.of_nat (S (receivedCount d)))
                    = Some (Z.of_nat total))) as [Heq | Hneq].
  - assert (Hnone : others = []).
    { assert (S (receivedCount d) = total) by (injection Heq; lia).
      destruct others; [reflexivity | simpl in Hlen; lia]. }
    unfold resolve, settle. simpl. rewrite Hp. simpl.
    split; [rewrite lights_set_get_eq; eexists; reflexivity|].
    split; [|intros H; contradiction].
    intros _. rewrite Hnone. repeat split.
  - assert (Hsome : others <> []).
    { intros Hnone. rewrite Hnone in Hlen. simpl in Hlen.
      apply Hneq. f_equal. lia. }
    simpl.
    split; [rewrite lights_set_get_eq; eexists; reflexivity|].
    split; [intros H; contradiction|].
    intros _. unfold awaiting. simpl.
    split; [reflexivity|].
    split; [apply filter_others_NoDup, Hnd|].
    split; [exact Hsome|]. split; [reflexivity|].
    split; [lia | exact Hp].
Qed.

Lemma awaiting_miss indices total d tag value :
  awaiting indices total d ->
  (forall j, In j indices -> tag <> object_tag j) ->
  trigger decode tag value d = d.
Proof.
  intros (Hl & _) Hmiss. apply trigger_unheard. rewrite Hl.
  intros entry Hin. apply in_map_iff in Hin. destruct Hin as (j & <- & Hj).
  simpl. intros H. apply (Hmiss j Hj). symmetry. exact H.
Qed.

Lemma registry_key_kept inputs d k :
  is_Some (lights_get k (lights (controller d))) ->
  is_Some (lights_get k (lights (controller (run decode inputs d)))).
Proof.
  intros Hk. destruct (run_keeps decode inputs d) as ((_ & Hgrow) & _).
  apply Hgrow, Hk.
Qed.

Lemma awaiting_run responses : forall indices total d,
  awaiting indices total d ->
  Forall (well_formed_response decode) responses ->
  (forall i, In i indices ->
     exists value, In (Message (object_tag i) value) responses) ->
  settled (run decode responses d)
  /\ forall i, In i indices ->
       exists value lightObject,
         In (Message (object_tag i) value) responses
         /\ decode value = Some lightObject
         /\ is_Some (lights_get (lo_index lightObject)
                       (lights (controller (run decode responses d)))).
Proof.
  induction responses as [|input responses IH];
    intros indices total d Hd Hwf Hall.
  - exfalso. destruct Hd as (_ & _ & Hne & _).
    destruct indices as [|i indices]; [apply Hne; reflexivity|].
    destruct (Hall i) as (value & []). left. reflexivity.
  - inversion Hwf as [|? ? Hhead Htail]; subst.
    destruct input as [tag value|]; [|destruct Hhead].
    simpl in Hhead. rewrite run_cons, step_message.
    destruct (existsb (fun j => String.eqb (object_tag j) tag) indices)
      eqn:Hhit.
    + apply existsb_exists in Hhit. destruct Hhit as (i & Hi & Htag).
      apply String.eqb_eq in Htag. subst tag.
      destruct (Hhead i eq_refl) as [lightObject Hdec].
      destruct (awaiting_hit indices total d i value lightObject Hd Hi Hdec)
        as (Hkey & Hlast & Hmore).
      set (d' := trigger decode (object_tag i) value d) in *.
      assert (Hself : exists value0 lightObject0,
                 In (Message (object_tag i) value0)
                    (Message (object_tag i) value :: responses)
                 /\ decode value0 = Some lightObject0
                 /\ is_Some (lights_get (lo_index lightObject0)
                               (lights (controller (run decode responses d'))))).
      { exists value, lightObject. split; [left; reflexivity|].
        split; [exact Hdec|]. apply registry_key_kept, Hkey. }
      destruct (List.filter (fun j => negb (i =? j)%nat) indices)
        as [|o others'] eqn:Hothers.
      * split; [apply settled_run, Hlast; reflexivity|].
        intros j Hj. destruct (Nat.eq_dec i j) as [<- | Hne]; [exact Hself|].
        exfalso.
        assert (Hin : In j (List.filter (fun k => negb (i =? k)%nat) indices))
          by (apply filter_others_In; split; assumption).
        rewrite Hothers in Hin. destruct Hin.
      * assert (Hd' : awaiting (o :: others') total d')
          by (apply Hmore; discriminate).
        destruct (IH (o :: others') total d' Hd' Htail) as [Hs Hkeys].
        { intros j Hj. rewrite <- Hothers in Hj.
          apply filter_others_In in Hj. destruct Hj as [Hj Hne].
          destruct (Hall j Hj) as (v & [Hv | Hv]); [|exists v; exact Hv].
          exfalso. apply Hne. apply object_tag_inj. congruence. }
        split; [exact Hs|].
        intros j Hj. destruct (Nat.eq_dec i j) as [<- | Hne]; [exact Hself|].
        destruct (Hkeys j) as (v & lo & Hv & Hlo & Hk).
        { rewrite <- Hothers. apply filter_others_In. split; assumption. }
        exists v, lo. split; [right; exact Hv|]. split; assumption.
    + assert (Hmiss : forall j, In j indices -> tag <> object_tag j).
      { intros j Hj Htag.
        assert (Hex : existsb (fun j => String.eqb (object_tag j) tag) indices
                      = true).
        { apply existsb_exists. exists j. split; [exact Hj|].
          apply String.eqb_eq. symmetry. exact Htag. }
        congruence. }
      rewrite (awaiting_miss indices total d tag value Hd Hmiss).
      destruct (IH indices total d Hd Htail) as [Hs Hkeys].
      { intros j Hj. destruct (Hall j Hj) as (v & [Hv | Hv]);
          [|exists v; exact Hv].
        exfalso. apply (Hmiss j Hj). congruence. }
      split; [exact Hs|].
      intros j Hj. destruct (Hkeys j Hj) as (v & lo & Hv & Hlo & Hk).
      exists v, lo. split; [right; exact Hv|]. split; assumption.
Qed.

End DiscoveryAnyOrder.

(** X25: discovery completes whatever the order of the object responses.
    After a count response announcing n > 0 lights, if no timer event
    occurs among the following messages, every object response among them
    decodes, and each of the n requested objects is answered at least
    once, then — in any order, and with any other messages in between —
    the promise resolves, no handler is left bound, the controller is
    initialized, and for each requested object the registry holds an
    entry under the index of a response that answered it. *)
Theorem discovery_completes_in_any_order
    (decode : string -> option LightObject) (s : State) (count : string)
    (n : positive) (responses : list Input) :
  parseInt count = Some (Z.pos n) ->
  Forall (well_formed_response decode) responses ->
  (forall i, (i < Pos.to_nat n)%nat ->
     exists value, In (Message (object_tag i) value) responses) ->
  settled (run decode (Message "GET_LIGHT_COUNT" count :: responses)
             (initialize s))
  /\ forall i, (i < Pos.to_nat n)%nat ->
       exists value lightObject,
         In (Message (object_tag i) value) responses
         /\ decode value = Some lightObject
         /\ is_Some
              (lights_get (lo_index lightObject)
                 (lights (controller
                    (run decode (Message "GET_LIGHT_COUNT" count :: responses)
                       (initialize s))))).
Proof.
  intros Hcount Hwf Hall. rewrite run_cons, step_message.
  pose proof (count_response decode s count) as H. cbv zeta in H.
  rewrite Hcount in H.
  destruct H as ((Hl & _ & Hp & Hrc & Htl & _) & _).
  set (d1 := trigger decode "GET_LIGHT_COUNT" count (initialize s)) in *.
  assert (Hd1 : awaiting (seq 0 (Pos.to_nat n)) (Pos.to_nat n) d1).
  { split; [exact Hl|]. split; [apply List.seq_NoDup|]. split.
    - destruct (Pos.to_nat n) eqn:E; [lia | discriminate].
    - split; [rewrite Htl, positive_nat_Z; reflexivity|].
      split; [rewrite Hrc, length_seq; reflexivity | exact Hp]. }
  destruct (awaiting_run decode responses _ _ d1 Hd1 Hwf) as [Hs Hkeys].
  - intros i Hi. apply in_seq in Hi. apply Hall. lia.
  - split; [exact Hs|]. intros i Hi. apply Hkeys, in_seq. lia.
Qed.

Lemma discovery_completes_in_any_order_witness :
  settled (run sample_decode
             (Message "GET_LIGHT_COUNT" "2"
              :: [Message "GET_LIGHT_OBJECT[1]" "{porch}";
                  Message "PIN" "1";
                  Message "GET_LIGHT_OBJECT[0]" "{main}"])
             (initialize (fresh ∅ ∅))).
Proof.
  apply (discovery_completes_in_any_order sample_decode (fresh ∅ ∅) "2"
           2%positive
           [Message "GET_LIGHT_OBJECT[1]" "{porch}";
            Message "PIN" "1";
            Message "GET_LIGHT_OBJECT[0]" "{main}"]).
  - reflexivity.
  - repeat constructor; intros i Hi; simpl;
      try (eexists; reflexivity).
    exfalso. unfold object_tag in Hi. simpl in Hi. discriminate Hi.
  - intros [|[|i]] Hi.
    + exists "{main}"%string. right. right. left. reflexivity.
    + exists "{porch}"%string. left. reflexivity.
    + exfalso. change (Pos.to_nat 2) with 2%nat in Hi. lia.
Defined.

(** ** Configuration export and import *)

Section ImportLoop.

Context {A : Type}.
Variable name_of : A -> string.

Lemma import_by_cons (x : A) (imported : list A) (m : gmap string A) :
  import_by name_of (x :: imported) m
  = import_by name_of imported
      (if String.eqb (name_of x) EmptyString then m else <[name_of x := x]> m).
Proof. reflexivity. Qed.

Lemma import_other imported : forall m key,
  (forall x, In x imported -> name_of x <> key) ->
  import_by name_of imported m !! key = m !! key.
Proof.
  induction imported as [|x imported IH]; intros m key Hno; [reflexivity|].
  rewrite import_by_cons.
  assert (Hrest : forall y, In y imported -> name_of y <> key)
    by (intros y Hy; apply Hno; right; exact Hy).
  destruct (String.eqb (name_of x) EmptyString); [apply IH, Hrest|].
  rewrite IH by exact Hrest.
  apply lookup_insert_ne, Hno. left. reflexivity.
Qed.

Lemma import_named imported : forall m x,
  List.NoDup (map name_of imported) -> In x imported ->
  name_of x <> EmptyString ->
  import_by name_of imported m !! name_of x = Some x.
Proof.
  induction imported as [|y imported IH]; intros m x Hnd Hin Hname;
    [destruct Hin|].
  inversion Hnd as [|? ? Hfresh Hnd']; subst.
  rewrite import_by_cons.
  destruct Hin as [-> | Hin].
  - apply String.eqb_neq in Hname. rewrite Hname.
    rewrite import_other; [apply lookup_insert_eq|].
    intros z Hz Heq. apply Hfresh. rewrite <- Heq.
    apply in_map, Hz.
  - apply IH; assumption.
Qed.

Lemma import_keyed imported : forall m,
  (forall key x, m !! key = Some x -> name_of x = key /\ key <> EmptyString) ->
  forall key x, import_by name_of imported m !! key = Some x ->
                name_of x = key /\ key <> EmptyString.
Proof.
  induction imported as [|y imported IH]; intros m Hm; [exact Hm|].
  rewrite import_by_cons.
  destruct (String.eqb (name_of y) EmptyString) eqn:E; [apply IH, Hm|].
  apply IH. intros key x Hx.
  destruct (decide (key = name_of y)) as [-> | Hne].
  - rewrite lookup_insert_eq in Hx. injection Hx as <-.
    split; [reflexivity | apply String.eqb_neq, E].
  - rewrite lookup_insert_ne in Hx by congruence. apply Hm, Hx.
Qed.

(** Importing the values of a keyed map merges it into the store, the
    imported entries winning. *)
Lemma import_values (saved m : gmap string A) (exported : list A) :
  (forall key x, saved !! key = Some x ->
                 name_of x = key /\ key <> EmptyString) ->
  Permutation exported (map snd (map_to_list saved)) ->
  import_by name_of exported m = saved ∪ m.
Proof.
  intros Hkeyed Hperm.
  assert (Hin : forall x, In x exported <-> saved !! name_of x = Some x).
  { intros x. split.
    - intros Hx. apply (Permutation_in _ Hperm) in Hx.
      apply in_map_iff in Hx. destruct Hx as ([key y] & <- & Hy).
      apply list_elem_of_In, elem_of_map_to_list in Hy. simpl.
      destruct (Hkeyed key y Hy) as [-> _]. exact Hy.
    - intros Hx. apply (Permutation_in _ (Permutation_sym Hperm)).
      apply in_map_iff. exists (name_of x, x). split; [reflexivity|].
      apply list_elem_of_In, elem_of_map_to_list, Hx. }
  assert (Hnd : List.NoDup (map name_of exported)).
  { apply (Permutation_NoDup
             (l := map name_of (map snd (map_to_list saved)))).
    - apply Permutation_map, Permutation_sym, Hperm.
    - assert (Hfst : map name_of (map snd (map_to_list saved))
                     = map fst (map_to_list saved)).
      { rewrite map_map. apply map_ext_in. intros [key x] Hx. simpl.
        apply list_elem_of_In, elem_of_map_to_list in Hx.
        apply (Hkeyed key x Hx). }
      rewrite Hfst.
      assert (Hmap : forall l : list (string * A), map fst l = l.*1).
      { induction l as [|e l IHl]; [reflexivity|].
        simpl. rewrite IHl. reflexivity. }
      rewrite Hmap. apply NoDup_ListNoDup, NoDup_fst_map_to_list. }
  apply map_eq. intros key.
  destruct (saved !! key) as [x|] eqn:Hsaved.
  - destruct (Hkeyed key x Hsaved) as [Hname Hne]. subst key.
    rewrite (lookup_union_Some_l _ _ _ _ Hsaved).
    apply import_named; [exact Hnd | apply Hin, Hsaved | exact Hne].
  - rewrite lookup_union_r by exact Hsaved.
    apply import_other. intros x Hx Hname.
    apply Hin in Hx. rewrite Hname in Hx. congruence.
Qed.

End ImportLoop.

Lemma collect_states_schedules f replies keys : forall s acc,
  schedules (fst (collect_states keys f replies s acc)) = schedules s.
Proof.
  induction keys as [|k keys IH]; intros s acc; simpl; [reflexivity|].
  destruct (lights_get k (lights s)) as [light|]; [|apply IH].
  destruct (passes_filter f light); [|apply IH].
  rewrite IH. unfold getCurrentBrightness.
  destruct (replies (l_index light)); reflexivity.
Qed.

Lemma saveScene_scenes name f replies now s :
  scenes (fst (saveScene name f replies now s)) = scenes s
  \/ name <> EmptyString
     /\ exists scene, sc_name scene = name
          /\ scenes (fst (saveScene name f replies now s))
             = <[name := scene]> (scenes s).
Proof.
  unfold saveScene. destruct (isInitialized s); simpl; [|left; reflexivity].
  destruct (String.eqb name EmptyString) eqn:E; simpl; [left; reflexivity|].
  right. split; [apply String.eqb_neq, E|].
  pose proof (collect_states_spec f replies (map fst (lights s)) s [])
    as (_ & Hscenes & _).
  destruct (collect_states _ _ _ _ _) as [s' members]. simpl in *.
  eexists. split; [|rewrite Hscenes; reflexivity]. reflexivity.
Qed.

(** X26: every scene and schedule is stored under its own, non-empty
    name, and saving or deleting a scene, creating a schedule, deleting a
    schedule from the UI, and importing any configuration keep it so. *)
Theorem stores_stay_keyed (s : State) :
  stores_keyed s ->
  (forall name f replies now,
     stores_keyed (fst (saveScene name f replies now s)))
  /\ (forall name, stores_keyed (fst (deleteScene name s)))
  /\ (forall name events now, stores_keyed (fst (createSchedule name events now s)))
  /\ (forall name, stores_keyed (deleteSchedule name s))
  /\ (forall config, stores_keyed (fst (importConfig config s))).
Proof.
  intros [Hscenes Hschedules].
  split; [|split; [|split; [|split]]].
  - intros name f replies now. split.
    + destruct (saveScene_scenes name f replies now s)
        as [-> | (Hname & scene & Hsc & ->)]; [exact Hscenes|].
      intros key x Hx. destruct (decide (key = name)) as [-> | Hne].
      * rewrite lookup_insert_eq in Hx. injection Hx as <-.
        split; assumption.
      * rewrite lookup_insert_ne in Hx by congruence. apply Hscenes, Hx.
    + assert (Hsame : schedules (fst (saveScene name f replies now s))
                      = schedules s).
      { unfold saveScene. destruct (isInitialized s); simpl; [|reflexivity].
        destruct (String.eqb name EmptyString); simpl; [reflexivity|].
        pose proof (collect_states_schedules f replies
                      (map fst (lights s)) s []) as Hc.
        destruct (collect_states _ _ _ _ _) as [s' members]. simpl in *.
        exact Hc. }
      rewrite Hsame. exact Hschedules.
  - intros name. unfold deleteScene.
    destruct (scenes s !! name) eqn:E; simpl;
      [|split; assumption].
    split; [|exact Hschedules]. simpl.
    intros key x Hx. apply lookup_delete_Some in Hx as [_ Hx].
    apply Hscenes, Hx.
  - intros name events now. unfold createSchedule.
    destruct (String.eqb name EmptyString) eqn:E; simpl;
      [split; assumption|].
    split; [exact Hscenes|]. simpl.
    intros key x Hx. destruct (decide (key = name)) as [-> | Hne].
    + rewrite lookup_insert_eq in Hx. injection Hx as <-.
      split; [reflexivity | apply String.eqb_neq, E].
    + rewrite lookup_insert_ne in Hx by congruence. apply Hschedules, Hx.
  - intros name. unfold deleteSchedule, deactivateSchedule. simpl.
    assert (Hdel : schedules_keyed (delete name (schedules s))).
    { intros key x Hx. apply lookup_delete_Some in Hx as [_ Hx].
      apply Hschedules, Hx. }
    destruct (decide (name ∈ activeSchedules s)); simpl;
      repeat (match goal with |- context [match ?o with _ => _ end] =>
                destruct o end; simpl);
      split; assumption.
  - intros [config|]; [|split; assumption].
    unfold importConfig, stores_keyed. simpl. split.
    + destruct (cfg_scenes config) as [imported|]; [|exact Hscenes].
      exact (import_keyed sc_name imported (scenes s) Hscenes).
    + destruct (cfg_schedules config) as [imported|]; [|exact Hschedules].
      exact (import_keyed sd_name imported (schedules s) Hschedules).
Qed.

Lemma sample_scheduled_keyed : stores_keyed sample_scheduled.
Proof.
  split.
  - intros key x Hx. change (sample_scenes !! key = Some x) in Hx.
    unfold sample_scenes in Hx.
    destruct (decide (key = "Evening"%string)) as [-> | Hne1].
    + rewrite lookup_insert_eq in Hx. injection Hx as <-.
      split; [reflexivity | discriminate].
    + rewrite lookup_insert_ne in Hx by congruence.
      destruct (decide (key = "Stale"%string)) as [-> | Hne2].
      * rewrite lookup_insert_eq in Hx. injection Hx as <-.
        split; [reflexivity | discriminate].
      * rewrite lookup_insert_ne in Hx by congruence.
        rewrite lookup_empty in Hx. discriminate Hx.
  - intros key x Hx.
    change ((<["Morning"%string := monday_off]> ∅ : gmap string Schedule)
              !! key = Some x) in Hx.
    destruct (decide (key = "Morning"%string)) as [-> | Hne].
    + rewrite lookup_insert_eq in Hx. injection Hx as <-.
      split; [reflexivity | discriminate].
    + rewrite lookup_insert_ne in Hx by congruence.
      rewrite lookup_empty in Hx. discriminate Hx.
Qed.

Lemma stores_stay_keyed_witness :
  stores_keyed (fst (deleteScene "Stale" sample_scheduled))
  /\ stores_keyed (fst (createSchedule "Night" [] "now" sample_scheduled)).
Proof.
  destruct (stores_stay_keyed sample_scheduled sample_scheduled_keyed)
    as (_ & Hdelete & Hcreate & _).
  split; [apply Hdelete | apply Hcreate].
Defined.

(** X27: importing what [exportConfig] produced merges it into the
    stores.  For stores that hold every entry under its own name, the
    exported arrays list their values in some order; importing them into
    any controller returns true, leaves both stores equal to the exported
    ones laid over the controller's own (an exported entry replaces one of
    the same name, the others stay), and touches neither the registry nor
    the running schedules.  Imported into empty stores, the export is
    restored exactly.  A configuration that is not an object returns false
    and changes neither store. *)
Theorem importConfig_merges_export (saved_scenes : gmap string Scene)
    (saved_schedules : gmap string Schedule)
    (exported_scenes : list Scene) (exported_schedules : list Schedule)
    (s : State) :
  scenes_keyed saved_scenes -> schedules_keyed saved_schedules ->
  Permutation exported_scenes (map snd (map_to_list saved_scenes)) ->
  Permutation exported_schedules (map snd (map_to_list saved_schedules)) ->
  let config := mkConfig (Some exported_scenes) (Some exported_schedules) in
  snd (importConfig (Some config) s) = true
  /\ scenes (fst (importConfig (Some config) s)) = saved_scenes ∪ scenes s
  /\ schedules (fst (importConfig (Some config) s))
     = saved_schedules ∪ schedules s
  /\ (scenes s = ∅ ->
      scenes (fst (importConfig (Some config) s)) = saved_scenes)
  /\ (schedules s = ∅ ->
      schedules (fst (importConfig (Some config) s)) = saved_schedules)
  /\ lights (fst (importConfig (Some config) s)) = lights s
  /\ activeSchedules (fst (importConfig (Some config) s)) = activeSchedules s
  /\ scheduleIntervals (fst (importConfig (Some config) s))
     = scheduleIntervals s
  /\ snd (importConfig None s) = false
  /\ scenes (fst (importConfig None s)) = scenes s
  /\ schedules (fst (importConfig None s)) = schedules s.
Proof.
  intros Hscenes Hschedules Hp1 Hp2 config.
  pose proof (import_values sc_name saved_scenes (scenes s) exported_scenes
                Hscenes Hp1) as H1.
  pose proof (import_values sd_name saved_schedules (schedules s)
                exported_schedules Hschedules Hp2) as H2.
  unfold importConfig, config. simpl.
  change (import_scenes exported_scenes (scenes s))
    with (import_by sc_name exported_scenes (scenes s)).
  change (import_schedules exported_schedules (schedules s))
    with (import_by sd_name exported_schedules (schedules s)).
  rewrite H1, H2.
  split; [reflexivity|]. split; [reflexivity|]. split; [reflexivity|].
  split; [intros ->; apply (right_id ∅ (∪))|].
  split; [intros ->; apply (right_id ∅ (∪))|].
  repeat split.
Qed.

Lemma importConfig_merges_export_witness :
  let config := mkConfig (Some []) (Some [monday_off]) in
  snd (importConfig (Some config) sample_with_scenes) = true
  /\ scenes (fst (importConfig (Some config) sample_with_scenes))
     = ∅ ∪ scenes sample_with_scenes
  /\ schedules (fst (importConfig (Some config) sample_with_scenes))
     = <["Morning" := monday_off]> ∅ ∪ schedules sample_with_scenes
  /\ schedules (fst (importConfig (Some config) sample_with_scenes))
     = <["Morning" := monday_off]> ∅.
Proof.
  intros config.
  destruct (importConfig_merges_export ∅ (<["Morning" := monday_off]> ∅)
              [] [monday_off] sample_with_scenes)
    as (H1 & H2 & H3 & _ & H5 & _).
  - intros key x Hx. rewrite lookup_empty in Hx. discriminate Hx.
  - intros key x Hx. destruct (decide (key = "Morning"%string)) as [-> | Hne].
    + rewrite lookup_insert_eq in Hx. injection Hx as <-.
      split; [reflexivity | discriminate].
    + rewrite lookup_insert_ne in Hx by congruence.
      rewrite lookup_empty in Hx. discriminate Hx.
  - rewrite map_to_list_empty. constructor.
  - rewrite insert_empty, map_to_list_singleton. simpl. constructor. constructor.
  - split; [exact H1|]. split; [exact H2|]. split; [exact H3|].
    apply H5. reflexivity.
Defined.

(** ** Inbound messages *)

Lemma split_at_eq (message : string) :
  match after_eq message with
  | None => before_eq message = message
  | Some rest => message = before_eq message +:+ "=" +:+ rest
  end.
Proof.
  induction message as [|c message IH]; simpl; [reflexivity|].
  destruct (Ascii.eqb_spec c "=") as [-> | Hne]; [reflexivity|].
  destruct (after_eq message) as [rest|].
  - change (String c message = String c (before_eq message +:+ "=" +:+ rest)).
    rewrite <- IH. reflexivity.
  - rewrite IH. reflexivity.
Qed.


Section MessageDelivery.

Variable decode : string -> option LightObject.

(** Object handlers leave the bound listeners alone. *)
Lemma object_fold_listeners data firing : forall d,
  Forall is_object_handler firing ->
  listeners (fold_left (fun acc e => run_listener decode (snd e) data acc)
               firing d) = listeners d.
Proof.
  induction firing as [|[tag handler] firing IH]; intros d Hobj;
    [reflexivity|].
  inversion Hobj as [|? ? Hhead Htail]; subst.
  destruct handler as [|i]; [destruct Hhead|].
  simpl. rewrite IH by exact Htail.
  unfold run_lightObjectHandler.
  destruct (decode data); simpl; [|reflexivity].
  match goal with
  | |- context [if ?c then _ else _] => destruct c
  end; [|reflexivity].
  match goal with
  | |- listeners (resolve ?d1) = _ =>
      destruct (settle_fields Resolved d1) as (_ & Hls & _)
  end.
  exact Hls.
Qed.

Lemma filter_filter_none {A} (f : A -> bool) (l : list A) :
  List.filter f (List.filter (fun x => negb (f x)) l) = [].
Proof.
  induction l as [|x l IH]; [reflexivity|]. simpl.
  destruct (f x) eqn:E; simpl; [exact IH|]. rewrite E. exact IH.
Qed.

(** A second dispatch of an object response finds nobody listening. *)
Lemma object_response_once tag data d :
  Forall is_object_handler (listeners d) ->
  trigger decode tag data (trigger decode tag data d)
  = trigger decode tag data d.
Proof.
  intros Hobj. apply trigger_unheard.
  unfold trigger at 1.
  rewrite object_fold_listeners by (apply Forall_filter, Hobj).
  simpl. intros entry Hin Hbound.
  assert (Hnone : In entry
            (List.filter (bound_to tag)
               (List.filter (fun e => negb (bound_to tag e)) (listeners d)))).
  { apply List.filter_In. split; [exact Hin|].
    unfold bound_to. apply String.eqb_eq. exact Hbound. }
  rewrite filter_filter_none in Hnone. destruct Hnone.
Qed.

End MessageDelivery.

(** X28: an object response is counted once although [handleMessage]
    dispatches it twice.  On a discovery pass in any state it can reach,
    delivering the events [handleMessage] dispatches for a message has the
    effect of triggering its first event once, and no effect when it
    dispatches none; an event's name and detail are the message's text
    before the first [=] and between the first and the second, so
    whatever follows a second [=] is lost. *)
Theorem handleMessage_delivers_once (decode : string -> option LightObject)
    (is_json : string -> bool) (s : State) (inputs : list Input)
    (message : string) :
  let d := run decode inputs (initialize s) in
  deliver decode (handleMessage is_json message) d
  = match handleMessage is_json message with
    | [] => d
    | (tag, detail) :: _ => trigger decode tag detail d
    end
  /\ forall tag detail, In (tag, detail) (handleMessage is_json message) ->
       message = tag +:+ "=" +:+ detail
       \/ exists lost, message = tag +:+ "=" +:+ detail +:+ "=" +:+ lost.
Proof.
  intros d. unfold handleMessage.
  destruct (existsb (String.eqb message) pin_messages);
    [split; [reflexivity | intros ? ? []]|].
  destruct (is_json message); [split; [reflexivity | intros ? ? []]|].
  pose proof (split_at_eq message) as Hsplit.
  destruct (after_eq message) as [rest|];
    [|split; [reflexivity | intros ? ? []]].
  split.
  - destruct (String.prefix "GET_LIGHT_OBJECT[" (before_eq message)) eqn:Hpre;
      [|reflexivity].
    unfold deliver. simpl.
    destruct (discovery_accounting decode inputs s) as [(Hl & _) | (Hp & _)].
    + fold d in Hl.
      assert (Hne : before_eq message <> "GET_LIGHT_COUNT"%string).
      { intros Heq. rewrite Heq in Hpre. vm_compute in Hpre. discriminate. }
      assert (Hquiet : trigger decode (before_eq message) (before_eq rest) d
                       = d).
      { apply trigger_unheard. rewrite Hl. intros entry [<- | []]. simpl.
        congruence. }
      rewrite Hquiet. exact Hquiet.
    + apply object_response_once. apply Hp.
  - intros tag detail Hin.
    assert (Hevent : tag = before_eq message /\ detail = before_eq rest).
    { destruct (String.prefix _ _); simpl in Hin;
        [destruct Hin as [Hin | [Hin | []]] | destruct Hin as [Hin | []]];
        injection Hin as <- <-; split; reflexivity. }
    destruct Hevent as [-> ->].
    pose proof (split_at_eq rest) as Hrest.
    destruct (after_eq rest) as [lost|].
    + right. exists lost. rewrite <- Hrest. exact Hsplit.
    + left. rewrite Hrest. exact Hsplit.
Qed.

(** ** Status report *)

Lemma room_tally (all : list Light) :
  (list_sum (map (fun id => length (List.filter
                                      (fun light => (l_room light =? id)%Z) all))
               room_ids)
   + length (List.filter in_unnamed_room all) = length all)%nat.
Proof.
  induction all as [|light all IH]; [reflexivity|].
  unfold room_ids in *. simpl in *. unfold in_unnamed_room at 1.
  destruct (Z.eqb_spec (l_room light) 0), (Z.eqb_spec (l_room light) 1),
    (Z.eqb_spec (l_room light) 2), (Z.eqb_spec (l_room light) 3),
    (Z.eqb_spec (l_room light) 4), (Z.eqb_spec (l_room light) 5),
    (Z.leb_spec 0 (l_room light)), (Z.leb_spec (l_room light) 5);
    simpl; lia.
Qed.

Lemma roomName_unknown (r : Z) :
  roomName r = "Unknown"%string <-> (r < 0 \/ 5 < r).
Proof.
  split.
  - intros H. destruct (Z_lt_dec r 0) as [|Hge]; [left; assumption|].
    destruct (Z_lt_dec 5 r) as [|Hle]; [right; assumption|].
    exfalso.
    assert (Hcases : r = 0 \/ r = 1 \/ r = 2 \/ r = 3 \/ r = 4 \/ r = 5)
      by lia.
    destruct Hcases as [-> | [-> | [-> | [-> | [-> | ->]]]]];
      discriminate H.
  - intros H. destruct r as [|p|p]; [lia | | reflexivity].
    destruct p as [[[p|p|]|[p|p|]|]|[[p|p|]|[p|p|]|]|];
      try reflexivity; lia.
Qed.

(** X29: the room tallies of [getStatus] count every light of a named room
    exactly once.  The light counts of the six rooms add up to the number
    of registered lights less those whose room is none of the six, which
    appear under no room; a light discovered with such a room is the one
    whose room name reads Unknown. *)
Theorem getStatus_room_counts (s : State) :
  (list_sum (map rs_lightCount (st_rooms (getStatus s)))
   + length (List.filter in_unnamed_room (getAllLights s))
   = st_lightsCount (getStatus s))%nat
  /\ forall lightObject,
       in_unnamed_room (lightData lightObject) = true
       <-> l_roomName (lightData lightObject) = "Unknown"%string.
Proof.
  split.
  - unfold getStatus. simpl. unfold getLightsByRoom.
    pose proof (room_tally (getAllLights s)) as H.
    unfold room_ids in H. simpl in H.
    unfold getAllLights in *. rewrite length_map in H. exact H.
  - intros lightObject. unfold in_unnamed_room, lightData. simpl.
    rewrite roomName_unknown.
    destruct (Z.leb_spec 0 (lo_room_loc lightObject)),
      (Z.leb_spec (lo_room_loc lightObject) 5); simpl;
      split; intros Hx; try reflexivity; try discriminate Hx; lia.
Qed.
